(** * tpm2-tools: quote decoding and quote verification

    A shallow embedding of the quote handling code of tpm2-tools:

    - [lib/tpm2_util.c]: the endianness helpers
      ([tpm2_util_is_big_endian], [tpm2_util_endian_swap_16/32/64],
      [tpm2_util_hton_16/32/64], [tpm2_util_ntoh_16/32/64]), the quote
      decoder [tpm2_util_get_digest_from_quote] and the digest comparison
      [tpm2_util_verify_digests];
    - [tools/misc/tpm2_checkquote.c]: [verify_signature].

    Fixed-width C integers are integers of [Z] with the wrap-around written
    out; memory is a list of bytes; the byte order of the host is a parameter
    of every function that looks at the bytes of an integer. *)

From Stdlib Require Import String ZArith List Bool Lia.
From Stdlib.Strings Require Import Byte.
Import ListNotations.

Local Open Scope Z_scope.

(** ** Bytes and fixed-width unsigned integers *)

Module Bytes.

Definition BYTE := Byte.byte.

Definition Z_of_byte (b : BYTE) : Z := Z.of_N (Byte.to_N b).

Definition byte_of_Z (z : Z) : BYTE :=
  match Byte.of_N (Z.to_N (z mod 256)) with
  | Some b => b
  | None => x00
  end.

(** The two byte orders a host can have. *)
Inductive endianness := LittleEndian | BigEndian.

(** The value of a little-endian byte string. *)
Fixpoint le_uint (bs : list BYTE) : Z :=
  match bs with
  | [] => 0
  | b :: bs' => Z_of_byte b + 256 * le_uint bs'
  end.

(** The value of a big-endian byte string. *)
Definition be_uint (bs : list BYTE) : Z := le_uint (rev bs).

(** The [n] little-endian bytes of [v]. *)
Fixpoint le_bytes (n : nat) (v : Z) : list BYTE :=
  match n with
  | O => []
  | S n' => byte_of_Z (v mod 256) :: le_bytes n' (v / 256)
  end.

(** What the host stores in memory for an [n]-byte unsigned integer [v]. *)
Definition bytes_of_uint (h : endianness) (n : nat) (v : Z) : list BYTE :=
  match h with
  | LittleEndian => le_bytes n v
  | BigEndian => rev (le_bytes n v)
  end.

(** What the host reads from memory as an unsigned integer: this is what
    [memcpy(&x, p, sizeof x)] leaves in [x]. *)
Definition uint_of_bytes (h : endianness) (bs : list BYTE) : Z :=
  match h with
  | LittleEndian => le_uint bs
  | BigEndian => le_uint (rev bs)
  end.

(** [len] bytes of [data] from offset [off]; a byte that the list does not
    hold reads as zero. *)
Definition load (data : list BYTE) (off : Z) (len : Z) : list BYTE :=
  map (fun k => nth (Z.to_nat off + k) data x00) (seq 0 (Z.to_nat len)).

End Bytes.
Import Bytes.

(** ** Endianness helpers of [lib/tpm2_util.c] *)

Definition UINT16_MAX : Z := 65535.
Definition UINT32_MOD : Z := 4294967296.

(** [tpm2_util_is_big_endian]: the first byte in memory of the word
    [0xFF000000]. *)
Definition tpm2_util_is_big_endian (h : endianness) : bool :=
  let test_word := 0xFF000000 in
  let test_byte := bytes_of_uint h 4 test_word in
  Byte.eqb (nth 0 test_byte x00) xff.

(** [STRING_BYTES_ENDIAN_CONVERT(size)]: [tmp[i] = bytes[sizeof - i - 1]] for
    every [i], on the bytes the host holds for [data]. *)
Definition endian_swap (sz : nat) (h : endianness) (data : Z) : Z :=
  let bytes := bytes_of_uint h sz data in
  let tmp := map (fun i => nth (sz - i - 1) bytes x00) (seq 0 sz) in
  uint_of_bytes h tmp.

Definition tpm2_util_endian_swap_16 := endian_swap 2.
Definition tpm2_util_endian_swap_32 := endian_swap 4.
Definition tpm2_util_endian_swap_64 := endian_swap 8.

(** [STRING_BYTES_ENDIAN_HTON(size)]. *)
Definition hton (sz : nat) (h : endianness) (data : Z) : Z :=
  let is_big_endian := tpm2_util_is_big_endian h in
  if is_big_endian then data else endian_swap sz h data.

Definition tpm2_util_hton_16 := hton 2.
Definition tpm2_util_hton_32 := hton 4.
Definition tpm2_util_hton_64 := hton 8.

Definition tpm2_util_ntoh_16 (h : endianness) (data : Z) : Z :=
  tpm2_util_hton_16 h data.
Definition tpm2_util_ntoh_32 (h : endianness) (data : Z) : Z :=
  tpm2_util_hton_32 h data.
Definition tpm2_util_ntoh_64 (h : endianness) (data : Z) : Z :=
  tpm2_util_hton_64 h data.

(** ** Structures *)

(** A [TPM2B] of the TSS2 headers: a [UINT16] size and a byte buffer.
    [TPM2B_DIGEST], [TPM2B_DATA] and [TPM2B_ATTEST] have this layout; the
    buffer of a [TPM2B_ATTEST] is called [attestationData]. *)
Record TPM2B := mkTPM2B { size : Z; buffer : list BYTE }.

Definition TPM2B_DIGEST := TPM2B.
Definition TPM2B_DATA := TPM2B.
Definition TPM2B_ATTEST := TPM2B.
Definition attestationData (quoted : TPM2B_ATTEST) : list BYTE := buffer quoted.

(** Modelled from the spec: the constant [TPM2_GENERATED_VALUE] of the TSS2
    headers, which are not part of this repository (the magic of section 4.3,
    step 1). *)
Definition TPM2_GENERATED_VALUE : Z := 0xff544347.

(** Modelled from the spec: the constant [TPM2_ST_ATTEST_QUOTE] of the TSS2
    headers, which are not part of this repository (the quote type of the
    first end-to-end scenario). *)
Definition TPM2_ST_ATTEST_QUOTE : Z := 0x8018.

(** Modelled from the spec: [sizeof(TPMU_HA)], the capacity of the buffer of
    a [TPM2B_DIGEST] in the TSS2 headers, which are not part of this
    repository (the largest digest, 64 bytes). *)
Definition sizeof_TPMU_HA : Z := 64.

(** Modelled from the spec: [sizeof(TPMT_HA)], the capacity of the buffer of
    a [TPM2B_DATA] in the TSS2 headers, which are not part of this
    repository: a [TPMU_HA] after a 2-byte algorithm identifier. *)
Definition sizeof_TPMT_HA : Z := 2 + sizeof_TPMU_HA.

(** Unsigned 32-bit addition, as on the [UINT32] cursor [i]. *)
Definition add32 (a b : Z) : Z := (a + b) mod UINT32_MOD.

(** [memcpy(dst, src, n)] on a destination buffer: the first [n] bytes are
    replaced; bytes written past the end of the destination are kept, so
    that the length of the result shows how far the copy went. *)
Definition overwrite (src dst : list BYTE) : list BYTE :=
  src ++ skipn (length src) dst.

(** ** Computations with a state and an early exit *)

Module ErrState.

(** A computation on a state [S] either goes on with a value or has left
    the straight-line path ([return false], [goto err]). *)
Definition M (S A : Type) : Type := S -> option A * S.

Definition ret {S A} (a : A) : M S A := fun s => (Some a, s).

Definition bind {S A B} (m : M S A) (k : A -> M S B) : M S B :=
  fun s =>
    match m s with
    | (Some a, s') => k a s'
    | (None, s') => (None, s')
    end.

Definition get {S A} (f : S -> A) : M S A := fun s => (Some (f s), s).

Definition exit {S A} : M S A := fun s => (None, s).

End ErrState.
Import ErrState.

Notation "x <- m ;; k" := (bind m (fun x => k))
  (at level 61, m at next level, right associativity).
Notation "m ;; k" := (bind m (fun _ => k))
  (at level 61, right associativity).

(** ** The quote decoder: [tpm2_util_get_digest_from_quote] *)

Module Decoder.

(** Where a [memcpy] of the decoder writes. *)
Inductive dest :=
| Dmagic | Dtype | DnameSize
| DextraData_size | DextraData_buffer
| DpcrSelCount | DhashAlg | Dsos
| Ddigest_size | Ddigest_buffer.

(** One [memcpy] from [&quoted->attestationData[off]], [len] bytes long. *)
Inductive event := Memcpy (dst : dest) (off len : Z).

(** The cursor [i], the two output structures, and two ghost fields: the
    copies made so far and the messages given to [LOG_ERR]. *)
Record state := mkState {
  i : Z;
  digest : TPM2B_DIGEST;
  extraData : TPM2B_DATA;
  trace : list event;
  log : list string
}.

(** The computations of the decoder. *)
Definition M (A : Type) : Type := ErrState.M state A.

(** [LOG_ERR(msg); return false;] *)
Definition LOG_ERR_return_false {A} (msg : string) : M A :=
  fun s =>
    (None, mkState (i s) (digest s) (extraData s) (trace s) (log s ++ [msg])).

(** [i += k] *)
Definition incr_i (k : Z) : M unit :=
  fun s =>
    (Some tt,
     mkState (add32 (i s) k) (digest s) (extraData s) (trace s) (log s)).

(** [memcpy(&x, &quoted->attestationData[i], len)] for an integer [x] of
    [len] bytes: the value [x] has afterwards. *)
Definition memcpy_uint (h : endianness) (quoted : TPM2B_ATTEST) (dst : dest)
    (len : Z) : M Z :=
  fun s =>
    (Some (uint_of_bytes h (load (attestationData quoted) (i s) len)),
     mkState (i s) (digest s) (extraData s)
       (trace s ++ [Memcpy dst (i s) len]) (log s)).

Definition set_extraData_size (v : Z) : M unit :=
  fun s =>
    (Some tt,
     mkState (i s) (digest s) (mkTPM2B v (buffer (extraData s)))
       (trace s) (log s)).

Definition set_digest_size (v : Z) : M unit :=
  fun s =>
    (Some tt,
     mkState (i s) (mkTPM2B v (buffer (digest s))) (extraData s)
       (trace s) (log s)).

(** [memcpy(&extraData->buffer, &quoted->attestationData[i],
    extraData->size)] *)
Definition memcpy_extraData_buffer (quoted : TPM2B_ATTEST) : M unit :=
  fun s =>
    let n := size (extraData s) in
    let src := load (attestationData quoted) (i s) n in
    (Some tt,
     mkState (i s) (digest s)
       (mkTPM2B n (overwrite src (buffer (extraData s))))
       (trace s ++ [Memcpy DextraData_buffer (i s) n]) (log s)).

(** [memcpy(&digest->buffer, &quoted->attestationData[i], digest->size)] *)
Definition memcpy_digest_buffer (quoted : TPM2B_ATTEST) : M unit :=
  fun s =>
    let n := size (digest s) in
    let src := load (attestationData quoted) (i s) n in
    (Some tt,
     mkState (i s)
       (mkTPM2B n (overwrite src (buffer (digest s)))) (extraData s)
       (trace s ++ [Memcpy Ddigest_buffer (i s) n]) (log s)).

Section Host.

Variable h : endianness.
Variable quoted : TPM2B_ATTEST.

(** Qualified signer name (skip) *)
Definition qualified_signer_name : M unit :=
  i0 <- get i ;;
  if add32 i0 2 >=? size quoted
  then LOG_ERR_return_false "Malformed TPM2B_NAME value"
  else
    nameSize <- memcpy_uint h quoted DnameSize 2 ;;
    incr_i 2 ;;
    let nameSize :=
      if negb (tpm2_util_is_big_endian h)
      then tpm2_util_endian_swap_16 h nameSize else nameSize in
    incr_i nameSize.

(** Extra data *)
Definition extra_data : M unit :=
  i0 <- get i ;;
  if add32 i0 2 >=? size quoted
  then LOG_ERR_return_false "Malformed TPM2B_DATA value"
  else
    sz <- memcpy_uint h quoted DextraData_size 2 ;;
    set_extraData_size sz ;;
    incr_i 2 ;;
    (if negb (tpm2_util_is_big_endian h)
     then e <- get extraData ;;
          set_extraData_size (tpm2_util_endian_swap_16 h (size e))
     else ret tt) ;;
    e <- get extraData ;;
    i1 <- get i ;;
    if add32 (size e) i1 >? size quoted
    then LOG_ERR_return_false "Malformed extraData TPM2B_DATA value"
    else
      memcpy_extraData_buffer quoted ;;
      incr_i (size e).

(** Clock info (skip) *)
Definition clock_info : M unit :=
  incr_i 17 ;;
  i0 <- get i ;;
  if i0 >=? size quoted
  then LOG_ERR_return_false "Malformed TPMS_CLOCK_INFO value"
  else ret tt.

(** Firmware info (skip) *)
Definition firmware_info : M unit :=
  incr_i 8 ;;
  i0 <- get i ;;
  if i0 >=? size quoted
  then LOG_ERR_return_false "Malformed firmware version value"
  else ret tt.

(** The body of [for (j = 0; j < pcrSelCount; j++)], [n] iterations of it. *)
Fixpoint pcr_select_loop (n : nat) : M unit :=
  match n with
  | O => ret tt
  | S n' =>
    (* Hash *)
    i0 <- get i ;;
    if add32 i0 2 >=? size quoted
    then LOG_ERR_return_false "Malformed TPMS_PCR_SELECTION value"
    else
      hashAlg <- memcpy_uint h quoted DhashAlg 2 ;;
      incr_i 2 ;;
      let hashAlg :=
        if negb (tpm2_util_is_big_endian h)
        then tpm2_util_endian_swap_16 h hashAlg else hashAlg in
      (* SizeOfSelected *)
      i1 <- get i ;;
      if add32 i1 1 >=? size quoted
      then LOG_ERR_return_false "Malformed TPMS_PCR_SELECTION value"
      else
        sos <- memcpy_uint h quoted Dsos 1 ;;
        incr_i 1 ;;
        (* PCR Select (skip) *)
        incr_i sos ;;
        i2 <- get i ;;
        if i2 >=? size quoted
        then LOG_ERR_return_false "Malformed TPMS_PCR_SELECTION value"
        else pcr_select_loop n'
  end.

(** PCR select info *)
Definition pcr_select_info : M unit :=
  i0 <- get i ;;
  if add32 i0 4 >=? size quoted
  then LOG_ERR_return_false "Malformed TPML_PCR_SELECTION value"
  else
    pcrSelCount <- memcpy_uint h quoted DpcrSelCount 4 ;;
    incr_i 4 ;;
    let pcrSelCount :=
      if negb (tpm2_util_is_big_endian h)
      then tpm2_util_endian_swap_32 h pcrSelCount else pcrSelCount in
    pcr_select_loop (Z.to_nat pcrSelCount).

(** Digest *)
Definition digest_field : M unit :=
  i0 <- get i ;;
  if add32 i0 2 >=? size quoted
  then LOG_ERR_return_false "Malformed TPM2B_DIGEST value"
  else
    sz <- memcpy_uint h quoted Ddigest_size 2 ;;
    set_digest_size sz ;;
    incr_i 2 ;;
    (if negb (tpm2_util_is_big_endian h)
     then d <- get digest ;;
          set_digest_size (tpm2_util_endian_swap_16 h (size d))
     else ret tt) ;;
    d <- get digest ;;
    i1 <- get i ;;
    if add32 (size d) i1 >? size quoted
    then LOG_ERR_return_false "Malformed TPM2B_DIGEST value"
    else memcpy_digest_buffer quoted.

(** The function, from its first statement to [return true]. *)
Definition get_digest_from_quote : M unit :=
  (* Ensure required headers are at least there *)
  if size quoted <? 6
  then LOG_ERR_return_false "Malformed TPM2B_ATTEST headers"
  else
    magic <- memcpy_uint h quoted Dmagic 4 ;;
    incr_i 4 ;;
    type <- memcpy_uint h quoted Dtype 2 ;;
    incr_i 2 ;;
    let (magic, type) :=
      if negb (tpm2_util_is_big_endian h)
      then (tpm2_util_endian_swap_32 h magic,
            tpm2_util_endian_swap_16 h type)
      else (magic, type) in
    if negb (magic =? TPM2_GENERATED_VALUE)
    then LOG_ERR_return_false "Malformed TPM2_GENERATED magic value"
    else if negb (type =? TPM2_ST_ATTEST_QUOTE)
    then LOG_ERR_return_false "Malformed TPMI_ST_ATTEST quote value"
    else
      qualified_signer_name ;;
      extra_data ;;
      clock_info ;;
      firmware_info ;;
      pcr_select_info ;;
      digest_field.

(** [tpm2_util_get_digest_from_quote(quoted, digest, extraData)]: the
    returned boolean and the state at the return, which holds the two output
    structures as the caller finds them. *)
Definition tpm2_util_get_digest_from_quote
    (digest0 : TPM2B_DIGEST) (extraData0 : TPM2B_DATA) : bool * state :=
  match get_digest_from_quote (mkState 0 digest0 extraData0 [] []) with
  | (Some _, s) => (true, s)
  | (None, s) => (false, s)
  end.

End Host.

End Decoder.

(** ** A reference decoder

    The same steps as [Decoder.get_digest_from_quote], written on the wire
    format alone: every field is read as a big-endian integer and the
    cursor is a mathematical integer.  The verification shows that the
    decoder of the C code computes this function on every host, and reasons
    on it. *)

Module Reference.

Import Decoder.

Definition err (msg : string) (s : state) : option unit * state :=
  (None, mkState (i s) (digest s) (extraData s) (trace s) (log s ++ [msg])).

Section Blob.

Variable quoted : TPM2B_ATTEST.

(** The big-endian integer of [len] bytes at offset [off]. *)
Definition field (off len : Z) : Z :=
  be_uint (load (attestationData quoted) off len).

Definition header : M unit := fun s =>
  if size quoted <? 6 then err "Malformed TPM2B_ATTEST headers" s
  else
    let s1 :=
      mkState (i s + 4 + 2) (digest s) (extraData s)
        ((trace s ++ [Memcpy Dmagic (i s) 4]) ++ [Memcpy Dtype (i s + 4) 2])
        (log s) in
    if negb (field (i s) 4 =? TPM2_GENERATED_VALUE)
    then err "Malformed TPM2_GENERATED magic value" s1
    else if negb (field (i s + 4) 2 =? TPM2_ST_ATTEST_QUOTE)
    then err "Malformed TPMI_ST_ATTEST quote value" s1
    else (Some tt, s1).

Definition qualified_signer_name : M unit := fun s =>
  if i s + 2 >=? size quoted then err "Malformed TPM2B_NAME value" s
  else
    (Some tt,
     mkState (i s + 2 + field (i s) 2) (digest s) (extraData s)
       (trace s ++ [Memcpy DnameSize (i s) 2]) (log s)).

Definition extra_data : M unit := fun s =>
  if i s + 2 >=? size quoted then err "Malformed TPM2B_DATA value" s
  else
    let n := field (i s) 2 in
    let s1 :=
      mkState (i s + 2) (digest s) (mkTPM2B n (buffer (extraData s)))
        (trace s ++ [Memcpy DextraData_size (i s) 2]) (log s) in
    if n + (i s + 2) >? size quoted
    then err "Malformed extraData TPM2B_DATA value" s1
    else
      (Some tt,
       mkState (i s + 2 + n) (digest s)
         (mkTPM2B n
            (overwrite (load (attestationData quoted) (i s + 2) n)
               (buffer (extraData s))))
         ((trace s ++ [Memcpy DextraData_size (i s) 2])
            ++ [Memcpy DextraData_buffer (i s + 2) n])
         (log s)).

Definition skip (k : Z) (msg : string) : M unit := fun s =>
  let s1 := mkState (i s + k) (digest s) (extraData s) (trace s) (log s) in
  if i s + k >=? size quoted then err msg s1 else (Some tt, s1).

Definition clock_info : M unit :=
  skip 17 "Malformed TPMS_CLOCK_INFO value".

Definition firmware_info : M unit :=
  skip 8 "Malformed firmware version value".

Fixpoint pcr_select_loop (n : nat) : M unit := fun s =>
  match n with
  | O => (Some tt, s)
  | S n' =>
    if i s + 2 >=? size quoted
    then err "Malformed TPMS_PCR_SELECTION value" s
    else
      let s1 :=
        mkState (i s + 2) (digest s) (extraData s)
          (trace s ++ [Memcpy DhashAlg (i s) 2]) (log s) in
      if i s + 2 + 1 >=? size quoted
      then err "Malformed TPMS_PCR_SELECTION value" s1
      else
        let sos := field (i s + 2) 1 in
        let s2 :=
          mkState (i s + 2 + 1 + sos) (digest s) (extraData s)
            ((trace s ++ [Memcpy DhashAlg (i s) 2])
               ++ [Memcpy Dsos (i s + 2) 1])
            (log s) in
        if i s + 2 + 1 + sos >=? size quoted
        then err "Malformed TPMS_PCR_SELECTION value" s2
        else pcr_select_loop n' s2
  end.

Definition pcr_select_info : M unit := fun s =>
  if i s + 4 >=? size quoted
  then err "Malformed TPML_PCR_SELECTION value" s
  else
    pcr_select_loop (Z.to_nat (field (i s) 4))
      (mkState (i s + 4) (digest s) (extraData s)
         (trace s ++ [Memcpy DpcrSelCount (i s) 4]) (log s)).

Definition digest_field : M unit := fun s =>
  if i s + 2 >=? size quoted then err "Malformed TPM2B_DIGEST value" s
  else
    let n := field (i s) 2 in
    let s1 :=
      mkState (i s + 2) (mkTPM2B n (buffer (digest s))) (extraData s)
        (trace s ++ [Memcpy Ddigest_size (i s) 2]) (log s) in
    if n + (i s + 2) >? size quoted
    then err "Malformed TPM2B_DIGEST value" s1
    else
      (Some tt,
       mkState (i s + 2)
         (mkTPM2B n
            (overwrite (load (attestationData quoted) (i s + 2) n)
               (buffer (digest s))))
         (extraData s)
         ((trace s ++ [Memcpy Ddigest_size (i s) 2])
            ++ [Memcpy Ddigest_buffer (i s + 2) n])
         (log s)).

Definition get_digest_from_quote : M unit :=
  header ;;
  qualified_signer_name ;;
  extra_data ;;
  clock_info ;;
  firmware_info ;;
  pcr_select_info ;;
  digest_field.

End Blob.

End Reference.

(** ** Digest comparison: [tpm2_util_verify_digests] *)

(** [for (; k < quoteDigest->size; k++)] with [n] iterations left. *)
Fixpoint verify_digests_loop (quoteDigest pcrDigest : TPM2B_DIGEST)
    (k : nat) (n : nat) : bool :=
  match n with
  | O => true
  | S n' =>
    if negb (Byte.eqb (nth k (buffer quoteDigest) x00)
                      (nth k (buffer pcrDigest) x00))
    then false
    else verify_digests_loop quoteDigest pcrDigest (S k) n'
  end.

Definition tpm2_util_verify_digests (quoteDigest pcrDigest : TPM2B_DIGEST)
    : bool :=
  (* Sanity check -- they should at least be same size! *)
  if negb (size quoteDigest =? size pcrDigest) then false
  else
    (* Compare running digest with quote's digest *)
    verify_digests_loop quoteDigest pcrDigest 0 (Z.to_nat (size quoteDigest)).

(** ** Quote verification: [verify_signature] of [tpm2_checkquote.c] *)

(** [memcmp] of the C library on the first [n] bytes. *)
Fixpoint memcmp (s1 s2 : list BYTE) (n : nat) : Z :=
  match n with
  | O => 0
  | S n' =>
    let a := hd x00 s1 in
    let b := hd x00 s2 in
    if Byte.eqb a b then memcmp (tl s1) (tl s2) n'
    else Z_of_byte a - Z_of_byte b
  end.

Module CheckQuote.

Record verifysig_flags := mkFlags {
  flag_halg : bool;
  flag_msg : bool;
  flag_sig : bool;
  flag_pcr : bool;
  flag_extra : bool;
  flag_key_context : bool;
  flag_fmt : Z
}.

(** The part of a [TPMT_SIGNATURE] that [verify_signature] reads: the
    scheme and the [rsassa] member of the union. *)
Record TPMT_SIGNATURE := mkSignature {
  sigAlg : Z;
  rsassa_hash : Z;
  rsassa_sig : TPM2B
}.

Record tpm2_verifysig_ctx := mkCtx {
  flags : verifysig_flags;
  format : Z;
  halg : Z;
  msgHash : TPM2B_DIGEST;
  pcrHash : TPM2B_DIGEST;
  quoteHash : TPM2B_DIGEST;
  quoteExtraData : TPM2B_DATA;
  extraData : TPM2B_DATA;
  signature : TPMT_SIGNATURE;
  pubkey_file_path : string
}.

(** What [verify_signature] does that can be seen from outside: its calls
    to its collaborators, with what they returned, its messages, and the two
    comparisons that follow the signature check. *)
Inductive call :=
| Call_fopen (path : string)
| Call_get_public_RSA_from_pem
| Call_hexdump
| Call_RSA_verify (result : Z)
| Cmp_nonce_size
| Call_memcmp
| Call_verify_digests
| Call_fclose
| Call_RSA_free
| LOG_ERR (msg : string).

Definition emit (c : call) : M (list call) unit :=
  fun t => (Some tt, t ++ [c]).

Section Collaborators.

(** The collaborators of [verify_signature], which are not part of this
    repository's sources: the C library, OpenSSL and the TSS2 headers. *)
Variable FILE : Type.
Variable RSA : Type.
Variable fopen : string -> option FILE.
Variable tpm2_openssl_get_public_RSA_from_pem : FILE -> string -> option RSA.
Variable tpm2_openssl_halgid_from_tpmhalg : Z -> Z.
Variable RSA_verify : Z -> list BYTE -> Z -> list BYTE -> Z -> RSA -> Z.
Variable TPM2_ALG_RSASSA : Z.

Variable ctx : tpm2_verifysig_ctx.

(** From the key load to [result = true]; an exit is [goto err]. *)
Definition verify_signature_checks (pubkey_input : FILE)
    : M (list call) unit :=
  emit Call_get_public_RSA_from_pem ;;
  match tpm2_openssl_get_public_RSA_from_pem pubkey_input
          (pubkey_file_path ctx) with
  | None =>
    emit (LOG_ERR "Failed to load RSA public key from file") ;; exit
  | Some pubKey =>
    (* Get the signature ready *)
    if negb (sigAlg (signature ctx) =? TPM2_ALG_RSASSA)
    then emit (LOG_ERR "Only RSASSA is supported for signatures") ;; exit
    else
      let sig := rsassa_sig (signature ctx) in
      emit Call_hexdump ;;
      (* Verify the signature matches message digest *)
      let opensslHash :=
        tpm2_openssl_halgid_from_tpmhalg (rsassa_hash (signature ctx)) in
      let verified :=
        RSA_verify opensslHash (buffer (msgHash ctx)) (size (msgHash ctx))
          (buffer sig) (size sig) pubKey in
      emit (Call_RSA_verify verified) ;;
      if verified =? 0
      then
        emit (LOG_ERR
                "Error validating signed message with public key provided") ;;
        exit
      else
        (* Ensure nonce is the same as given *)
        (if flag_extra (flags ctx)
         then
           emit Cmp_nonce_size ;;
           if negb (size (quoteExtraData ctx) =? size (extraData ctx))
           then emit (LOG_ERR "Error validating nonce from quote") ;; exit
           else
             emit Call_memcmp ;;
             if negb (memcmp (buffer (quoteExtraData ctx))
                        (buffer (extraData ctx))
                        (Z.to_nat (size (extraData ctx))) =? 0)
             then emit (LOG_ERR "Error validating nonce from quote") ;; exit
             else ret tt
         else ret tt) ;;
        (* Also ensure digest from quote matches PCR digest *)
        (if flag_pcr (flags ctx)
         then
           emit Call_verify_digests ;;
           if negb (tpm2_util_verify_digests (quoteHash ctx) (pcrHash ctx))
           then
             emit (LOG_ERR
               "Error validating PCR composite against signed message") ;;
             exit
           else ret tt
         else ret tt)
  end.

(** [verify_signature()]: the returned boolean and what was done. *)
Definition verify_signature : bool * list call :=
  (* Read in the AKpub they provided as an RSA object *)
  let t0 := [Call_fopen (pubkey_file_path ctx)] in
  match fopen (pubkey_file_path ctx) with
  | None =>
    (false, t0 ++ [LOG_ERR "Could not open RSA pubkey input file"])
  | Some pubkey_input =>
    let (r, t) := verify_signature_checks pubkey_input t0 in
    let result := match r with Some _ => true | None => false end in
    (* err: *)
    (result, t ++ [Call_fclose; Call_RSA_free])
  end.

End Collaborators.

End CheckQuote.

(** ** Notions used in the statements *)

Import Decoder.

(** The size is a [UINT16] and the cursor is in the range where the 32-bit
    additions of the decoder do not wrap; every cursor the decoder reaches
    is in this range. *)
Definition cursor_ok (q : TPM2B_ATTEST) (s : state) : Prop :=
  0 <= size q <= UINT16_MAX /\ 0 <= i s <= 70000.

(** A copy that stays inside the declared size of the blob. *)
Definition in_bounds (q : TPM2B_ATTEST) (ev : event) : Prop :=
  match ev with
  | Memcpy _ off len => 0 <= off /\ 0 <= len /\ off + len <= size q
  end.

(** The fixed-width headers read after the magic and the type. *)
Definition is_header (dst : dest) : bool :=
  match dst with
  | DnameSize | DextraData_size | DpcrSelCount | DhashAlg | Dsos
  | Ddigest_size => true
  | _ => false
  end.

(** The two copies whose length is declared in the blob. *)
Definition is_payload (dst : dest) : bool :=
  match dst with
  | DextraData_buffer | Ddigest_buffer => true
  | _ => false
  end.

(** A copy inside the declared size, and strictly inside it (at least one
    byte left after the copy) when it reads a header. *)
Definition event_ok (q : TPM2B_ATTEST) (ev : event) : Prop :=
  match ev with
  | Memcpy dst off len =>
    0 <= off /\ 0 <= len /\
    if is_header dst then off + len < size q else off + len <= size q
  end.

(** A blob cut after its first [n] bytes, in a buffer of exactly [n]
    bytes. *)
Definition truncate (n : Z) (q : TPM2B_ATTEST) : TPM2B_ATTEST :=
  mkTPM2B n (firstn (Z.to_nat n) (attestationData q)).

(** [q1] is no longer than [q2] and holds the same bytes as far as it goes. *)
Definition prefix_of (q1 q2 : TPM2B_ATTEST) : Prop :=
  size q1 <= size q2 /\
  forall off len, 0 <= off -> off + len <= size q1 ->
    load (attestationData q1) off len = load (attestationData q2) off len.

(** The two blobs have the same declared size and the same bytes below
    it; what their buffers hold from there on is free. *)
Definition same_bytes (q1 q2 : TPM2B_ATTEST) : Prop :=
  size q1 = size q2 /\
  forall k, (k < Z.to_nat (size q1))%nat ->
    nth k (attestationData q1) x00 = nth k (attestationData q2) x00.


(** Assertions on a computation of the decoder: from a state in [P], it
    goes on in a state in [Q] or has returned false in a state in [F]. *)
Definition triple (P : state -> Prop) (m : Decoder.M unit)
    (Q F : state -> Prop) : Prop :=
  forall s, P s ->
    match m s with
    | (Some _, s') => Q s'
    | (None, s') => F s'
    end.

(** Whenever [m1] goes on from a state in [P], [m2] goes on in the same
    way, and the state is in [Q]. *)
Definition follows (P : state -> Prop) (m1 m2 : Decoder.M unit)
    (Q : state -> Prop) : Prop :=
  forall s s', P s -> m1 s = (Some tt, s') -> m2 s = (Some tt, s') /\ Q s'.

(** The cursor has not wrapped. *)
Definition cursor (s : state) : Prop := 0 <= i s.

(** The cursor has not wrapped and every copy made so far was in
    bounds. *)
Definition events_ok (q : TPM2B_ATTEST) (s : state) : Prop :=
  0 <= i s /\ Forall (event_ok q) (trace s).




(** ** The order of the steps of [verify_signature] *)

(** The comparisons that follow the signature check. *)
Definition is_comparison (c : CheckQuote.call) : bool :=
  match c with
  | CheckQuote.Cmp_nonce_size | CheckQuote.Call_memcmp
  | CheckQuote.Call_verify_digests => true
  | _ => false
  end.

(** Every comparison of [t] comes after a call of [RSA_verify] that
    returned non-zero, or [verified] holds from the start. *)
Fixpoint comparisons_guarded (verified : bool) (t : list CheckQuote.call)
    : bool :=
  match t with
  | [] => true
  | CheckQuote.Call_RSA_verify v :: t' =>
    comparisons_guarded (verified || negb (v =? 0)) t'
  | c :: t' =>
    (negb (is_comparison c) || verified) && comparisons_guarded verified t'
  end.

(** ** Blobs of the scenarios *)

Module Scenario.

Definition bytes (l : list Z) : list BYTE := map byte_of_Z l.

Definition blob (data : list BYTE) : TPM2B_ATTEST :=
  mkTPM2B (Z.of_nat (length data)) data.

(** Scenario 1: magic, quote type, empty qualified name, the nonce
    [0xDEADBEEF], 17 bytes of clock info, 8 bytes of firmware version, no
    PCR selection, a digest of 32 bytes [0xAA]. *)
Definition quote1 : TPM2B_ATTEST :=
  blob (bytes ([0xFF; 0x54; 0x43; 0x47] ++ [0x80; 0x18] ++ [0; 0]
               ++ [0; 4] ++ [0xDE; 0xAD; 0xBE; 0xEF]
               ++ repeat 0 17 ++ repeat 0 8 ++ [0; 0; 0; 0]
               ++ [0; 32] ++ repeat 0xAA 32)).

(** Scenario 2: scenario 1 with the magic replaced by [0x00000000]. *)
Definition quote2 : TPM2B_ATTEST :=
  blob (bytes ([0; 0; 0; 0] ++ [0x80; 0x18] ++ [0; 0]
               ++ [0; 4] ++ [0xDE; 0xAD; 0xBE; 0xEF]
               ++ repeat 0 17 ++ repeat 0 8 ++ [0; 0; 0; 0]
               ++ [0; 32] ++ repeat 0xAA 32)).

(** A quote that declares 100 bytes of extra data and 100 bytes of
    digest. *)
Definition oversized : TPM2B_ATTEST :=
  blob (bytes ([0xFF; 0x54; 0x43; 0x47] ++ [0x80; 0x18] ++ [0; 0]
               ++ [0; 100] ++ repeat 0x11 100
               ++ repeat 0 17 ++ repeat 0 8 ++ [0; 0; 0; 0]
               ++ [0; 100] ++ repeat 0x22 100)).

(** The output structures as [tpm2_checkquote.c] initialises them
    ([TPM2B_TYPE_INIT] in a static structure): the size is the capacity of
    the buffer and the buffer is zero. *)
Definition quoteHash_init : TPM2B_DIGEST :=
  mkTPM2B sizeof_TPMU_HA (repeat x00 (Z.to_nat sizeof_TPMU_HA)).

Definition quoteExtraData_init : TPM2B_DATA :=
  mkTPM2B sizeof_TPMT_HA (repeat x00 (Z.to_nat sizeof_TPMT_HA)).

(** Two scheme identifiers, with the values that [TPM2_ALG_RSASSA] and
    [TPM2_ALG_ECDSA] have in the TSS2 headers. *)
Definition rsassa_id : Z := 0x14.
Definition ecdsa_id : Z := 0x18.

(** A context of [tpm2_checkquote.c] after a successful [init] with a nonce
    and a PCR file given, holding a signature of scheme [scheme]. *)
Definition ctx_with_scheme (scheme : Z) : CheckQuote.tpm2_verifysig_ctx :=
  CheckQuote.mkCtx
    (CheckQuote.mkFlags true true true true true false 0)
    scheme 0x0B
    (mkTPM2B 32 (repeat x00 32))
    (mkTPM2B 32 (repeat xaa 32))
    (mkTPM2B 32 (repeat xaa 32))
    (mkTPM2B 4 [xde; xad; xbe; xef])
    (mkTPM2B 4 [xde; xad; xbe; xef])
    (CheckQuote.mkSignature scheme 0x0B (mkTPM2B 4 [x01; x02; x03; x04]))
    "ak.pub.pem".

End Scenario.

(** * Further code

    More of the repository, modelled in the same way:

    - [lib/tpm2_util.c]: [tpm2_util_pop_count], [tpm2_util_concat_buffer],
      [tpm2_util_hex_to_byte_structure] and [tpm2_util_hexdump2],
      [tpm2_util_string_to_uint8/16/32], [tpm2_util_handle_from_optarg]
      with [filter_handles] and [filter_hierarchy_handles],
      [tpm2_util_calc_unique] and [tpm2_util_get_label];
    - [lib/tpm2_util.h]: [tpm2_util_is_pcr_select_bit_set];
    - [tools/misc/tpm2_checkquote.c]: [on_option], [message_from_file],
      [init] and [tpm2_tool_onrun];
    - [tools/tpm2_clearcontrol.c]: [on_arg] and [tpm2_tool_onrun].

    What these functions call outside the sources at hand (the C library,
    OpenSSL, the TSS2 headers, other files of the tools) is a variable of
    the section that models them. *)

(** ** Population count: [tpm2_util_pop_count] *)

Definition bits_per_nibble : list Z :=
  [0; 1; 1; 2; 1; 2; 2; 3; 1; 2; 2; 3; 2; 3; 3; 4].

(** One round of the loop on the byte [d[i]]: two additions to the [UINT8]
    counter. *)
Definition pop_count_step (count : Z) (b : BYTE) : Z :=
  let count :=
    (count + nth (Z.to_nat (Z.land (Z_of_byte b) 0x0f)) bits_per_nibble 0)
      mod 256 in
  (count + nth (Z.to_nat (Z.shiftr (Z_of_byte b) 4)) bits_per_nibble 0)
    mod 256.

(** [tpm2_util_pop_count(data)]: the loop runs over the [sizeof(data)]
    bytes that the host holds for [data]. *)
Definition tpm2_util_pop_count (h : endianness) (data : Z) : Z :=
  let d := bytes_of_uint h 4 data in
  fold_left pop_count_step d 0.

(** The number of bits set among the [n] low bits of [x]. *)
Definition bits_set (n : nat) (x : Z) : Z :=
  Z.of_nat (length (filter (fun k => Z.testbit x (Z.of_nat k)) (seq 0 n))).

(** ** Appending to a buffer: [tpm2_util_concat_buffer] *)

(** [memcpy(&dst[off], src, n)], [src] being the [n] bytes copied. *)
Definition write_at (dst : list BYTE) (off : Z) (src : list BYTE)
    : list BYTE :=
  firstn (Z.to_nat off) dst ++ src
    ++ skipn (Z.to_nat off + length src) dst.

(** The bytes that a [TPM2B] holds: the first [size] bytes of its buffer. *)
Definition content (b : TPM2B) : list BYTE :=
  firstn (Z.to_nat (size b)) (buffer b).

(** A [TPM2B] whose size is a [UINT16] and whose buffer holds at least
    [size] bytes. *)
Definition well_sized (b : TPM2B) : Prop :=
  0 <= size b <= UINT16_MAX /\ size b <= Z.of_nat (length (buffer b)).

Section ConcatBuffer.

(** The constant [TPM2_MAX_DIGEST_BUFFER] of the TSS2 headers, which is
    also the capacity of the buffer of a [TPM2B_MAX_BUFFER]. *)
Variable TPM2_MAX_DIGEST_BUFFER : Z.

(** [tpm2_util_concat_buffer(result, append)]: the returned boolean and
    [*result] afterwards; a null pointer is [None].  The two sizes are
    [UINT16], so that their sum is computed on [int] and does not wrap;
    the sum stored back into [result->size] is cut to 16 bits. *)
Definition tpm2_util_concat_buffer (result : option TPM2B)
    (append : option TPM2B) : bool * option TPM2B :=
  match result, append with
  | Some r, Some a =>
    if size r + size a <? size r then (false, result)
    else if size r + size a >? TPM2_MAX_DIGEST_BUFFER then (false, result)
    else
      (true,
       Some (mkTPM2B ((size r + size a) mod 65536)
               (write_at (buffer r) (size r)
                  (load (buffer a) 0 (size a)))))
  | _, _ => (false, result)
  end.

End ConcatBuffer.

(** ** Hexadecimal strings: [tpm2_util_hex_to_byte_structure] and
    [tpm2_util_hexdump2] *)

Module Hex.

(** A C string is the list of its characters before the terminating NUL. *)
Definition cstring := list Ascii.ascii.

(** [isxdigit] of the C library, in the C locale. *)
Definition isxdigit (c : Ascii.ascii) : bool :=
  let n := Ascii.nat_of_ascii c in
  ((48 <=? n) && (n <=? 57) || (65 <=? n) && (n <=? 70)
   || (97 <=? n) && (n <=? 102))%nat.

(** The value of a hexadecimal digit. *)
Definition hex_value (c : Ascii.ascii) : Z :=
  let n := Ascii.nat_of_ascii c in
  if ((48 <=? n) && (n <=? 57))%nat then Z.of_nat n - 48
  else if ((65 <=? n) && (n <=? 70))%nat then Z.of_nat n - 55
  else if ((97 <=? n) && (n <=? 102))%nat then Z.of_nat n - 87
  else 0.

(** [strtol(s, NULL, 16)] of the C library on a string that starts with
    hexadecimal digits: the value of its longest prefix of digits, from
    the accumulator [acc].  (White space, a sign or a [0x] prefix, which
    [strtol] would skip, do not start with such a digit, and two digits
    do not overflow.) *)
Fixpoint strtol16 (acc : Z) (s : cstring) : Z :=
  match s with
  | [] => acc
  | c :: s' => if isxdigit c then strtol16 (16 * acc + hex_value c) s'
               else acc
  end.

(** [tolower] of the C library, in the C locale. *)
Definition tolower (c : Ascii.ascii) : Ascii.ascii :=
  let n := Ascii.nat_of_ascii c in
  if ((65 <=? n) && (n <=? 90))%nat then Ascii.ascii_of_nat (n + 32) else c.

Definition hex_digits : cstring :=
  list_ascii_of_string "0123456789abcdef".

(** What [fprintf(f, "%02x", b)] writes for a byte [b]. *)
Definition fprintf_02x (b : BYTE) : cstring :=
  [nth (Z.to_nat (Z_of_byte b / 16)) hex_digits Ascii.zero;
   nth (Z.to_nat (Z_of_byte b mod 16)) hex_digits Ascii.zero].

(** [for (i = ...; i < len; i++) fprintf(f, "%02x", data[i]);] with [n]
    rounds left; [f] is what the stream holds. *)
Fixpoint hexdump2_loop (f : cstring) (data : list BYTE) (i n : nat)
    : cstring :=
  match n with
  | O => f
  | S n' => hexdump2_loop (f ++ fprintf_02x (nth i data x00)) data (S i) n'
  end.

(** [tpm2_util_hexdump2(f, data, len)]: what the stream holds afterwards. *)
Definition tpm2_util_hexdump2 (f : cstring) (data : list BYTE) (len : nat)
    : cstring :=
  hexdump2_loop f data 0 len.

(** The first loop of [tpm2_util_hex_to_byte_structure], [n] rounds left:
    false when it has executed [return -3]. *)
Fixpoint all_xdigits (inStr : cstring) (i n : nat) : bool :=
  match n with
  | O => true
  | S n' =>
    if negb (isxdigit (nth i inStr Ascii.zero)) then false
    else all_xdigits inStr (S i) n'
  end.

(** [byteBuffer[i] = v] *)
Definition store (byteBuffer : list BYTE) (i : nat) (v : BYTE) : list BYTE :=
  firstn i byteBuffer ++ [v] ++ skipn (S i) byteBuffer.

(** The second loop, [n] rounds left. *)
Fixpoint convert (inStr : cstring) (byteBuffer : list BYTE) (i n : nat)
    : list BYTE :=
  match n with
  | O => byteBuffer
  | S n' =>
    let tmpStr :=
      [nth (i * 2) inStr Ascii.zero; nth (i * 2 + 1) inStr Ascii.zero] in
    convert inStr (store byteBuffer i (byte_of_Z (strtol16 0 tmpStr)))
      (S i) n'
  end.

(** [tpm2_util_hex_to_byte_structure(inStr, byteLength, byteBuffer)]: the
    returned code, [*byteLength] and the buffer afterwards; a null pointer
    is [None]. *)
Definition tpm2_util_hex_to_byte_structure (inStr : option cstring)
    (byteLength : option Z) (byteBuffer : option (list BYTE))
    : Z * option Z * option (list BYTE) :=
  match inStr, byteLength, byteBuffer with
  | Some s, Some len, Some buf =>
    let strLength := Z.of_nat (length s) in
    if negb (strLength mod 2 =? 0) then (-2, byteLength, byteBuffer)
    else if negb (all_xdigits s 0 (Z.to_nat strLength))
    then (-3, byteLength, byteBuffer)
    else if len <? strLength / 2 then (-4, byteLength, byteBuffer)
    else
      let len' := (strLength / 2) mod 65536 in
      (0, Some len', Some (convert s buf 0 (Z.to_nat len')))
  | _, _, _ => (-1, byteLength, byteBuffer)
  end.

(** The byte that two hexadecimal digits stand for. *)
Definition byte_of_digits (c1 c2 : Ascii.ascii) : BYTE :=
  byte_of_Z (16 * hex_value c1 + hex_value c2).

(** The bytes that a string of hexadecimal digits stands for. *)
Fixpoint bytes_of_hex (s : cstring) : list BYTE :=
  match s with
  | c1 :: c2 :: s' => byte_of_digits c1 c2 :: bytes_of_hex s'
  | _ => []
  end.

End Hex.

(** ** Numbers on the command line: [tpm2_util_string_to_uint8/16/32] *)

Definition UINT8_MAX : Z := 255.
Definition UINT32_MAX : Z := 4294967295.

Section StringToUint.

(** [strtoul(str, &endptr, base)] of the C library: the [unsigned long]
    returned, what [endptr] points to afterwards, and [errno]. *)
Variable strtoul : Hex.cstring -> Z -> N * Hex.cstring * Z.

(** The three conversions return [Some value] when they return true and
    have stored [value]; a null [str] is [None]. *)
Definition tpm2_util_string_to_uint32 (str : option Hex.cstring)
    : option Z :=
  match str with
  | None => None
  | Some [] => None
  | Some s =>
    (* clear errno before the call, should be 0 afterwards *)
    let '(tmp, endptr, errno) := strtoul s 0 in
    if negb (errno =? 0) || (Z.of_N tmp >? UINT32_MAX) then None
    else
      match endptr with
      | [] => Some (Z.of_N tmp mod UINT32_MOD)
      | _ :: _ => None
      end
  end.

Definition tpm2_util_string_to_uint16 (str : option Hex.cstring)
    : option Z :=
  match tpm2_util_string_to_uint32 str with
  | None => None
  | Some tmp =>
    (* overflow on 16 bits? *)
    if tmp >? UINT16_MAX then None else Some (tmp mod 65536)
  end.

Definition tpm2_util_string_to_uint8 (str : option Hex.cstring)
    : option Z :=
  match tpm2_util_string_to_uint32 str with
  | None => None
  | Some tmp =>
    (* overflow on 8 bits? *)
    if tmp >? UINT8_MAX then None else Some (tmp mod 256)
  end.

(** ** The argument of [tpm2_clearcontrol]: [on_arg] *)

(** [strcmp(a, b) == 0] *)
Definition streq (a b : Hex.cstring) : bool :=
  if list_eq_dec Ascii.ascii_dec a b then true else false.

(** [on_arg(argc, argv)] of [tools/tpm2_clearcontrol.c], [argc] being the
    length of [argv]: the returned boolean and [ctx.disable_clear]
    afterwards. *)
Definition clearcontrol_on_arg (argv : list Hex.cstring)
    (disable_clear : Z) : bool * Z :=
  let argc := Z.of_nat (length argv) in
  if argc >? 1 then (false, disable_clear)
  else if argc =? 0 then (false, disable_clear)
  else
    let arg := nth 0 argv [] in
    if streq arg (list_ascii_of_string "s") then (true, 1)
    else if streq arg (list_ascii_of_string "c") then (true, 0)
    else
      match tpm2_util_string_to_uint32 (Some arg) with
      | None => (false, disable_clear)
      | Some value =>
        if negb (value =? 0) && negb (value =? 1)
        then (false, disable_clear)
        else (true, value mod 256)
      end.

End StringToUint.

(** ** The layout of a quote *)

(** Where the PCR selections that start at [off] end, if there are [n] of
    them: each is a hash identifier of 2 bytes, a size of 1 byte and that
    many bytes. *)
Fixpoint skip_selections (q : TPM2B_ATTEST) (n : nat) (off : Z) : Z :=
  match n with
  | O => off
  | S n' => skip_selections q n' (off + 2 + 1 + Reference.field q (off + 2) 1)
  end.

(** The fields that the decoder reads on its way to the digest: the size
    of the qualified name, the size of the extra data, the number of PCR
    selections, the offset of the digest's size and the size of the
    digest. *)
Definition name_size (q : TPM2B_ATTEST) : Z := Reference.field q 6 2.

Definition extra_offset (q : TPM2B_ATTEST) : Z := 6 + 2 + name_size q.

Definition extra_size (q : TPM2B_ATTEST) : Z :=
  Reference.field q (extra_offset q) 2.

Definition count_offset (q : TPM2B_ATTEST) : Z :=
  extra_offset q + 2 + extra_size q + 17 + 8.

Definition selection_count (q : TPM2B_ATTEST) : Z :=
  Reference.field q (count_offset q) 4.

Definition digest_offset (q : TPM2B_ATTEST) : Z :=
  skip_selections q (Z.to_nat (selection_count q)) (count_offset q + 4).

Definition digest_size (q : TPM2B_ATTEST) : Z :=
  Reference.field q (digest_offset q) 2.

(** The outputs and the messages of [s'] are those of [s]. *)
Definition same_outputs (s s' : Decoder.state) : Prop :=
  Decoder.digest s' = Decoder.digest s /\
  Decoder.extraData s' = Decoder.extraData s /\
  Decoder.log s' = Decoder.log s.

(** The smallest blob that decodes: empty name and nonce, no PCR
    selection, a digest of one byte. *)
Definition smallest_quote : TPM2B_ATTEST :=
  Scenario.blob
    (Scenario.bytes ([0xFF; 0x54; 0x43; 0x47] ++ [0x80; 0x18] ++ [0; 0]
                     ++ [0; 0] ++ repeat 0 17 ++ repeat 0 8 ++ [0; 0; 0; 0]
                     ++ [0; 1] ++ [0xAA])).

(** ** Quotes as the decoder reads them *)




(** ** What [verify_signature] leaves behind *)





(** ** Handles on the command line: [tpm2_util_handle_from_optarg] *)

(** [strlen] and [strncmp] of the C library, on strings given by their
    characters before the terminating NUL. *)
Definition strlen (s : Hex.cstring) : nat := length s.

Definition char_code (c : Ascii.ascii) : Z := Z.of_nat (Ascii.nat_of_ascii c).

Fixpoint strncmp (s1 s2 : Hex.cstring) (n : nat) : Z :=
  match n with
  | O => 0
  | S n' =>
    match s1, s2 with
    | [], [] => 0
    | [], c2 :: _ => 0 - char_code c2
    | c1 :: _, [] => char_code c1
    | c1 :: t1, c2 :: t2 =>
      if Ascii.eqb c1 c2 then strncmp t1 t2 n'
      else char_code c1 - char_code c2
    end
  end.

(** A C string holds no NUL before its end. *)
Definition no_nul (s : Hex.cstring) : Prop :=
  Forall (fun c => c <> Ascii.zero) s.

(** [s] is the beginning of [t]. *)
Definition is_prefix (s t : Hex.cstring) : Prop := exists r, t = s ++ r.

Module Handles.

(** [enum tpm2_handle_flags] of [lib/tpm2_util.h]. *)
Definition TPM2_HANDLE_FLAGS_NONE : Z := 0.
Definition TPM2_HANDLE_FLAGS_O : Z := Z.shiftl 1 0.
Definition TPM2_HANDLE_FLAGS_P : Z := Z.shiftl 1 1.
Definition TPM2_HANDLE_FLAGS_E : Z := Z.shiftl 1 2.
Definition TPM2_HANDLE_FLAGS_N : Z := Z.shiftl 1 3.
Definition TPM2_HANDLE_FLAGS_L : Z := Z.shiftl 1 4.
Definition TPM2_HANDLE_FLAGS_ALL_HIERACHIES : Z := 0x1F.
Definition TPM2_HANDLES_FLAGS_TRANSIENT : Z := Z.shiftl 1 5.
Definition TPM2_HANDLES_FLAGS_PERSISTENT : Z := Z.shiftl 1 6.
Definition TPM2_HANDLE_FLAGS_NV : Z := Z.shiftl 1 7.
Definition TPM2_HANDLE_ALL_W_NV : Z := 0xFF.
Definition TPM2_HANDLE_FLAGS_PCR : Z := Z.shiftl 1 8.
Definition TPM2_HANDLE_ALL_W_PCR : Z := 0x17F.

(** [flags & f], as a condition. *)
Definition has (flags f : Z) : bool := negb (Z.land flags f =? 0).

Section TSS.

(** The handle constants of the TSS2 headers. *)
Variables TPM2_RH_OWNER TPM2_RH_PLATFORM TPM2_RH_ENDORSEMENT TPM2_RH_NULL
  TPM2_RH_LOCKOUT : Z.
Variables TPM2_HR_RANGE_MASK TPM2_HR_NV_INDEX TPM2_HR_PCR TPM2_HR_TRANSIENT
  TPM2_HR_PERMANENT TPM2_HR_PERSISTENT : Z.
Variables TPM2_NV_INDEX_FIRST TPM2_NV_INDEX_LAST TPM2_PCR_LAST
  TPM2_PERSISTENT_FIRST TPM2_PERSISTENT_LAST : Z.

Variable strtoul : Hex.cstring -> Z -> N * Hex.cstring * Z.

(** [filter_hierarchy_handles(hierarchy, flags)]; the messages are left
    out. *)
Definition filter_hierarchy_handles (hierarchy flags : Z) : bool :=
  if hierarchy =? TPM2_RH_OWNER then has flags TPM2_HANDLE_FLAGS_O
  else if hierarchy =? TPM2_RH_PLATFORM then has flags TPM2_HANDLE_FLAGS_P
  else if hierarchy =? TPM2_RH_ENDORSEMENT
  then has flags TPM2_HANDLE_FLAGS_E
  else if hierarchy =? TPM2_RH_NULL then has flags TPM2_HANDLE_FLAGS_N
  else if hierarchy =? TPM2_RH_LOCKOUT then has flags TPM2_HANDLE_FLAGS_L
  else
    (* If specified a random offset to the permanent handle range *)
    (flags =? TPM2_HANDLE_ALL_W_NV) || (flags =? TPM2_HANDLE_FLAGS_NONE).

(** The checks of [filter_handles] once the range is fixed up. *)
Definition check_range (hierarchy range flags : Z) : bool :=
  if range =? TPM2_HR_NV_INDEX then
    if negb (has flags TPM2_HANDLE_FLAGS_NV) then false
    else if (hierarchy <? TPM2_NV_INDEX_FIRST)
            || (hierarchy >? TPM2_NV_INDEX_LAST) then false
    else true
  else if range =? TPM2_HR_PCR then
    if negb (has flags TPM2_HANDLE_FLAGS_PCR) then false
    else if hierarchy >? TPM2_PCR_LAST then false
    else true
  else if range =? TPM2_HR_TRANSIENT then
    if negb (has flags TPM2_HANDLES_FLAGS_TRANSIENT) then false else true
  else if range =? TPM2_HR_PERMANENT then
    filter_hierarchy_handles hierarchy flags
  else if range =? TPM2_HR_PERSISTENT then
    if negb (has flags TPM2_HANDLES_FLAGS_PERSISTENT) then false
    else if (hierarchy <? TPM2_PERSISTENT_FIRST)
            || (hierarchy >? TPM2_PERSISTENT_LAST) then false
    else true
  else
    (* else its a session flag and shouldn't use this interface *)
    false.

(** [filter_handles(&hierarchy, flags)]: the returned boolean and
    [*hierarchy] afterwards, a [UINT32]. *)
Definition filter_handles (hierarchy flags : Z) : bool * Z :=
  let range := Z.land hierarchy TPM2_HR_RANGE_MASK in
  (* if their is no range, then it could be NV or PCR *)
  if range =? 0 then
    if has flags TPM2_HANDLE_FLAGS_NV then
      let hierarchy := add32 hierarchy TPM2_HR_NV_INDEX in
      let range := Z.land hierarchy TPM2_HR_RANGE_MASK in
      (check_range hierarchy range flags, hierarchy)
    else if has flags TPM2_HANDLE_FLAGS_PCR then
      let hierarchy := add32 hierarchy TPM2_HR_PCR in
      let range := Z.land hierarchy TPM2_HR_RANGE_MASK in
      (check_range hierarchy range flags, hierarchy)
    else (false, hierarchy)
  else (check_range hierarchy range flags, hierarchy).

(** [!strncmp(value, name, strlen(value))] *)
Definition abbreviates (value : Hex.cstring) (name : string) : bool :=
  strncmp value (list_ascii_of_string name) (strlen value) =? 0.

(** The hierarchy that the name in [value] stands for, 0 if none: the
    five assignments of [tpm2_util_handle_from_optarg], a later one
    replacing an earlier one. *)
Definition hierarchy_of_name (value : Hex.cstring) : Z :=
  let hierarchy := 0 in
  let hierarchy :=
    if abbreviates value "owner" then TPM2_RH_OWNER else hierarchy in
  let hierarchy :=
    if abbreviates value "platform" then TPM2_RH_PLATFORM else hierarchy in
  let hierarchy :=
    if abbreviates value "endorsement" then TPM2_RH_ENDORSEMENT
    else hierarchy in
  let hierarchy :=
    if abbreviates value "null" then TPM2_RH_NULL else hierarchy in
  let hierarchy :=
    if abbreviates value "lockout" then TPM2_RH_LOCKOUT else hierarchy in
  hierarchy.

(** [tpm2_util_handle_from_optarg(value, &hierarchy, flags)]: the returned
    boolean and [*hierarchy] afterwards, [hierarchy0] being what it held
    before; a null [value] is [None].  The messages are left out. *)
Definition tpm2_util_handle_from_optarg (value : option Hex.cstring)
    (hierarchy0 : Z) (flags : Z) : bool * Z :=
  match value with
  | None => (false, hierarchy0)
  | Some [] => (false, hierarchy0)
  | Some v =>
    if has flags TPM2_HANDLE_FLAGS_NV && has flags TPM2_HANDLE_FLAGS_PCR
    then (false, hierarchy0)
    else
      let hierarchy := hierarchy_of_name v in
      let (result, hierarchy) :=
        if hierarchy =? 0 then
          (* hierarchy is specified as a hex handle *)
          match tpm2_util_string_to_uint32 strtoul (Some v) with
          | Some n => (true, n)
          | None => (false, hierarchy)
          end
        else (true, hierarchy) in
      if negb result then (false, hierarchy)
      else
        (* the expected valid hierarchies are additionally filtered here *)
        filter_handles hierarchy flags
  end.

End TSS.

(** The values of the handle constants in the TSS2 headers satisfy what
    the switch of [filter_hierarchy_handles] and the chain of
    [filter_handles] need: the five hierarchies are distinct, not zero and
    in the permanent range, and the permanent range is none of the ranges
    tested before it. *)
Definition hierarchies_permanent
    (owner platform endorsement null lockout mask nv pcr transient
     permanent : Z) : Prop :=
  NoDup [owner; platform; endorsement; null; lockout] /\
  Forall (fun rh => rh <> 0 /\ Z.land rh mask = permanent)
    [owner; platform; endorsement; null; lockout] /\
  permanent <> 0 /\ permanent <> nv /\ permanent <> pcr /\
  permanent <> transient.

(** The constants with the values that they have in the TSS2 headers. *)
Module TSS2.

Definition TPM2_RH_OWNER : Z := 0x40000001.
Definition TPM2_RH_PLATFORM : Z := 0x4000000C.
Definition TPM2_RH_ENDORSEMENT : Z := 0x4000000B.
Definition TPM2_RH_NULL : Z := 0x40000007.
Definition TPM2_RH_LOCKOUT : Z := 0x4000000A.
Definition TPM2_HR_RANGE_MASK : Z := 0xFF000000.
Definition TPM2_HR_PCR : Z := 0x00000000.
Definition TPM2_HR_NV_INDEX : Z := 0x01000000.
Definition TPM2_HR_TRANSIENT : Z := 0x80000000.
Definition TPM2_HR_PERSISTENT : Z := 0x81000000.
Definition TPM2_HR_PERMANENT : Z := 0x40000000.
Definition TPM2_NV_INDEX_FIRST : Z := 0x01000000.
Definition TPM2_NV_INDEX_LAST : Z := 0x01FFFFFF.
Definition TPM2_PCR_LAST : Z := 0x1F.
Definition TPM2_PERSISTENT_FIRST : Z := 0x81000000.
Definition TPM2_PERSISTENT_LAST : Z := 0x81FFFFFF.

Definition hierarchy_of_name : Hex.cstring -> Z :=
  Handles.hierarchy_of_name TPM2_RH_OWNER TPM2_RH_PLATFORM
    TPM2_RH_ENDORSEMENT TPM2_RH_NULL TPM2_RH_LOCKOUT.

Definition tpm2_util_handle_from_optarg
    (strtoul : Hex.cstring -> Z -> N * Hex.cstring * Z)
    : option Hex.cstring -> Z -> Z -> bool * Z :=
  Handles.tpm2_util_handle_from_optarg TPM2_RH_OWNER TPM2_RH_PLATFORM
    TPM2_RH_ENDORSEMENT TPM2_RH_NULL TPM2_RH_LOCKOUT TPM2_HR_RANGE_MASK
    TPM2_HR_NV_INDEX TPM2_HR_PCR TPM2_HR_TRANSIENT TPM2_HR_PERMANENT
    TPM2_HR_PERSISTENT TPM2_NV_INDEX_FIRST TPM2_NV_INDEX_LAST TPM2_PCR_LAST
    TPM2_PERSISTENT_FIRST TPM2_PERSISTENT_LAST strtoul.

End TSS2.

End Handles.

(** ** The tool: [on_option], [init] and [tpm2_tool_onrun] of
    [tpm2_checkquote.c] *)

Module CheckQuoteTool.

Import Stdlib.Strings.Ascii.
Import CheckQuote.

Inductive tool_rc :=
| tool_rc_success
| tool_rc_general_error
| tool_rc_option_error.

(** [enum tpm2_alg_util_flags] of [lib/tpm2_alg_util.h], the two values
    used here. *)
Definition tpm2_alg_util_flags_hash : Z := Z.shiftl 1 0.
Definition tpm2_alg_util_flags_sig : Z := Z.shiftl 1 6.

(** The static [ctx]: the part that [verify_signature] reads, whether
    [pubkey_file_path] has been set, and the other paths, null until an
    option sets them. *)
Record tool_ctx := mkTool {
  verifysig : tpm2_verifysig_ctx;
  pubkey_given : bool;
  msg_file_path : option string;
  sig_file_path : option string;
  pcr_file_path : option string
}.

Definition set_flags (f : verifysig_flags) (c : tpm2_verifysig_ctx)
    : tpm2_verifysig_ctx :=
  mkCtx f (format c) (halg c) (msgHash c) (pcrHash c) (quoteHash c)
    (quoteExtraData c) (extraData c) (signature c) (pubkey_file_path c).

Definition set_format (v : Z) (c : tpm2_verifysig_ctx)
    : tpm2_verifysig_ctx :=
  mkCtx (flags c) v (halg c) (msgHash c) (pcrHash c) (quoteHash c)
    (quoteExtraData c) (extraData c) (signature c) (pubkey_file_path c).

Definition set_halg (v : Z) (c : tpm2_verifysig_ctx) : tpm2_verifysig_ctx :=
  mkCtx (flags c) (format c) v (msgHash c) (pcrHash c) (quoteHash c)
    (quoteExtraData c) (extraData c) (signature c) (pubkey_file_path c).

Definition set_msgHash (v : TPM2B_DIGEST) (c : tpm2_verifysig_ctx)
    : tpm2_verifysig_ctx :=
  mkCtx (flags c) (format c) (halg c) v (pcrHash c) (quoteHash c)
    (quoteExtraData c) (extraData c) (signature c) (pubkey_file_path c).

Definition set_pcrHash (v : TPM2B_DIGEST) (c : tpm2_verifysig_ctx)
    : tpm2_verifysig_ctx :=
  mkCtx (flags c) (format c) (halg c) (msgHash c) v (quoteHash c)
    (quoteExtraData c) (extraData c) (signature c) (pubkey_file_path c).

Definition set_quote (d : TPM2B_DIGEST) (e : TPM2B_DATA)
    (c : tpm2_verifysig_ctx) : tpm2_verifysig_ctx :=
  mkCtx (flags c) (format c) (halg c) (msgHash c) (pcrHash c) d e
    (extraData c) (signature c) (pubkey_file_path c).

Definition set_extraData (v : TPM2B_DATA) (c : tpm2_verifysig_ctx)
    : tpm2_verifysig_ctx :=
  mkCtx (flags c) (format c) (halg c) (msgHash c) (pcrHash c) (quoteHash c)
    (quoteExtraData c) v (signature c) (pubkey_file_path c).

Definition set_signature (v : TPMT_SIGNATURE) (c : tpm2_verifysig_ctx)
    : tpm2_verifysig_ctx :=
  mkCtx (flags c) (format c) (halg c) (msgHash c) (pcrHash c) (quoteHash c)
    (quoteExtraData c) (extraData c) v (pubkey_file_path c).

Definition set_pubkey_file_path (v : string) (c : tpm2_verifysig_ctx)
    : tpm2_verifysig_ctx :=
  mkCtx (flags c) (format c) (halg c) (msgHash c) (pcrHash c) (quoteHash c)
    (quoteExtraData c) (extraData c) (signature c) v.

Definition set_verifysig (v : tpm2_verifysig_ctx) (c : tool_ctx)
    : tool_ctx :=
  mkTool v (pubkey_given c) (msg_file_path c) (sig_file_path c)
    (pcr_file_path c).

(** [sizeof(ctx.extraData) - 2]: a [TPM2B_DATA] is its [UINT16] size and
    its buffer. *)
Definition extraData_capacity : Z := 2 + sizeof_TPMT_HA - 2.

Section OnOption.

Variable tpm2_alg_util_from_optarg : string -> Z -> Z.
Variable TPM2_ALG_ERROR : Z.

(** [on_option(key, value)]: the returned boolean and [ctx] afterwards. *)
Definition on_option (key : Ascii.ascii) (value : string) (c : tool_ctx)
    : bool * tool_ctx :=
  let v := verifysig c in
  let f := flags v in
  if Ascii.eqb key "u"%char then
    (true,
     mkTool (set_pubkey_file_path value v) true (msg_file_path c)
       (sig_file_path c) (pcr_file_path c))
  else if Ascii.eqb key "g"%char then
    let alg := tpm2_alg_util_from_optarg value tpm2_alg_util_flags_hash in
    let v := set_halg alg v in
    if alg =? TPM2_ALG_ERROR then (false, set_verifysig v c)
    else
      (true,
       set_verifysig
         (set_flags
            (mkFlags true (flag_msg f) (flag_sig f) (flag_pcr f)
               (flag_extra f) (flag_key_context f) (flag_fmt f)) v) c)
  else if Ascii.eqb key "m"%char then
    (true,
     mkTool
       (set_flags
          (mkFlags (flag_halg f) true (flag_sig f) (flag_pcr f)
             (flag_extra f) (flag_key_context f) (flag_fmt f)) v)
       (pubkey_given c) (Some value) (sig_file_path c) (pcr_file_path c))
  else if Ascii.eqb key "F"%char then
    let fmt := tpm2_alg_util_from_optarg value tpm2_alg_util_flags_sig in
    let v := set_format fmt v in
    if fmt =? TPM2_ALG_ERROR then (false, set_verifysig v c)
    else
      (true,
       set_verifysig
         (set_flags
            (mkFlags (flag_halg f) (flag_msg f) (flag_sig f) (flag_pcr f)
               (flag_extra f) (flag_key_context f) 1) v) c)
  else if Ascii.eqb key "q"%char then
    let '(code, byteLength, byteBuffer) :=
      Hex.tpm2_util_hex_to_byte_structure
        (Some (list_ascii_of_string value)) (Some extraData_capacity)
        (Some (buffer (extraData v))) in
    let v :=
      set_extraData
        (mkTPM2B
           (match byteLength with Some n => n | None => extraData_capacity
            end)
           (match byteBuffer with
            | Some b => b
            | None => buffer (extraData v)
            end)) v in
    if negb (code =? 0) then (false, set_verifysig v c)
    else
      (true,
       set_verifysig
         (set_flags
            (mkFlags (flag_halg f) (flag_msg f) (flag_sig f) (flag_pcr f)
               true (flag_key_context f) (flag_fmt f)) v) c)
  else if Ascii.eqb key "s"%char then
    (true,
     mkTool
       (set_flags
          (mkFlags (flag_halg f) (flag_msg f) true (flag_pcr f)
             (flag_extra f) (flag_key_context f) (flag_fmt f)) v)
       (pubkey_given c) (msg_file_path c) (Some value) (pcr_file_path c))
  else if Ascii.eqb key "f"%char then
    (true,
     mkTool
       (set_flags
          (mkFlags (flag_halg f) (flag_msg f) (flag_sig f) true
             (flag_extra f) (flag_key_context f) (flag_fmt f)) v)
       (pubkey_given c) (msg_file_path c) (sig_file_path c) (Some value))
  else
    (* no default *)
    (true, c).

End OnOption.

Section Run.

(** The byte order of the host, and the collaborators of [init] and
    [verify_signature] that are not in these sources.  One that writes
    through a pointer returns what the pointer holds afterwards, also when
    it fails.  [pcrs_from_file] is among them because its structures,
    [TPML_PCR_SELECTION] and [tpm2_pcrs], are defined elsewhere. *)
Variable h : endianness.
Variable files_get_file_size_path : option string -> option Z.
Variable sizeof_TPM2B_ATTEST : Z.
Variable calloc : Z -> Z -> bool.
Variable files_load_bytes_from_path :
  option string -> Z -> bool * list BYTE.
Variable tpm2_convert_sig_load :
  option string -> bool -> Z -> Z -> TPMT_SIGNATURE -> bool * TPMT_SIGNATURE.
Variables TPML_PCR_SELECTION tpm2_pcrs : Type.
Variable pcrs_from_file :
  option string -> option (TPML_PCR_SELECTION * tpm2_pcrs).
Variable tpm2_openssl_hash_pcr_banks :
  Z -> TPML_PCR_SELECTION -> tpm2_pcrs -> TPM2B_DIGEST
  -> bool * TPM2B_DIGEST.
Variable pcr_print_pcr_struct : TPML_PCR_SELECTION -> tpm2_pcrs -> bool.
Variable tpm2_openssl_hash_compute_data :
  Z -> list BYTE -> Z -> TPM2B_DIGEST -> bool * TPM2B_DIGEST.
Variable FILE : Type.
Variable RSA : Type.
Variable fopen : string -> option FILE.
Variable tpm2_openssl_get_public_RSA_from_pem : FILE -> string -> option RSA.
Variable tpm2_openssl_halgid_from_tpmhalg : Z -> Z.
Variable RSA_verify : Z -> list BYTE -> Z -> list BYTE -> Z -> RSA -> Z.
Variable TPM2_ALG_RSASSA : Z.

Definition is_null {A} (p : option A) : bool :=
  match p with None => true | Some _ => false end.

(** [message_from_file(msg_file_path)]: the message, or [None] for
    [NULL].  The size of the file is an [unsigned long]; [msg->size] is a
    [UINT16]. *)
Definition message_from_file (path : option string) : option TPM2B_ATTEST :=
  match files_get_file_size_path path with
  | None => None
  | Some size =>
    if size =? 0 then None
    else if negb (calloc 1 (sizeof_TPM2B_ATTEST + size)) then None
    else
      let msg_size := size mod 65536 in
      let tmp := msg_size in
      let (ok, data) := files_load_bytes_from_path path tmp in
      if negb ok then None else Some (mkTPM2B msg_size data)
  end.

(** [init()]: the code returned and [ctx] afterwards. *)
Definition init (c : tool_ctx) : tool_rc * tool_ctx :=
  let v := verifysig c in
  (* check flags for mismatches *)
  if negb (pubkey_given c && flag_sig (flags v) && flag_msg (flags v)
           && flag_halg (flags v))
  then (tool_rc_option_error, c)
  else
    let msg :=
      if flag_msg (flags v) then message_from_file (msg_file_path c)
      else None in
    if flag_msg (flags v) && is_null msg then (tool_rc_general_error, c)
    else
      let (sig_ok, v) :=
        if flag_sig (flags v) then
          let fmt_plain := negb (flag_fmt (flags v) =? 0) in
          let (res, sig) :=
            tpm2_convert_sig_load (sig_file_path c) fmt_plain (format v)
              (halg v) (signature v) in
          (res, set_signature sig v)
        else (true, v) in
      if negb sig_ok then (tool_rc_general_error, set_verifysig v c)
      else
        (* If no digest is specified, compute it *)
        if negb (flag_msg (flags v))
        then (tool_rc_general_error, set_verifysig v c)
        else
          let (pcr_ok, v) :=
            if flag_pcr (flags v) then
              match pcrs_from_file (pcr_file_path c) with
              | None => (false, v)
              | Some (pcrSel, pcrs) =>
                let (res, ph) :=
                  tpm2_openssl_hash_pcr_banks (halg v) pcrSel pcrs
                    (pcrHash v) in
                let v := set_pcrHash ph v in
                if negb res then (false, v)
                else if negb (pcr_print_pcr_struct pcrSel pcrs)
                then (false, v)
                else (true, v)
              end
            else (true, v) in
          if negb pcr_ok then (tool_rc_general_error, set_verifysig v c)
          else
            match msg with
            | None =>
              (* not reached: [msg] is set when [flags.msg] is *)
              (tool_rc_general_error, set_verifysig v c)
            | Some msg =>
              (* Figure out the extra data (nonce) from this message *)
              let (ok, s) :=
                Decoder.tpm2_util_get_digest_from_quote h msg (quoteHash v)
                  (quoteExtraData v) in
              let v := set_quote (Decoder.digest s) (Decoder.extraData s) v in
              if negb ok then (tool_rc_general_error, set_verifysig v c)
              else
                (* Figure out the digest for this message *)
                let (res, mh) :=
                  tpm2_openssl_hash_compute_data (halg v)
                    (attestationData msg) (size msg) (msgHash v) in
                let v := set_msgHash mh v in
                if negb res then (tool_rc_general_error, set_verifysig v c)
                else (tool_rc_success, set_verifysig v c)
            end.

(** [tpm2_tool_onrun(ectx, flags)] *)
Definition tpm2_tool_onrun (c : tool_ctx) : tool_rc :=
  (* initialize and process *)
  let (rc, c) := init c in
  match rc with
  | tool_rc_success =>
    let res :=
      fst (verify_signature FILE RSA fopen
             tpm2_openssl_get_public_RSA_from_pem
             tpm2_openssl_halgid_from_tpmhalg RSA_verify TPM2_ALG_RSASSA
             (verifysig c)) in
    if negb res then tool_rc_general_error else tool_rc_success
  | _ => rc
  end.

End Run.

End CheckQuoteTool.

(** A run of the tool on the quote of scenario 1, with collaborators that
    succeed. *)
Module ToolScenario.

Import CheckQuote CheckQuoteTool.

Definition ctx0 : tool_ctx :=
  mkTool
    (mkCtx (mkFlags true true true true true false 0) 0 0x0B
       (mkTPM2B sizeof_TPMU_HA (repeat x00 (Z.to_nat sizeof_TPMU_HA)))
       (mkTPM2B sizeof_TPMU_HA (repeat x00 (Z.to_nat sizeof_TPMU_HA)))
       Scenario.quoteHash_init Scenario.quoteExtraData_init
       (mkTPM2B 4 (Scenario.bytes [0xDE; 0xAD; 0xBE; 0xEF]
                   ++ repeat x00 62))
       (mkSignature 0 0 (mkTPM2B 0 []))
       "ak.pub.pem")
    true (Some "quote.msg"%string) (Some "quote.sig"%string)
    (Some "quote.pcrs"%string).

Definition onrun (c : tool_ctx) : tool_rc :=
  tpm2_tool_onrun LittleEndian
    (fun _ => Some (size Scenario.quote1)) 2 (fun _ _ => true)
    (fun _ _ => (true, attestationData Scenario.quote1))
    (fun _ _ _ _ _ =>
       (true,
        mkSignature Scenario.rsassa_id 0x0B
          (mkTPM2B 4 [x01; x02; x03; x04])))
    unit unit (fun _ => Some (tt, tt))
    (fun _ _ _ _ => (true, mkTPM2B 32 (repeat xaa 32)))
    (fun _ _ => true)
    (fun _ _ _ _ => (true, mkTPM2B 32 (repeat x00 32)))
    unit unit (fun _ => Some tt) (fun _ _ => Some tt) (fun a => a)
    (fun _ _ _ _ _ _ => 1) Scenario.rsassa_id c.

End ToolScenario.

(** ** The unique field of a public area: [tpm2_util_calc_unique] *)

Section CalcUnique.

(** The capacity of the buffer of a [TPM2B_MAX_BUFFER], the digesters of
    OpenSSL by hash algorithm (a digester maps the bytes it is given to
    the bytes of their hash) and the sizes of the hashes. *)
Variable TPM2_MAX_DIGEST_BUFFER : Z.
Variable tpm2_openssl_halg_to_digester : Z -> option (list BYTE -> list BYTE).
Variable tpm2_alg_util_get_hash_size : Z -> Z.

(** [tpm2_util_calc_unique(name_alg, key, seed, unique_data)]: the returned
    boolean, [*unique_data] afterwards, and the local [buf.buffer] when the
    function returns, which is longer than [TPM2_MAX_DIGEST_BUFFER] if the
    copies went past its end.  [buf.size] is a [UINT16]. *)
Definition tpm2_util_calc_unique (name_alg : Z) (key : TPM2B)
    (seed : TPM2B_DIGEST) (unique_data : TPM2B_DIGEST)
    : bool * TPM2B_DIGEST * list BYTE :=
  let buf_size := (size key + size seed) mod 65536 in
  let buf_buffer := repeat x00 (Z.to_nat TPM2_MAX_DIGEST_BUFFER) in
  if buf_size >? TPM2_MAX_DIGEST_BUFFER
  then (false, unique_data, buf_buffer)
  else
    let buf_buffer :=
      write_at buf_buffer 0 (load (buffer seed) 0 (size seed)) in
    let buf_buffer :=
      write_at buf_buffer (size seed) (load (buffer key) 0 (size key)) in
    match tpm2_openssl_halg_to_digester name_alg with
    | None => (false, unique_data, buf_buffer)
    | Some d =>
      (true,
       mkTPM2B (tpm2_alg_util_get_hash_size name_alg)
         (overwrite (d (load buf_buffer 0 buf_size)) (buffer unique_data)),
       buf_buffer)
    end.

End CalcUnique.

(** ** PCR selections: [tpm2_util_is_pcr_select_bit_set] *)


(** ** Labels: [tpm2_util_get_label] *)

(** The bytes of a C string. *)
Definition bytes_of_cstring (s : Hex.cstring) : list BYTE :=
  map (fun c => byte_of_Z (char_code c)) s.

Section GetLabel.

(** [fopen(value, "rb")], and what [fread(buffer, 1, n, f)] followed by
    [feof(f)] and [ferror(f)] give on a file just opened: the bytes read
    and the two indicators. *)
Variable FILE : Type.
Variable fopen : Hex.cstring -> option FILE.
Variable fread : FILE -> Z -> list BYTE * bool * bool.

(** [tpm2_util_get_label(value, label)]: the returned boolean and [*label]
    afterwards; a null [value] is [None].  [sizeof(label->buffer)] is the
    capacity of the buffer of a [TPM2B_DATA]. *)
Definition tpm2_util_get_label (value : option Hex.cstring)
    (label : TPM2B_DATA) : bool * TPM2B_DATA :=
  let sizeof_buffer := sizeof_TPMT_HA in
  match value with
  | None => (true, mkTPM2B 0 (buffer label))
  | Some value =>
    match fopen value with
    | Some f =>
      (* set size one smaller for NUL byte *)
      let size0 := sizeof_buffer - 1 in
      let '(data, feof, ferror) := fread f size0 in
      let buf := overwrite data (buffer label) in
      let cnt := Z.of_nat (length data) in
      if negb feof then (false, mkTPM2B size0 buf)
      else if ferror then (false, mkTPM2B size0 buf)
      else
        (* Set NUL byte and increment *)
        (true, mkTPM2B ((cnt + 1) mod 65536) (write_at buf cnt [x00]))
    | None =>
      let len := Z.of_nat (strlen value) in
      if len >? sizeof_buffer - 1 then (false, label)
      else
        let buf := write_at (buffer label) 0 (bytes_of_cstring value) in
        (* Set NUL byte and increment *)
        (true, mkTPM2B ((len + 1) mod 65536) (write_at buf len [x00]))
    end
  end.

End GetLabel.

(** ** The tool [tpm2_clearcontrol]: [tpm2_tool_onrun] *)

Section ClearControl.

(** The return codes are integers; [tpm2_util_object_load_auth] returns
    its code and the handle [object.tr_handle] that it has loaded;
    [tpm2_clearcontrol] sends the command. *)
Variables tool_rc_success tool_rc_general_error : Z.
Variable ESYS_TR_RH_LOCKOUT : Z.
Variable tpm2_util_object_load_auth : string -> option string -> Z * Z.
Variable tpm2_clearcontrol : Z -> Z -> Z.

(** [tpm2_tool_onrun(ectx, flags)] with the fields of [ctx] as given: the
    code returned, and the handle and the value of [disableClear] with
    which the command was sent, if it was. *)
Definition clearcontrol_onrun (ctx_path : string) (auth_str : option string)
    (disable_clear : Z) : Z * option (Z * Z) :=
  let (rc, tr_handle) := tpm2_util_object_load_auth ctx_path auth_str in
  if negb (rc =? tool_rc_success) then (rc, None)
  else if (disable_clear =? 0) && (tr_handle =? ESYS_TR_RH_LOCKOUT)
  then (tool_rc_general_error, None)
  else
    (tpm2_clearcontrol tr_handle disable_clear,
     Some (tr_handle, disable_clear)).

End ClearControl.

(** * Verification *)

(** ** Facts about bytes *)

Lemma Z_of_byte_range (b : BYTE) : 0 <= Z_of_byte b < 256.
Proof.
  unfold Z_of_byte. pose proof (Byte.to_N_bounded b). lia.
Qed.

Lemma byte_of_Z_of_byte (b : BYTE) : byte_of_Z (Z_of_byte b) = b.
Proof.
  unfold byte_of_Z, Z_of_byte.
  pose proof (Byte.to_N_bounded b).
  rewrite Z.mod_small by lia.
  rewrite N2Z.id, Byte.of_to_N. reflexivity.
Qed.

Lemma Z_of_byte_of_Z (z : Z) : Z_of_byte (byte_of_Z z) = z mod 256.
Proof.
  unfold byte_of_Z, Z_of_byte.
  pose proof (Z.mod_pos_bound z 256 ltac:(lia)) as Hr.
  destruct (Byte.of_N (Z.to_N (z mod 256))) as [b|] eqn:E.
  - apply Byte.to_of_N in E. rewrite E. lia.
  - apply Byte.of_N_None_iff in E. lia.
Qed.

Lemma le_bytes_length (n : nat) (v : Z) : length (le_bytes n v) = n.
Proof.
  revert v; induction n as [|n IH]; intros v; simpl; [reflexivity|].
  now rewrite IH.
Qed.

Lemma le_uint_range (bs : list BYTE) :
  0 <= le_uint bs < 256 ^ Z.of_nat (length bs).
Proof.
  induction bs as [|b bs IH].
  - simpl. lia.
  - cbn [le_uint length]. rewrite Nat2Z.inj_succ, Z.pow_succ_r by lia.
    pose proof (Z_of_byte_range b). lia.
Qed.

Lemma le_uint_le_bytes (n : nat) (v : Z) :
  le_uint (le_bytes n v) = v mod 256 ^ Z.of_nat n.
Proof.
  revert v; induction n as [|n IH]; intros v.
  - simpl. now rewrite Z.mod_1_r.
  - cbn [le_bytes le_uint]. rewrite IH, Z_of_byte_of_Z.
    rewrite Z.mod_mod by lia.
    rewrite Nat2Z.inj_succ, Z.pow_succ_r by lia.
    rewrite Z.rem_mul_r by lia. reflexivity.
Qed.

Lemma le_bytes_le_uint (bs : list BYTE) :
  le_bytes (length bs) (le_uint bs) = bs.
Proof.
  induction bs as [|b bs IH]; [reflexivity|].
  cbn [length le_bytes le_uint].
  pose proof (Z_of_byte_range b) as Hb.
  replace ((Z_of_byte b + 256 * le_uint bs) mod 256) with (Z_of_byte b)
    by (Z.div_mod_to_equations; lia).
  replace ((Z_of_byte b + 256 * le_uint bs) / 256) with (le_uint bs)
    by (Z.div_mod_to_equations; lia).
  now rewrite byte_of_Z_of_byte, IH.
Qed.

Lemma nth_map_seq {A} (f : nat -> A) (n k : nat) (d : A) :
  (k < n)%nat -> nth k (map f (seq 0 n)) d = f k.
Proof.
  intros Hk.
  rewrite (nth_indep _ d (f 0%nat)) by (rewrite length_map, length_seq; lia).
  rewrite (map_nth f (seq 0 n) 0%nat k), seq_nth by lia. reflexivity.
Qed.

(** The copy loop of the swap routines reverses the bytes. *)
Lemma map_nth_rev (l : list BYTE) :
  map (fun i => nth (length l - i - 1) l x00) (seq 0 (length l)) = rev l.
Proof.
  apply nth_ext with (d := x00) (d' := x00).
  - now rewrite length_map, length_seq, length_rev.
  - intros k Hk. rewrite length_map, length_seq in Hk.
    rewrite nth_map_seq by assumption.
    rewrite rev_nth by assumption.
    f_equal. lia.
Qed.

Lemma bytes_of_uint_length h n v : length (bytes_of_uint h n v) = n.
Proof.
  destruct h; simpl; rewrite ?length_rev; apply le_bytes_length.
Qed.

Lemma uint_of_bytes_of_uint h n v :
  0 <= v < 256 ^ Z.of_nat n -> uint_of_bytes h (bytes_of_uint h n v) = v.
Proof.
  intros Hv. destruct h; simpl; rewrite ?rev_involutive;
    rewrite le_uint_le_bytes; now apply Z.mod_small.
Qed.

Lemma bytes_of_uint_of_bytes h bs :
  bytes_of_uint h (length bs) (uint_of_bytes h bs) = bs.
Proof.
  destruct h; simpl.
  - apply le_bytes_le_uint.
  - rewrite <- (length_rev bs), le_bytes_le_uint. apply rev_involutive.
Qed.

Lemma uint_of_bytes_range h bs :
  0 <= uint_of_bytes h bs < 256 ^ Z.of_nat (length bs).
Proof.
  destruct h; simpl.
  - apply le_uint_range.
  - rewrite <- (length_rev bs). apply le_uint_range.
Qed.

(** The swap routine, on values: the bytes of the integer reversed. *)
Lemma endian_swap_rev sz h data :
  endian_swap sz h data = uint_of_bytes h (rev (bytes_of_uint h sz data)).
Proof.
  unfold endian_swap. cbv zeta. f_equal.
  pose proof (map_nth_rev (bytes_of_uint h sz data)) as H.
  now rewrite bytes_of_uint_length in H.
Qed.

Lemma endian_swap_range sz h data :
  0 <= endian_swap sz h data < 256 ^ Z.of_nat sz.
Proof.
  rewrite endian_swap_rev.
  pose proof (uint_of_bytes_range h (rev (bytes_of_uint h sz data))) as H.
  now rewrite length_rev, bytes_of_uint_length in H.
Qed.

Lemma endian_swap_involutive sz h data :
  0 <= data < 256 ^ Z.of_nat sz ->
  endian_swap sz h (endian_swap sz h data) = data.
Proof.
  intros Hd. rewrite (endian_swap_rev sz h (endian_swap _ _ _)).
  rewrite endian_swap_rev.
  pose proof (bytes_of_uint_of_bytes h (rev (bytes_of_uint h sz data))) as H.
  rewrite length_rev, bytes_of_uint_length in H.
  rewrite H, rev_involutive. now apply uint_of_bytes_of_uint.
Qed.

Lemma is_big_endian_spec h :
  tpm2_util_is_big_endian h = match h with BigEndian => true | _ => false end.
Proof. destruct h; reflexivity. Qed.

(** Reading a big-endian field: [memcpy] into an integer, then the swap when
    the host is little-endian. *)
Lemma memcpy_then_swap h bs :
  (if negb (tpm2_util_is_big_endian h)
   then endian_swap (length bs) h (uint_of_bytes h bs)
   else uint_of_bytes h bs) = be_uint bs.
Proof.
  rewrite is_big_endian_spec. destruct h; cbn [negb].
  - rewrite endian_swap_rev, bytes_of_uint_of_bytes. reflexivity.
  - reflexivity.
Qed.

Lemma be_uint_range bs : 0 <= be_uint bs < 256 ^ Z.of_nat (length bs).
Proof.
  unfold be_uint. rewrite <- (length_rev bs). apply le_uint_range.
Qed.

Lemma load_length data off len :
  length (load data off len) = Z.to_nat len.
Proof. unfold load. now rewrite length_map, length_seq. Qed.


(** ** The decoder of the C code computes the reference decoder *)

Lemma add32_small a b : 0 <= a + b < UINT32_MOD -> add32 a b = a + b.
Proof. intros H. unfold add32. now apply Z.mod_small. Qed.

Lemma field_range q off len :
  0 <= Reference.field q off len < 256 ^ Z.of_nat (Z.to_nat len).
Proof.
  unfold Reference.field.
  pose proof (be_uint_range (load (attestationData q) off len)) as H.
  now rewrite load_length in H.
Qed.

Lemma field_range16 q off : 0 <= Reference.field q off 2 <= 65535.
Proof.
  pose proof (field_range q off 2) as H.
  change (256 ^ Z.of_nat (Z.to_nat 2)) with 65536 in H. lia.
Qed.

Lemma field_range8 q off : 0 <= Reference.field q off 1 <= 255.
Proof.
  pose proof (field_range q off 1) as H.
  change (256 ^ Z.of_nat (Z.to_nat 1)) with 256 in H. lia.
Qed.

Lemma field_range32 q off : 0 <= Reference.field q off 4 <= 4294967295.
Proof.
  pose proof (field_range q off 4) as H.
  change (256 ^ Z.of_nat (Z.to_nat 4)) with 4294967296 in H. lia.
Qed.

(** What the decoder gets from a field on either host. *)
Lemma read_uint16 h q off :
  (if negb (tpm2_util_is_big_endian h)
   then tpm2_util_endian_swap_16 h
          (uint_of_bytes h (load (attestationData q) off 2))
   else uint_of_bytes h (load (attestationData q) off 2))
  = Reference.field q off 2.
Proof. exact (memcpy_then_swap h (load (attestationData q) off 2)). Qed.

Lemma read_uint32 h q off :
  (if negb (tpm2_util_is_big_endian h)
   then tpm2_util_endian_swap_32 h
          (uint_of_bytes h (load (attestationData q) off 4))
   else uint_of_bytes h (load (attestationData q) off 4))
  = Reference.field q off 4.
Proof. exact (memcpy_then_swap h (load (attestationData q) off 4)). Qed.

Lemma read_uint8 h q off :
  uint_of_bytes h (load (attestationData q) off 1) = Reference.field q off 1.
Proof. destruct h; reflexivity. Qed.

Ltac dec_simpl :=
  cbv beta iota zeta delta
    [bind ret get exit LOG_ERR_return_false incr_i memcpy_uint
     set_extraData_size set_digest_size memcpy_extraData_buffer
     memcpy_digest_buffer Reference.err Reference.skip];
  cbn [i digest extraData trace log size buffer].

Ltac no_wrap :=
  repeat match goal with
  | |- context [add32 ?a ?b] =>
    rewrite (add32_small a b) by (unfold UINT32_MOD, UINT16_MAX in *; lia)
  end.

Lemma qualified_signer_name_refines h q s :
  cursor_ok q s ->
  Decoder.qualified_signer_name h q s = Reference.qualified_signer_name q s.
Proof.
  intros [Hq Hi]. destruct s as [i0 dg ex tr lg]. cbn [i] in Hi.
  unfold Decoder.qualified_signer_name, Reference.qualified_signer_name.
  dec_simpl. no_wrap.
  destruct (i0 + 2 >=? size q); [reflexivity|].
  dec_simpl. rewrite read_uint16.
  pose proof (field_range16 q i0).
  no_wrap. reflexivity.
Qed.

Lemma extra_data_refines h q s :
  cursor_ok q s ->
  Decoder.extra_data h q s = Reference.extra_data q s.
Proof.
  intros [Hq Hi]. destruct s as [i0 dg ex tr lg]. cbn [i] in Hi.
  unfold Decoder.extra_data, Reference.extra_data.
  dec_simpl. no_wrap.
  destruct (i0 + 2 >=? size q); [reflexivity|].
  pose proof (field_range16 q i0).
  pose proof (read_uint16 h q i0) as R.
  destruct (negb (tpm2_util_is_big_endian h)); dec_simpl; rewrite R; no_wrap.
  all: destruct (Reference.field q i0 2 + (i0 + 2) >? size q) eqn:E;
    [reflexivity|]; dec_simpl; no_wrap; reflexivity.
Qed.

Lemma clock_info_refines q s :
  cursor_ok q s -> Decoder.clock_info q s = Reference.clock_info q s.
Proof.
  intros [Hq Hi]. destruct s as [i0 dg ex tr lg]. cbn [i] in Hi.
  unfold Decoder.clock_info, Reference.clock_info.
  dec_simpl. no_wrap. destruct (i0 + 17 >=? size q); reflexivity.
Qed.

Lemma firmware_info_refines q s :
  cursor_ok q s -> Decoder.firmware_info q s = Reference.firmware_info q s.
Proof.
  intros [Hq Hi]. destruct s as [i0 dg ex tr lg]. cbn [i] in Hi.
  unfold Decoder.firmware_info, Reference.firmware_info.
  dec_simpl. no_wrap. destruct (i0 + 8 >=? size q); reflexivity.
Qed.

Lemma pcr_select_loop_refines h q n : forall s,
  cursor_ok q s ->
  Decoder.pcr_select_loop h q n s = Reference.pcr_select_loop q n s.
Proof.
  induction n as [|n IH]; intros s [Hq Hi]; [reflexivity|].
  destruct s as [i0 dg ex tr lg]. cbn [i] in Hi.
  cbn [Decoder.pcr_select_loop Reference.pcr_select_loop].
  dec_simpl. no_wrap.
  destruct (i0 + 2 >=? size q) eqn:E1; [reflexivity|].
  dec_simpl. no_wrap.
  destruct (i0 + 2 + 1 >=? size q) eqn:E2; [reflexivity|].
  dec_simpl. rewrite read_uint8.
  pose proof (field_range8 q (i0 + 2)).
  no_wrap.
  destruct (i0 + 2 + 1 + Reference.field q (i0 + 2) 1 >=? size q) eqn:E3;
    [reflexivity|].
  apply IH. split; [exact Hq|]. cbn [i].
  unfold UINT16_MAX in *. lia.
Qed.

Lemma pcr_select_info_refines h q s :
  cursor_ok q s ->
  Decoder.pcr_select_info h q s = Reference.pcr_select_info q s.
Proof.
  intros [Hq Hi]. destruct s as [i0 dg ex tr lg]. cbn [i] in Hi.
  unfold Decoder.pcr_select_info, Reference.pcr_select_info.
  dec_simpl. no_wrap.
  destruct (i0 + 4 >=? size q) eqn:E1; [reflexivity|].
  dec_simpl. rewrite read_uint32. no_wrap.
  apply pcr_select_loop_refines. split; [exact Hq|]. cbn [i].
  unfold UINT16_MAX in *. lia.
Qed.

Lemma digest_field_refines h q s :
  cursor_ok q s ->
  Decoder.digest_field h q s = Reference.digest_field q s.
Proof.
  intros [Hq Hi]. destruct s as [i0 dg ex tr lg]. cbn [i] in Hi.
  unfold Decoder.digest_field, Reference.digest_field.
  dec_simpl. no_wrap.
  destruct (i0 + 2 >=? size q); [reflexivity|].
  pose proof (field_range16 q i0).
  pose proof (read_uint16 h q i0) as R.
  destruct (negb (tpm2_util_is_big_endian h)); dec_simpl; rewrite R; no_wrap.
  all: destruct (Reference.field q i0 2 + (i0 + 2) >? size q);
    reflexivity.
Qed.

Lemma bind_congr {A B} (m m' : ErrState.M state A)
    (k k' : A -> ErrState.M state B) s :
  m s = m' s ->
  (forall a s', m' s = (Some a, s') -> k a s' = k' a s') ->
  bind m k s = bind m' k' s.
Proof.
  intros Hm Hk. unfold bind. rewrite Hm.
  destruct (m' s) as [[a|] s']; [now apply Hk | reflexivity].
Qed.

(** How far a block of the reference decoder moves the cursor when it
    goes on. *)
Lemma qualified_signer_name_cursor q s s' :
  Reference.qualified_signer_name q s = (Some tt, s') ->
  i s + 2 < size q /\ i s + 2 <= i s' <= i s + 2 + 65535.
Proof.
  unfold Reference.qualified_signer_name.
  pose proof (field_range16 q (i s)).
  destruct (i s + 2 >=? size q) eqn:E; [discriminate|].
  intros [= <-]. cbn [i]. lia.
Qed.

Lemma extra_data_cursor q s s' :
  Reference.extra_data q s = (Some tt, s') ->
  i s + 2 < size q /\ i s + 2 <= i s' <= size q.
Proof.
  unfold Reference.extra_data. cbv zeta.
  pose proof (field_range16 q (i s)).
  destruct (i s + 2 >=? size q) eqn:E; [discriminate|].
  destruct (Reference.field q (i s) 2 + (i s + 2) >? size q) eqn:E';
    [discriminate|].
  intros [= <-]. cbn [i]. lia.
Qed.

Lemma skip_cursor q k msg s s' :
  Reference.skip q k msg s = (Some tt, s') ->
  i s' = i s + k /\ i s' < size q.
Proof.
  unfold Reference.skip. cbv zeta.
  destruct (i s + k >=? size q) eqn:E; [discriminate|].
  intros [= <-]. cbn [i]. lia.
Qed.

Lemma pcr_select_loop_cursor q n : forall s s',
  Reference.pcr_select_loop q n s = (Some tt, s') ->
  i s < size q -> i s <= i s' < size q.
Proof.
  induction n as [|n IH]; intros s s'; cbn [Reference.pcr_select_loop].
  - intros [= <-]. lia.
  - cbv zeta. pose proof (field_range8 q (i s + 2)).
    destruct (i s + 2 >=? size q) eqn:E1; [discriminate|].
    destruct (i s + 2 + 1 >=? size q) eqn:E2; [discriminate|].
    destruct (i s + 2 + 1 + Reference.field q (i s + 2) 1 >=? size q) eqn:E3;
      [discriminate|].
    intros Hrun _. apply IH in Hrun; cbn [i] in *; lia.
Qed.

Lemma pcr_select_info_cursor q s s' :
  Reference.pcr_select_info q s = (Some tt, s') ->
  i s + 4 <= i s' < size q.
Proof.
  unfold Reference.pcr_select_info.
  destruct (i s + 4 >=? size q) eqn:E; [discriminate|].
  intros Hrun. apply pcr_select_loop_cursor in Hrun; cbn [i] in *; lia.
Qed.

Theorem decoder_refines h q d e :
  0 <= size q <= UINT16_MAX ->
  Decoder.get_digest_from_quote h q (mkState 0 d e [] []) =
  Reference.get_digest_from_quote q (mkState 0 d e [] []).
Proof.
  intros Hq.
  unfold Decoder.get_digest_from_quote, Reference.get_digest_from_quote.
  unfold bind at 7. unfold Reference.header.
  cbn [i digest extraData trace log].
  destruct (size q <? 6) eqn:E0; [reflexivity|].
  dec_simpl. no_wrap.
  pose proof (read_uint32 h q 0) as R32.
  pose proof (read_uint16 h q (0 + 4)) as R16.
  destruct (negb (tpm2_util_is_big_endian h)); rewrite R32, R16;
    clear R32 R16.
  all: destruct (negb (Reference.field q 0 4 =? TPM2_GENERATED_VALUE));
    [reflexivity|].
  all: destruct (negb (Reference.field q (0 + 4) 2 =? TPM2_ST_ATTEST_QUOTE));
    [reflexivity|].
  all: rewrite qualified_signer_name_refines
    by (split; [exact Hq | cbn [i]; lia]).
  all: destruct (Reference.qualified_signer_name q _) as [[[]|] s1] eqn:E1;
    [|reflexivity].
  all: apply qualified_signer_name_cursor in E1; cbn [i] in E1.
  all: rewrite extra_data_refines by (split; [exact Hq | lia]).
  all: destruct (Reference.extra_data q s1) as [[[]|] s2] eqn:E2;
    [|reflexivity].
  all: apply extra_data_cursor in E2.
  all: rewrite clock_info_refines
    by (split; [exact Hq | unfold UINT16_MAX in *; lia]).
  all: destruct (Reference.clock_info q s2) as [[[]|] s3] eqn:E3;
    [|reflexivity].
  all: apply skip_cursor in E3.
  all: rewrite firmware_info_refines
    by (split; [exact Hq | unfold UINT16_MAX in *; lia]).
  all: destruct (Reference.firmware_info q s3) as [[[]|] s4] eqn:E4;
    [|reflexivity].
  all: apply skip_cursor in E4.
  all: rewrite pcr_select_info_refines
    by (split; [exact Hq | unfold UINT16_MAX in *; lia]).
  all: destruct (Reference.pcr_select_info q s4) as [[[]|] s5] eqn:E5;
    [|reflexivity].
  all: apply pcr_select_info_cursor in E5.
  all: apply digest_field_refines; split; [exact Hq|];
    unfold UINT16_MAX in *; lia.
Qed.


(** ** Assertions on the reference decoder *)

Lemma triple_bind P Q R F (m k : Decoder.M unit) :
  triple P m Q F -> triple Q k R F -> triple P (m ;; k) R F.
Proof.
  intros Hm Hk s Hs. unfold bind. specialize (Hm s Hs).
  destruct (m s) as [[[]|] s1]; [|exact Hm].
  exact (Hk s1 Hm).
Qed.

Lemma triple_run P Q F (m : Decoder.M unit) s :
  triple P m Q F -> P s ->
  (fst (m s) <> None -> Q (snd (m s))) /\ (fst (m s) = None -> F (snd (m s))).
Proof.
  intros Hm Hs. specialize (Hm s Hs).
  destruct (m s) as [[[]|] s1]; cbn; split; intros H;
    try assumption; try discriminate; now elim H.
Qed.

Ltac case_if :=
  lazymatch goal with
  | |- context [if ?c then _ else _] => destruct c eqn:?
  end.

Ltac ref_block :=
  cbv beta iota zeta delta
    [Reference.header Reference.qualified_signer_name Reference.extra_data
     Reference.clock_info Reference.firmware_info Reference.skip
     Reference.pcr_select_info Reference.digest_field Reference.err];
  cbn [i digest extraData trace log size buffer].

(** *** Every copy is inside the blob *)

Ltac events_ok_tac :=
  unfold events_ok in *; cbn [i trace] in *;
  repeat match goal with
  | H : _ /\ _ |- _ => destruct H
  | |- _ /\ _ => split
  | |- Forall _ (_ ++ _) => apply Forall_app
  | |- Forall _ [_] => constructor; [|constructor]
  | |- Forall _ [] => constructor
  | |- event_ok _ _ => unfold event_ok; cbn [is_header]
  end;
  try assumption; try lia.

Lemma header_events_ok q :
  triple (fun s => i s = 0 /\ trace s = []) (Reference.header q)
    (events_ok q) (events_ok q).
Proof.
  intros s [Hi Ht]. ref_block. rewrite Hi, Ht.
  case_if; [events_ok_tac|].
  case_if; [events_ok_tac|].
  case_if; events_ok_tac.
Qed.

Lemma qualified_signer_name_events_ok q :
  triple (events_ok q) (Reference.qualified_signer_name q)
    (events_ok q) (events_ok q).
Proof.
  intros s Hs. ref_block. pose proof (field_range16 q (i s)).
  destruct (i s + 2 >=? size q) eqn:E; events_ok_tac.
Qed.

Lemma extra_data_events_ok q :
  triple (events_ok q) (Reference.extra_data q) (events_ok q) (events_ok q).
Proof.
  intros s Hs. ref_block. pose proof (field_range16 q (i s)).
  destruct (i s + 2 >=? size q) eqn:E; [events_ok_tac|].
  case_if; events_ok_tac.
Qed.

Lemma skip_events_ok q k msg :
  0 <= k ->
  triple (events_ok q) (Reference.skip q k msg) (events_ok q) (events_ok q).
Proof.
  intros Hk s Hs. ref_block.
  destruct (i s + k >=? size q) eqn:E; events_ok_tac.
Qed.

Lemma pcr_select_loop_events_ok q n :
  triple (events_ok q) (Reference.pcr_select_loop q n)
    (events_ok q) (events_ok q).
Proof.
  induction n as [|n IH]; intros s Hs; cbn [Reference.pcr_select_loop].
  - exact Hs.
  - ref_block. pose proof (field_range8 q (i s + 2)).
    destruct (i s + 2 >=? size q) eqn:E1; [events_ok_tac|].
    destruct (i s + 2 + 1 >=? size q) eqn:E2; [events_ok_tac|].
    case_if; [events_ok_tac|].
    apply IH. events_ok_tac.
Qed.

Lemma pcr_select_info_events_ok q :
  triple (events_ok q) (Reference.pcr_select_info q)
    (events_ok q) (events_ok q).
Proof.
  intros s Hs. ref_block.
  destruct (i s + 4 >=? size q) eqn:E; [events_ok_tac|].
  apply pcr_select_loop_events_ok. events_ok_tac.
Qed.

Lemma digest_field_events_ok q :
  triple (events_ok q) (Reference.digest_field q) (events_ok q) (events_ok q).
Proof.
  intros s Hs. ref_block. pose proof (field_range16 q (i s)).
  destruct (i s + 2 >=? size q) eqn:E; [events_ok_tac|].
  case_if; events_ok_tac.
Qed.

Lemma reference_events_ok q :
  triple (fun s => i s = 0 /\ trace s = [])
    (Reference.get_digest_from_quote q) (events_ok q) (events_ok q).
Proof.
  unfold Reference.get_digest_from_quote.
  eapply triple_bind; [apply header_events_ok|].
  eapply triple_bind; [apply qualified_signer_name_events_ok|].
  eapply triple_bind; [apply extra_data_events_ok|].
  eapply triple_bind; [apply skip_events_ok; lia|].
  eapply triple_bind; [apply skip_events_ok; lia|].
  eapply triple_bind; [apply pcr_select_info_events_ok|].
  apply digest_field_events_ok.
Qed.

(** *** What a failure leaves in the output structures *)

Section Outputs.

Variable q : TPM2B_ATTEST.
Variables (d : TPM2B_DIGEST) (e : TPM2B_DATA).










End Outputs.

(** *** A successful run ends with the cursor inside the blob *)

Lemma triple_top P (m : Decoder.M unit) :
  triple P m (fun _ => True) (fun _ => True).
Proof. intros s _. now destruct (m s) as [[[]|] s']. Qed.

Lemma digest_field_cursor q :
  triple (fun _ => True) (Reference.digest_field q)
    (fun s => i s < size q) (fun _ => True).
Proof.
  intros s _. ref_block. case_if; [exact I|]. case_if; [exact I|].
  cbn [i]. lia.
Qed.

Lemma reference_success_cursor q :
  triple (fun _ => True) (Reference.get_digest_from_quote q)
    (fun s => i s < size q) (fun _ => True).
Proof.
  unfold Reference.get_digest_from_quote.
  do 6 (eapply triple_bind; [apply triple_top|]).
  apply digest_field_cursor.
Qed.

(** *** A run that succeeds on a prefix succeeds on the whole blob *)

Lemma follows_bind P Q R (m1 m2 k1 k2 : Decoder.M unit) :
  follows P m1 m2 Q -> follows Q k1 k2 R ->
  follows P (m1 ;; k1) (m2 ;; k2) R.
Proof.
  intros Hm Hk s s' Hs. unfold bind.
  destruct (m1 s) as [[[]|] s1] eqn:E1; [|discriminate].
  destruct (Hm s s1 Hs E1) as [E2 Hq]. rewrite E2.
  now apply Hk.
Qed.

Lemma prefix_of_field q1 q2 off len :
  prefix_of q1 q2 -> 0 <= off -> off + len <= size q1 ->
  Reference.field q1 off len = Reference.field q2 off len.
Proof.
  intros [_ H] Hoff Hlen. unfold Reference.field. now rewrite H.
Qed.

Section Prefix.

Variables q1 q2 : TPM2B_ATTEST.
Hypothesis Hpre : prefix_of q1 q2.

Ltac same_field off len :=
  rewrite <- (prefix_of_field q1 q2 off len Hpre) by lia.

Ltac passes :=
  lazymatch goal with
  | |- context [if ?c then _ else _] => destruct c eqn:?; [lia|]
  end.

Ltac done_follows :=
  split; [reflexivity | unfold cursor; cbn [i]; lia].

Lemma header_follows :
  follows (fun s => i s = 0) (Reference.header q1) (Reference.header q2)
    cursor.
Proof.
  pose proof (proj1 Hpre) as Hsize.
  intros s s' Hs. ref_block. rewrite Hs.
  destruct (size q1 <? 6) eqn:E0; [discriminate|].
  destruct (negb (Reference.field q1 0 4 =? _)) eqn:E1; [discriminate|].
  destruct (negb (Reference.field q1 (0 + 4) 2 =? _)) eqn:E2;
    [discriminate|].
  intros [= <-].
  same_field 0 4. same_field (0 + 4) 2. rewrite E1, E2.
  passes. done_follows.
Qed.

Lemma qualified_signer_name_follows :
  follows cursor (Reference.qualified_signer_name q1)
    (Reference.qualified_signer_name q2) cursor.
Proof.
  pose proof (proj1 Hpre) as Hsize. unfold cursor.
  intros s s' Hs. ref_block. pose proof (field_range16 q1 (i s)).
  destruct (i s + 2 >=? size q1) eqn:E0; [discriminate|].
  intros [= <-]. same_field (i s) 2. passes. done_follows.
Qed.

Lemma extra_data_follows :
  follows cursor (Reference.extra_data q1) (Reference.extra_data q2) cursor.
Proof.
  pose proof (proj1 Hpre) as Hsize. pose proof (proj2 Hpre) as Hload.
  unfold cursor.
  intros s s' Hs. ref_block. pose proof (field_range16 q1 (i s)).
  destruct (i s + 2 >=? size q1) eqn:E0; [discriminate|].
  destruct (Reference.field q1 (i s) 2 + (i s + 2) >? size q1) eqn:E1;
    [discriminate|].
  intros [= <-]. same_field (i s) 2. passes. passes.
  unfold attestationData in *.
  rewrite <- (Hload (i s + 2) (Reference.field q1 (i s) 2)) by lia.
  done_follows.
Qed.

Lemma skip_follows k msg :
  0 <= k ->
  follows cursor (Reference.skip q1 k msg) (Reference.skip q2 k msg) cursor.
Proof.
  pose proof (proj1 Hpre) as Hsize. unfold cursor.
  intros Hk s s' Hs. ref_block.
  destruct (i s + k >=? size q1) eqn:E0; [discriminate|].
  intros [= <-]. passes. done_follows.
Qed.

Lemma pcr_select_loop_follows n :
  follows cursor (Reference.pcr_select_loop q1 n)
    (Reference.pcr_select_loop q2 n) cursor.
Proof.
  pose proof (proj1 Hpre) as Hsize. unfold cursor.
  induction n as [|n IH]; intros s s' Hs; cbn [Reference.pcr_select_loop].
  - intros [= <-]. now split.
  - ref_block. pose proof (field_range8 q1 (i s + 2)).
    destruct (i s + 2 >=? size q1) eqn:E0; [discriminate|].
    destruct (i s + 2 + 1 >=? size q1) eqn:E1; [discriminate|].
    destruct (i s + 2 + 1 + Reference.field q1 (i s + 2) 1 >=? size q1)
      eqn:E2; [discriminate|].
    intros Hrun.
    same_field (i s + 2) 1. passes. passes. passes.
    apply IH; [cbn [i]; lia | exact Hrun].
Qed.

Lemma pcr_select_info_follows :
  follows cursor (Reference.pcr_select_info q1)
    (Reference.pcr_select_info q2) cursor.
Proof.
  pose proof (proj1 Hpre) as Hsize.
  intros s s' Hs. unfold cursor in Hs. ref_block.
  destruct (i s + 4 >=? size q1) eqn:E0; [discriminate|].
  intros Hrun. same_field (i s) 4. passes.
  apply pcr_select_loop_follows; [unfold cursor; cbn [i]; lia | exact Hrun].
Qed.

Lemma digest_field_follows :
  follows cursor (Reference.digest_field q1) (Reference.digest_field q2)
    cursor.
Proof.
  pose proof (proj1 Hpre) as Hsize. pose proof (proj2 Hpre) as Hload.
  unfold cursor.
  intros s s' Hs. ref_block. pose proof (field_range16 q1 (i s)).
  destruct (i s + 2 >=? size q1) eqn:E0; [discriminate|].
  destruct (Reference.field q1 (i s) 2 + (i s + 2) >? size q1) eqn:E1;
    [discriminate|].
  intros [= <-]. same_field (i s) 2. passes. passes.
  unfold attestationData in *.
  rewrite <- (Hload (i s + 2) (Reference.field q1 (i s) 2)) by lia.
  done_follows.
Qed.

Lemma reference_follows :
  follows (fun s => i s = 0) (Reference.get_digest_from_quote q1)
    (Reference.get_digest_from_quote q2) cursor.
Proof.
  unfold Reference.get_digest_from_quote.
  eapply follows_bind; [apply header_follows|].
  eapply follows_bind; [apply qualified_signer_name_follows|].
  eapply follows_bind; [apply extra_data_follows|].
  eapply follows_bind; [apply skip_follows; lia|].
  eapply follows_bind; [apply skip_follows; lia|].
  eapply follows_bind; [apply pcr_select_info_follows|].
  apply digest_field_follows.
Qed.

End Prefix.

Lemma nth_firstn_lt {A} (l : list A) (n j : nat) (d : A) :
  (j < n)%nat -> nth j (firstn n l) d = nth j l d.
Proof.
  revert n j; induction l as [|a l IH]; intros [|n] [|j] Hj;
    cbn; try reflexivity; try lia.
  apply IH. lia.
Qed.

Lemma truncate_prefix_of n q :
  0 <= n <= size q -> prefix_of (truncate n q) q.
Proof.
  intros Hn. split; [cbn; lia|].
  intros off len Hoff Hlen. cbn [truncate size attestationData buffer] in *.
  unfold load. apply map_ext_in. intros k Hk.
  apply in_seq in Hk. apply nth_firstn_lt. lia.
Qed.

(** *** The bytes past the declared size do not matter *)

Lemma same_bytes_prefix_of q1 q2 : same_bytes q1 q2 -> prefix_of q1 q2.
Proof.
  intros [Hsize Hnth]. split; [lia|].
  intros off len Hoff Hlen. unfold load. apply map_ext_in. intros k Hk.
  apply in_seq in Hk. apply Hnth. lia.
Qed.

Section SameBytes.

Variables q1 q2 : TPM2B_ATTEST.
Hypothesis Hsame : same_bytes q1 q2.

Ltac same_field off len :=
  rewrite <- (prefix_of_field q1 q2 off len
                (same_bytes_prefix_of q1 q2 Hsame)) by lia.

Lemma header_same s :
  i s = 0 -> Reference.header q1 s = Reference.header q2 s.
Proof.
  destruct Hsame as [Hsize _].
  intros Hs. ref_block. rewrite <- Hsize, Hs.
  case_if; [reflexivity|].
  same_field 0 4. same_field (0 + 4) 2. reflexivity.
Qed.

Lemma qualified_signer_name_same s :
  cursor s ->
  Reference.qualified_signer_name q1 s = Reference.qualified_signer_name q2 s.
Proof.
  destruct Hsame as [Hsize _]. unfold cursor.
  intros Hs. ref_block. rewrite <- Hsize.
  case_if; [reflexivity|]. same_field (i s) 2. reflexivity.
Qed.

Lemma extra_data_same s :
  cursor s -> Reference.extra_data q1 s = Reference.extra_data q2 s.
Proof.
  destruct Hsame as [Hsize _].
  pose proof (proj2 (same_bytes_prefix_of q1 q2 Hsame)) as Hload.
  unfold cursor. intros Hs. ref_block. rewrite <- Hsize.
  case_if; [reflexivity|]. same_field (i s) 2.
  case_if; [reflexivity|].
  unfold attestationData in *.
  rewrite <- (Hload (i s + 2) (Reference.field q1 (i s) 2)) by lia.
  reflexivity.
Qed.

Lemma skip_same k msg s :
  Reference.skip q1 k msg s = Reference.skip q2 k msg s.
Proof.
  destruct Hsame as [Hsize _]. ref_block. now rewrite <- Hsize.
Qed.

Lemma pcr_select_loop_same n : forall s,
  cursor s ->
  Reference.pcr_select_loop q1 n s = Reference.pcr_select_loop q2 n s.
Proof.
  destruct Hsame as [Hsize _]. unfold cursor.
  induction n as [|n IH]; intros s Hs; cbn [Reference.pcr_select_loop];
    [reflexivity|].
  ref_block. rewrite <- Hsize. pose proof (field_range8 q1 (i s + 2)).
  case_if; [reflexivity|]. case_if; [reflexivity|].
  same_field (i s + 2) 1.
  case_if; [reflexivity|].
  apply IH. cbn [i]. lia.
Qed.

Lemma pcr_select_info_same s :
  cursor s ->
  Reference.pcr_select_info q1 s = Reference.pcr_select_info q2 s.
Proof.
  destruct Hsame as [Hsize _]. intros Hs. unfold cursor in Hs.
  ref_block. rewrite <- Hsize.
  case_if; [reflexivity|]. same_field (i s) 4.
  apply pcr_select_loop_same. unfold cursor. cbn [i]. lia.
Qed.

Lemma digest_field_same s :
  cursor s -> Reference.digest_field q1 s = Reference.digest_field q2 s.
Proof.
  destruct Hsame as [Hsize _].
  pose proof (proj2 (same_bytes_prefix_of q1 q2 Hsame)) as Hload.
  unfold cursor. intros Hs. ref_block. rewrite <- Hsize.
  case_if; [reflexivity|]. same_field (i s) 2.
  case_if; [reflexivity|].
  unfold attestationData in *.
  rewrite <- (Hload (i s + 2) (Reference.field q1 (i s) 2)) by lia.
  reflexivity.
Qed.

Lemma header_cursor s s' :
  Reference.header q2 s = (Some tt, s') -> i s' = i s + 4 + 2.
Proof.
  ref_block. case_if; [discriminate|]. case_if; [discriminate|].
  case_if; [discriminate|]. now intros [= <-].
Qed.

Lemma reference_same s :
  i s = 0 ->
  Reference.get_digest_from_quote q1 s = Reference.get_digest_from_quote q2 s.
Proof.
  intros Hs. unfold Reference.get_digest_from_quote.
  apply bind_congr; [now apply header_same|].
  intros [] s1 E1. apply header_cursor in E1.
  apply bind_congr; [apply qualified_signer_name_same; unfold cursor; lia|].
  intros [] s2 E2. apply qualified_signer_name_cursor in E2.
  apply bind_congr; [apply extra_data_same; unfold cursor; lia|].
  intros [] s3 E3. apply extra_data_cursor in E3.
  apply bind_congr; [apply skip_same|].
  intros [] s4 E4. apply skip_cursor in E4.
  apply bind_congr; [apply skip_same|].
  intros [] s5 E5. apply skip_cursor in E5.
  apply bind_congr; [apply pcr_select_info_same; unfold cursor; lia|].
  intros [] s6 E6. apply pcr_select_info_cursor in E6.
  apply digest_field_same. unfold cursor. lia.
Qed.

End SameBytes.

(** ** The decoder: [tpm2_util_get_digest_from_quote] *)

Lemma run_refines h q d e :
  0 <= size q <= UINT16_MAX ->
  tpm2_util_get_digest_from_quote h q d e =
  match Reference.get_digest_from_quote q (mkState 0 d e [] []) with
  | (Some _, s) => (true, s)
  | (None, s) => (false, s)
  end.
Proof.
  intros Hq. unfold tpm2_util_get_digest_from_quote.
  now rewrite decoder_refines.
Qed.

Lemma run_events_ok h q d e :
  0 <= size q <= UINT16_MAX ->
  Forall (event_ok q) (trace (snd (tpm2_util_get_digest_from_quote h q d e))).
Proof.
  intros Hq. rewrite run_refines by assumption.
  pose proof (reference_events_ok q (mkState 0 d e [] [])
                (conj eq_refl eq_refl)) as H.
  destruct (Reference.get_digest_from_quote q _) as [[[]|] s];
    exact (proj2 H).
Qed.

Lemma event_ok_in_bounds q ev : event_ok q ev -> in_bounds q ev.
Proof.
  destruct ev as [dst off len]. unfold event_ok, in_bounds.
  destruct (is_header dst); lia.
Qed.

(** C1. Whatever the blob holds, every copy the decoder makes from it lies
    inside its declared size, and the bytes past the declared size have no
    influence on the result; and a blob that decodes, cut at any length up
    to the offset of its digest field, does not decode. *)
Theorem decoder_reads_in_bounds (h : endianness) (q : TPM2B_ATTEST)
    (d : TPM2B_DIGEST) (e : TPM2B_DATA) :
  0 <= size q <= UINT16_MAX ->
  let r := tpm2_util_get_digest_from_quote h q d e in
  Forall (in_bounds q) (trace (snd r)) /\
  (forall q', same_bytes q q' ->
     tpm2_util_get_digest_from_quote h q' d e = r) /\
  (fst r = true ->
   forall n, 0 <= n <= i (snd r) - 2 ->
     fst (tpm2_util_get_digest_from_quote h (truncate n q) d e) = false).
Proof.
  intros Hq r. split; [|split].
  - eapply Forall_impl; [apply event_ok_in_bounds|].
    now apply run_events_ok.
  - intros q' Hsame. subst r.
    rewrite !run_refines by (rewrite <- ?(proj1 Hsame); assumption).
    now rewrite (reference_same q q' Hsame).
  - subst r. rewrite run_refines by assumption.
    pose proof (reference_success_cursor q (mkState 0 d e [] []) I) as Hc.
    destruct (Reference.get_digest_from_quote q _) as [[[]|] s] eqn:Hrun;
      cbn [fst snd]; [|discriminate].
    intros _ n Hn.
    assert (Hn' : 0 <= size (truncate n q) <= UINT16_MAX)
      by (cbn [truncate size]; lia).
    rewrite run_refines by assumption.
    pose proof (reference_success_cursor (truncate n q)
                  (mkState 0 d e [] []) I) as Hc'.
    destruct (Reference.get_digest_from_quote (truncate n q) _)
      as [[[]|] s'] eqn:Hrun'; cbn [fst]; [|reflexivity].
    exfalso.
    destruct (reference_follows (truncate n q) q
                (truncate_prefix_of n q ltac:(lia))
                (mkState 0 d e [] []) s' eq_refl Hrun') as [Hrun2 _].
    rewrite Hrun in Hrun2. injection Hrun2 as ->.
    cbn [truncate size] in Hc'. lia.
Qed.

Lemma decoder_reads_in_bounds_witness :
  0 <= size Scenario.quote1 <= UINT16_MAX /\
  fst (tpm2_util_get_digest_from_quote LittleEndian Scenario.quote1
         Scenario.quoteHash_init Scenario.quoteExtraData_init) = true /\
  0 <= 43 <=
    i (snd (tpm2_util_get_digest_from_quote LittleEndian Scenario.quote1
              Scenario.quoteHash_init Scenario.quoteExtraData_init)) - 2 /\
  fst (tpm2_util_get_digest_from_quote LittleEndian
         (truncate 43 Scenario.quote1)
         Scenario.quoteHash_init Scenario.quoteExtraData_init) = false.
Proof.
  assert (H1 : 0 <= size Scenario.quote1 <= UINT16_MAX)
    by (vm_compute; split; discriminate).
  assert (H2 : fst (tpm2_util_get_digest_from_quote LittleEndian
                      Scenario.quote1 Scenario.quoteHash_init
                      Scenario.quoteExtraData_init) = true)
    by (vm_compute; reflexivity).
  assert (H3 : 0 <= 43 <=
    i (snd (tpm2_util_get_digest_from_quote LittleEndian Scenario.quote1
              Scenario.quoteHash_init Scenario.quoteExtraData_init)) - 2)
    by (vm_compute; split; discriminate).
  refine (conj H1 (conj H2 (conj H3 _))).
  exact (proj2 (proj2 (decoder_reads_in_bounds LittleEndian
                         Scenario.quote1 Scenario.quoteHash_init
                         Scenario.quoteExtraData_init H1))
           H2 43 H3).
Defined.

(** C3. The 77-byte blob of the first scenario decodes, on either host and
    whatever the output structures held: [extraData] has size 4 and holds
    [DE AD BE EF], the digest has size 32 and holds 32 bytes [AA]. *)
Theorem scenario1_decodes (h : endianness) (d : TPM2B_DIGEST)
    (e : TPM2B_DATA) :
  length (attestationData Scenario.quote1) = 77%nat /\
  size Scenario.quote1 = 77 /\
  let r := tpm2_util_get_digest_from_quote h Scenario.quote1 d e in
  fst r = true /\
  size (extraData (snd r)) = 4 /\
  firstn 4 (buffer (extraData (snd r))) = [xde; xad; xbe; xef] /\
  size (digest (snd r)) = 32 /\
  firstn 32 (buffer (digest (snd r))) = repeat xaa 32.
Proof.
  destruct h; vm_compute; repeat split.
Qed.

(** C2. The decoder bounds the two fields it keeps by the size of the blob
    only: there is a blob that decodes, on either host, whose declared
    digest length and extra-data length are larger than the buffers of the
    output structures, and both copies are made with the declared length,
    past the end of those buffers. *)
Theorem decoder_ignores_output_capacity :
  exists q : TPM2B_ATTEST,
    0 <= size q <= UINT16_MAX /\
    Z.of_nat (length (attestationData q)) = size q /\
    forall h : endianness,
      let r := tpm2_util_get_digest_from_quote h q
                 Scenario.quoteHash_init Scenario.quoteExtraData_init in
      fst r = true /\
      (sizeof_TPMU_HA < size (digest (snd r)) /\
       In (Memcpy Ddigest_buffer 141 (size (digest (snd r))))
          (trace (snd r)) /\
       Z.of_nat (length (buffer Scenario.quoteHash_init)) = sizeof_TPMU_HA /\
       Z.of_nat (length (buffer (digest (snd r)))) = 100) /\
      (sizeof_TPMT_HA < size (extraData (snd r)) /\
       In (Memcpy DextraData_buffer 10 (size (extraData (snd r))))
          (trace (snd r)) /\
       Z.of_nat (length (buffer Scenario.quoteExtraData_init))
         = sizeof_TPMT_HA /\
       Z.of_nat (length (buffer (extraData (snd r)))) = 100).
Proof.
  exists Scenario.oversized.
  split; [vm_compute; split; discriminate|].
  split; [vm_compute; reflexivity|].
  intros h; destruct h; vm_compute; repeat split; auto 10.
Qed.




(** C7. A blob of at least 6 bytes whose first four bytes are not the
    magic, read as a big-endian integer, is rejected with the message of
    the magic; the decoder has then read the magic and the type and nothing
    else, and has written nothing.  The blob of the second scenario is such
    a blob. *)
Theorem bad_magic_rejected (h : endianness) (d : TPM2B_DIGEST)
    (e : TPM2B_DATA) :
  (forall q : TPM2B_ATTEST,
     6 <= size q <= UINT16_MAX ->
     be_uint (load (attestationData q) 0 4) <> TPM2_GENERATED_VALUE ->
     tpm2_util_get_digest_from_quote h q d e =
     (false,
      mkState 6 d e [Memcpy Dmagic 0 4; Memcpy Dtype 4 2]
        ["Malformed TPM2_GENERATED magic value"%string])) /\
  be_uint (load (attestationData Scenario.quote2) 0 4) = 0 /\
  tpm2_util_get_digest_from_quote h Scenario.quote2 d e =
  (false,
   mkState 6 d e [Memcpy Dmagic 0 4; Memcpy Dtype 4 2]
     ["Malformed TPM2_GENERATED magic value"%string]).
Proof.
  assert (G : forall q : TPM2B_ATTEST,
     6 <= size q <= UINT16_MAX ->
     be_uint (load (attestationData q) 0 4) <> TPM2_GENERATED_VALUE ->
     tpm2_util_get_digest_from_quote h q d e =
     (false,
      mkState 6 d e [Memcpy Dmagic 0 4; Memcpy Dtype 4 2]
        ["Malformed TPM2_GENERATED magic value"%string])).
  { intros q Hq Hmagic. rewrite run_refines by lia.
    unfold Reference.get_digest_from_quote, bind, Reference.header,
      Reference.err, Reference.field.
    cbn [i digest extraData trace log].
    destruct (size q <? 6) eqn:E; [lia|].
    apply Z.eqb_neq in Hmagic. rewrite Hmagic.
    reflexivity. }
  split; [exact G|]. split; [vm_compute; reflexivity|].
  apply G; vm_compute; [split|]; discriminate.
Qed.

Lemma bad_magic_rejected_witness :
  6 <= size Scenario.quote2 <= UINT16_MAX /\
  be_uint (load (attestationData Scenario.quote2) 0 4)
    <> TPM2_GENERATED_VALUE /\
  tpm2_util_get_digest_from_quote LittleEndian Scenario.quote2
    Scenario.quoteHash_init Scenario.quoteExtraData_init =
  (false,
   mkState 6 Scenario.quoteHash_init Scenario.quoteExtraData_init
     [Memcpy Dmagic 0 4; Memcpy Dtype 4 2]
     ["Malformed TPM2_GENERATED magic value"%string]).
Proof.
  assert (H1 : 6 <= size Scenario.quote2 <= UINT16_MAX)
    by (vm_compute; split; discriminate).
  assert (H2 : be_uint (load (attestationData Scenario.quote2) 0 4)
                 <> TPM2_GENERATED_VALUE)
    by (vm_compute; discriminate).
  refine (conj H1 (conj H2 _)).
  exact (proj1 (bad_magic_rejected LittleEndian Scenario.quoteHash_init
                  Scenario.quoteExtraData_init) Scenario.quote2 H1 H2).
Defined.

(** C6. In every run, a header after the magic and the type is copied only
    when it ends strictly before the last byte of the blob, and a payload
    only when it ends at or before the last byte.  Step by step, from every
    cursor the decoder can reach: each of the six header reads fails when
    the header would end at or after the declared size, so also when it
    fills the blob exactly; the two payload copies fail exactly when the
    payload would end after the declared size. *)
Theorem header_checks_strict_payload_checks_not (h : endianness)
    (q : TPM2B_ATTEST) :
  0 <= size q <= UINT16_MAX ->
  (forall d e dst off len,
     In (Memcpy dst off len)
        (trace (snd (tpm2_util_get_digest_from_quote h q d e))) ->
     (is_header dst = true -> off + len < size q) /\
     (is_payload dst = true -> off + len <= size q)) /\
  (forall s, 0 <= i s <= 70000 ->
     (i s + 2 >= size q ->
      fst (Decoder.qualified_signer_name h q s) = None) /\
     (i s + 2 >= size q -> fst (Decoder.extra_data h q s) = None) /\
     (i s + 4 >= size q -> fst (Decoder.pcr_select_info h q s) = None) /\
     (forall n, i s + 2 >= size q ->
                fst (Decoder.pcr_select_loop h q (S n) s) = None) /\
     (forall n, i s + 2 + 1 >= size q ->
                fst (Decoder.pcr_select_loop h q (S n) s) = None) /\
     (i s + 2 >= size q -> fst (Decoder.digest_field h q s) = None) /\
     (i s + 2 < size q ->
      (fst (Decoder.extra_data h q s) = None <->
       Reference.field q (i s) 2 + (i s + 2) > size q)) /\
     (i s + 2 < size q ->
      (fst (Decoder.digest_field h q s) = None <->
       Reference.field q (i s) 2 + (i s + 2) > size q))).
Proof.
  intros Hq. split.
  - intros d e dst off len Hin.
    pose proof (run_events_ok h q d e Hq) as Hok.
    rewrite Forall_forall in Hok. specialize (Hok _ Hin).
    unfold event_ok in Hok.
    destruct dst; cbn [is_header is_payload] in *;
      split; intros; try discriminate; lia.
  - intros s Hs.
    assert (Hc : cursor_ok q s) by (split; assumption).
    rewrite qualified_signer_name_refines, extra_data_refines,
      pcr_select_info_refines, digest_field_refines by assumption.
    repeat split.
    + intros Hge. ref_block. case_if; [reflexivity|lia].
    + intros Hge. ref_block. case_if; [reflexivity|lia].
    + intros Hge. ref_block. case_if; [reflexivity|lia].
    + intros Hge. rewrite pcr_select_loop_refines by assumption.
      cbn [Reference.pcr_select_loop]. ref_block.
      case_if; [reflexivity|lia].
    + intros Hge. rewrite pcr_select_loop_refines by assumption.
      cbn [Reference.pcr_select_loop]. ref_block.
      case_if; [reflexivity|]. case_if; [reflexivity|lia].
    + intros Hge. ref_block. case_if; [reflexivity|lia].
    + revert H. ref_block. case_if; [lia|]. case_if; cbn [fst];
        [lia | discriminate].
    + intros Hgt. ref_block. case_if; [lia|]. case_if; [reflexivity|lia].
    + revert H. ref_block. case_if; [lia|]. case_if; cbn [fst];
        [lia | discriminate].
    + intros Hgt. ref_block. case_if; [lia|]. case_if; [reflexivity|lia].
Qed.

Lemma header_checks_strict_payload_checks_not_witness :
  0 <= size Scenario.quote1 <= UINT16_MAX /\
  forall d e dst off len,
    In (Memcpy dst off len)
       (trace (snd (tpm2_util_get_digest_from_quote LittleEndian
                      Scenario.quote1 d e))) ->
    (is_header dst = true -> off + len < size Scenario.quote1) /\
    (is_payload dst = true -> off + len <= size Scenario.quote1).
Proof.
  assert (H1 : 0 <= size Scenario.quote1 <= UINT16_MAX)
    by (vm_compute; split; discriminate).
  refine (conj H1 _).
  exact (proj1 (header_checks_strict_payload_checks_not LittleEndian
                  Scenario.quote1 H1)).
Defined.

(** The two boundaries on blobs: the first scenario cut after the 8 bytes
    of magic, type and name length, so that the name length fills the blob
    to its last byte, is rejected at the name length; the whole blob, whose
    digest ends at the last byte, is accepted. *)
Example header_filling_the_blob_rejected (h : endianness) :
  size (truncate 8 Scenario.quote1) = 6 + 2 /\
  tpm2_util_get_digest_from_quote h (truncate 8 Scenario.quote1)
    Scenario.quoteHash_init Scenario.quoteExtraData_init =
  (false,
   mkState 6 Scenario.quoteHash_init Scenario.quoteExtraData_init
     [Memcpy Dmagic 0 4; Memcpy Dtype 4 2]
     ["Malformed TPM2B_NAME value"%string]) /\
  size Scenario.quote1 = 45 + 32 /\
  In (Memcpy Ddigest_buffer 45 32)
     (trace (snd (tpm2_util_get_digest_from_quote h Scenario.quote1
                    Scenario.quoteHash_init Scenario.quoteExtraData_init))).
Proof.
  destruct h; vm_compute; repeat split; auto 10.
Qed.

(** ** Quote verification: [verify_signature] *)

Import CheckQuote.

Section VerifySignature.

Variables FILE RSA : Type.
Variable fopen : string -> option FILE.
Variable tpm2_openssl_get_public_RSA_from_pem : FILE -> string -> option RSA.
Variable tpm2_openssl_halgid_from_tpmhalg : Z -> Z.
Variable RSA_verify : Z -> list BYTE -> Z -> list BYTE -> Z -> RSA -> Z.
Variable TPM2_ALG_RSASSA : Z.

#[local] Abbreviation verify_signature :=
  (CheckQuote.verify_signature FILE RSA fopen
     tpm2_openssl_get_public_RSA_from_pem tpm2_openssl_halgid_from_tpmhalg
     RSA_verify TPM2_ALG_RSASSA).

Ltac vs_unfold :=
  unfold CheckQuote.verify_signature, verify_signature_checks;
  cbv beta iota zeta delta [bind ret exit emit];
  cbn [app fst snd].

Ltac vs_case :=
  match goal with
  | |- context [match fopen ?p with _ => _ end] =>
    destruct (fopen p)
  | |- context [match tpm2_openssl_get_public_RSA_from_pem ?f ?p with
                | _ => _ end] =>
    destruct (tpm2_openssl_get_public_RSA_from_pem f p)
  | |- context [if ?c then _ else _] => destruct c eqn:?
  end;
  cbv beta iota zeta; cbn [app fst snd].

Lemma comparisons_guarded_sound t : forall verified pre c post,
  comparisons_guarded verified t = true ->
  t = pre ++ c :: post ->
  is_comparison c = true ->
  verified = true \/ exists v, v <> 0 /\ In (Call_RSA_verify v) pre.
Proof.
  induction t as [|c0 t IH]; intros verified pre c post Hg Ht Hc.
  - destruct pre; discriminate.
  - destruct pre as [|c1 pre]; cbn [app] in Ht; injection Ht as -> ->.
    + cbn [comparisons_guarded] in Hg.
      destruct c; try discriminate; cbn [is_comparison negb orb] in Hg;
        apply andb_prop in Hg; destruct Hg as [Hv _]; now left.
    + cbn [comparisons_guarded] in Hg.
      destruct c1 as [| | |v| | | | | |];
        try (cbn [is_comparison] in Hg; apply andb_prop in Hg;
             destruct Hg as [_ Hg];
             destruct (IH _ _ _ _ Hg eq_refl Hc) as [Hv|(v & Hv & Hin)];
             [now left | right; exists v; split; [exact Hv|now right]]).
      destruct (IH _ _ _ _ Hg eq_refl Hc) as [Hv|(w & Hw & Hin)].
      * apply orb_prop in Hv. destruct Hv as [Hv|Hv]; [now left|].
        right. exists v. split; [|now left].
        apply negb_true_iff, Z.eqb_neq in Hv. exact Hv.
      * right. exists w. split; [exact Hw|now right].
Qed.

Lemma verify_signature_guarded ctx :
  comparisons_guarded false (snd (verify_signature ctx)) = true.
Proof.
  vs_unfold.
  repeat vs_case; cbn [comparisons_guarded is_comparison negb orb andb];
    repeat match goal with
    | H : (_ =? 0) = false |- _ => rewrite H; clear H
    end; reflexivity.
Qed.

(** C4. When [RSA_verify] reports a failure, [verify_signature] returns
    false with the message of the signature check and makes none of the
    comparisons (the sizes of the nonces, their bytes, the PCR digests);
    and a comparison is only ever made after a call of [RSA_verify] that
    reported success. *)
Theorem signature_checked_before_comparisons (ctx : tpm2_verifysig_ctx) :
  let r := verify_signature ctx in
  (In (Call_RSA_verify 0) (snd r) ->
   fst r = false /\
   In (LOG_ERR "Error validating signed message with public key provided")
      (snd r) /\
   forall c, In c (snd r) -> is_comparison c = false) /\
  (forall pre c post,
     snd r = pre ++ c :: post -> is_comparison c = true ->
     exists v, v <> 0 /\ In (Call_RSA_verify v) pre).
Proof.
  intros r. split.
  - subst r. vs_unfold.
    repeat vs_case; cbn [In]; intros Hin;
      repeat match goal with
      | H : _ \/ _ |- _ => destruct H
      | H : False |- _ => destruct H
      | H : Call_RSA_verify _ = Call_RSA_verify _ |- _ =>
        injection H as H; rewrite H in *
      | H : _ = Call_RSA_verify _ |- _ => discriminate H
      end;
      try discriminate.
    split; [reflexivity|]. split; [cbn; tauto|].
    intros c Hc. cbn in Hc.
    repeat (destruct Hc as [<-|Hc]; [reflexivity|]). destruct Hc.
  - intros pre c post Ht Hc.
    destruct (comparisons_guarded_sound _ false pre c post
                (verify_signature_guarded ctx) Ht Hc) as [Hv|Hv];
      [discriminate | exact Hv].
Qed.

(** C8. A signature whose scheme is not RSASSA is rejected, whatever the
    other inputs and collaborators, and [RSA_verify] is not called. *)
Theorem unsupported_scheme_rejected (ctx : tpm2_verifysig_ctx) :
  sigAlg (signature ctx) <> TPM2_ALG_RSASSA ->
  fst (verify_signature ctx) = false /\
  forall v, ~ In (Call_RSA_verify v) (snd (verify_signature ctx)).
Proof.
  intros Hne. apply Z.eqb_neq in Hne.
  vs_unfold. rewrite Hne. cbn [negb].
  repeat vs_case; (split; [reflexivity|]); intros v Hin; cbn in Hin;
    repeat (destruct Hin as [Hin|Hin]; [discriminate Hin|]); exact Hin.
Qed.

End VerifySignature.

Lemma signature_checked_before_comparisons_witness :
  let r := CheckQuote.verify_signature unit unit
             (fun _ => Some tt) (fun _ _ => Some tt) (fun a => a)
             (fun _ _ _ _ _ _ => 0) Scenario.rsassa_id
             (Scenario.ctx_with_scheme Scenario.rsassa_id) in
  In (Call_RSA_verify 0) (snd r) /\
  fst r = false /\
  In (LOG_ERR "Error validating signed message with public key provided")
     (snd r) /\
  forall c, In c (snd r) -> is_comparison c = false.
Proof.
  intros r.
  assert (H : In (Call_RSA_verify 0) (snd r)) by (vm_compute; tauto).
  refine (conj H _).
  exact (proj1 (signature_checked_before_comparisons unit unit
                  (fun _ => Some tt) (fun _ _ => Some tt) (fun a => a)
                  (fun _ _ _ _ _ _ => 0) Scenario.rsassa_id
                  (Scenario.ctx_with_scheme Scenario.rsassa_id)) H).
Defined.

Lemma unsupported_scheme_rejected_witness :
  sigAlg (signature (Scenario.ctx_with_scheme Scenario.ecdsa_id))
    <> Scenario.rsassa_id /\
  fst (CheckQuote.verify_signature unit unit
         (fun _ => Some tt) (fun _ _ => Some tt) (fun a => a)
         (fun _ _ _ _ _ _ => 1) Scenario.rsassa_id
         (Scenario.ctx_with_scheme Scenario.ecdsa_id)) = false.
Proof.
  assert (H : sigAlg (signature (Scenario.ctx_with_scheme Scenario.ecdsa_id))
                <> Scenario.rsassa_id) by (vm_compute; discriminate).
  refine (conj H _).
  exact (proj1 (unsupported_scheme_rejected unit unit
                  (fun _ => Some tt) (fun _ _ => Some tt) (fun a => a)
                  (fun _ _ _ _ _ _ => 1) Scenario.rsassa_id
                  (Scenario.ctx_with_scheme Scenario.ecdsa_id) H)).
Defined.

(** ** Byte order conversions *)

Lemma hton_involutive sz h data :
  0 <= data < 256 ^ Z.of_nat sz -> hton sz h (hton sz h data) = data.
Proof.
  intros Hd. unfold hton. cbv zeta.
  destruct (tpm2_util_is_big_endian h); [reflexivity|].
  now apply endian_swap_involutive.
Qed.

(** C10. For every UINT16, UINT32 and UINT64 value, converting to network
    order and back gives the value again, on a little-endian and on a
    big-endian host; the two directions are the same function, which swaps
    the bytes on a little-endian host and is the identity on a big-endian
    one. *)
Theorem ntoh_hton_roundtrip (h : endianness) (x16 x32 x64 : Z) :
  0 <= x16 <= 65535 ->
  0 <= x32 <= 4294967295 ->
  0 <= x64 <= 18446744073709551615 ->
  (tpm2_util_ntoh_16 h (tpm2_util_hton_16 h x16) = x16 /\
   tpm2_util_ntoh_32 h (tpm2_util_hton_32 h x32) = x32 /\
   tpm2_util_ntoh_64 h (tpm2_util_hton_64 h x64) = x64) /\
  (tpm2_util_ntoh_16 h x16 = tpm2_util_hton_16 h x16 /\
   tpm2_util_ntoh_32 h x32 = tpm2_util_hton_32 h x32 /\
   tpm2_util_ntoh_64 h x64 = tpm2_util_hton_64 h x64) /\
  (tpm2_util_hton_16 h x16 =
     match h with
     | LittleEndian => tpm2_util_endian_swap_16 h x16
     | BigEndian => x16
     end /\
   tpm2_util_hton_32 h x32 =
     match h with
     | LittleEndian => tpm2_util_endian_swap_32 h x32
     | BigEndian => x32
     end /\
   tpm2_util_hton_64 h x64 =
     match h with
     | LittleEndian => tpm2_util_endian_swap_64 h x64
     | BigEndian => x64
     end).
Proof.
  intros H16 H32 H64.
  unfold tpm2_util_ntoh_16, tpm2_util_ntoh_32, tpm2_util_ntoh_64,
    tpm2_util_hton_16, tpm2_util_hton_32, tpm2_util_hton_64.
  repeat split.
  - apply hton_involutive. change (256 ^ Z.of_nat 2) with 65536. lia.
  - apply hton_involutive. change (256 ^ Z.of_nat 4) with 4294967296. lia.
  - apply hton_involutive.
    change (256 ^ Z.of_nat 8) with 18446744073709551616. lia.
  - unfold hton. rewrite is_big_endian_spec. now destruct h.
  - unfold hton. rewrite is_big_endian_spec. now destruct h.
  - unfold hton. rewrite is_big_endian_spec. now destruct h.
Qed.

Lemma ntoh_hton_roundtrip_witness :
  (0 <= 65535 <= 65535 /\
   0 <= 4294967295 <= 4294967295 /\
   0 <= 0 <= 18446744073709551615) /\
  tpm2_util_ntoh_16 LittleEndian (tpm2_util_hton_16 LittleEndian 65535)
    = 65535 /\
  tpm2_util_ntoh_32 LittleEndian (tpm2_util_hton_32 LittleEndian 4294967295)
    = 4294967295 /\
  tpm2_util_ntoh_64 LittleEndian (tpm2_util_hton_64 LittleEndian 0) = 0.
Proof.
  split; [lia|].
  apply (ntoh_hton_roundtrip LittleEndian 65535 4294967295 0); lia.
Defined.

(** ** Digest comparison *)

Lemma verify_digests_loop_true a b n : forall k,
  verify_digests_loop a b k n = true <->
  (forall j, (k <= j < k + n)%nat ->
             nth j (buffer a) x00 = nth j (buffer b) x00).
Proof.
  induction n as [|n IH]; intros k; cbn [verify_digests_loop].
  - split; [intros _ j Hj; lia | reflexivity].
  - destruct (Byte.eqb (nth k (buffer a) x00) (nth k (buffer b) x00)) eqn:E;
      cbn [negb].
    + apply Byte.byte_dec_bl in E. rewrite IH. split; intros H j Hj.
      * destruct (Nat.eq_dec j k) as [->|Hne]; [exact E|].
        apply H. lia.
      * apply H. lia.
    + split; [discriminate|]. intros H.
      rewrite (Byte.byte_dec_lb (H k ltac:(lia))) in E. discriminate.
Qed.

Lemma verify_digests_loop_sym a b n : forall k,
  verify_digests_loop a b k n = verify_digests_loop b a k n.
Proof.
  induction n as [|n IH]; intros k; cbn [verify_digests_loop];
    [reflexivity|].
  rewrite IH.
  destruct (Byte.eqb (nth k (buffer a) x00) (nth k (buffer b) x00)) eqn:E1,
           (Byte.eqb (nth k (buffer b) x00) (nth k (buffer a) x00)) eqn:E2;
    try reflexivity.
  - apply Byte.byte_dec_bl in E1. symmetry in E1.
    apply Byte.byte_dec_lb in E1. congruence.
  - apply Byte.byte_dec_bl in E2. symmetry in E2.
    apply Byte.byte_dec_lb in E2. congruence.
Qed.

(** C9. [tpm2_util_verify_digests] returns true exactly when the two sizes
    are equal and the two buffers agree on every byte of the digest; so it
    is reflexive and symmetric, and it returns false for digests of
    different sizes whatever their bytes. *)
Theorem verify_digests_spec (a b : TPM2B_DIGEST) :
  (tpm2_util_verify_digests a b = true <->
     size a = size b /\
     forall k, 0 <= k < size a ->
       nth (Z.to_nat k) (buffer a) x00 = nth (Z.to_nat k) (buffer b) x00) /\
  tpm2_util_verify_digests a a = true /\
  tpm2_util_verify_digests a b = tpm2_util_verify_digests b a /\
  (size a <> size b -> tpm2_util_verify_digests a b = false).
Proof.
  unfold tpm2_util_verify_digests. repeat split.
  - destruct (size a =? size b) eqn:E; cbn [negb] in *; [|discriminate].
    now apply Z.eqb_eq.
  - destruct (size a =? size b) eqn:E; cbn [negb] in *; [|discriminate].
    intros k Hk. rewrite verify_digests_loop_true in H. apply H. lia.
  - intros [Hs Hb]. rewrite Hs, Z.eqb_refl. cbn [negb].
    rewrite <- Hs. apply verify_digests_loop_true. intros j Hj.
    rewrite <- (Nat2Z.id j). apply Hb. lia.
  - rewrite Z.eqb_refl. cbn [negb]. apply verify_digests_loop_true.
    reflexivity.
  - rewrite (Z.eqb_sym (size b) (size a)).
    destruct (size a =? size b) eqn:E; cbn [negb]; [|reflexivity].
    apply Z.eqb_eq in E. rewrite <- E. apply verify_digests_loop_sym.
  - intros Hne. apply Z.eqb_neq in Hne. now rewrite Hne.
Qed.

Lemma verify_digests_spec_witness :
  size (mkTPM2B 1 [xaa]) <> size (mkTPM2B 2 [xaa; xaa]) /\
  tpm2_util_verify_digests (mkTPM2B 1 [xaa]) (mkTPM2B 2 [xaa; xaa]) = false.
Proof.
  split; [cbn; lia|].
  apply (verify_digests_spec (mkTPM2B 1 [xaa]) (mkTPM2B 2 [xaa; xaa])).
  cbn; lia.
Defined.

(** * Verification of the further code *)

(** ** More on the byte order conversions *)

(** X1. The swap routines do not depend on the byte order of the host: on
    either host the result is the integer whose little-endian bytes are
    the big-endian bytes of the argument; for 16 and 32 bits this is the
    usual shuffle of the bytes. *)
Theorem endian_swap_value (h : endianness) (x : Z) :
  (forall sz, endian_swap sz h x = le_uint (rev (le_bytes sz x))) /\
  tpm2_util_endian_swap_16 h x =
    (x mod 256) * 256 + (x / 256) mod 256 /\
  tpm2_util_endian_swap_32 h x =
    (x mod 256) * 16777216 + ((x / 256) mod 256) * 65536 +
    ((x / 65536) mod 256) * 256 + (x / 16777216) mod 256.
Proof.
  assert (G : forall sz, endian_swap sz h x = le_uint (rev (le_bytes sz x))).
  { intros sz. rewrite endian_swap_rev.
    destruct h; cbn [bytes_of_uint uint_of_bytes];
      now rewrite ?rev_involutive. }
  split; [exact G|].
  unfold tpm2_util_endian_swap_16, tpm2_util_endian_swap_32.
  rewrite !G. cbn [le_bytes rev app le_uint].
  rewrite !Z_of_byte_of_Z, !Z.mod_mod by lia.
  rewrite !Z.div_div by lia.
  change (256 * (256 * 256)) with 16777216.
  change (256 * 256) with 65536.
  split; lia.
Qed.

(** X2. What the conversions are for: on either host, the bytes that the
    host stores for [hton(x)] are the big-endian bytes of [x], and [ntoh]
    of an integer loaded from big-endian bytes is the value of these
    bytes. *)
Theorem hton_gives_network_order (h : endianness) (sz : nat) :
  (forall x, 0 <= x < 256 ^ Z.of_nat sz ->
     bytes_of_uint h sz (hton sz h x) = rev (le_bytes sz x)) /\
  (forall bs, length bs = sz ->
     hton sz h (uint_of_bytes h bs) = be_uint bs) /\
  (forall bs, length bs = 2%nat ->
     tpm2_util_ntoh_16 h (uint_of_bytes h bs) = be_uint bs) /\
  (forall bs, length bs = 4%nat ->
     tpm2_util_ntoh_32 h (uint_of_bytes h bs) = be_uint bs) /\
  (forall bs, length bs = 8%nat ->
     tpm2_util_ntoh_64 h (uint_of_bytes h bs) = be_uint bs).
Proof.
  assert (G : forall n bs, length bs = n ->
                hton n h (uint_of_bytes h bs) = be_uint bs).
  { intros n bs <-. unfold hton. cbv zeta.
    pose proof (memcpy_then_swap h bs) as H.
    destruct (tpm2_util_is_big_endian h); exact H. }
  split; [|split; [apply G | repeat split; apply G]].
  intros x Hx. unfold hton. cbv zeta. rewrite is_big_endian_spec.
  destruct h.
  - rewrite endian_swap_rev. cbn [bytes_of_uint uint_of_bytes].
    pose proof (le_bytes_le_uint (rev (le_bytes sz x))) as H.
    now rewrite length_rev, le_bytes_length in H.
  - reflexivity.
Qed.

Lemma hton_gives_network_order_witness :
  0 <= 0x1234 < 256 ^ Z.of_nat 2 /\
  bytes_of_uint LittleEndian 2 (hton 2 LittleEndian 0x1234) =
  rev (le_bytes 2 0x1234).
Proof.
  assert (H : 0 <= 0x1234 < 256 ^ Z.of_nat 2) by (cbn; lia).
  refine (conj H _).
  exact (proj1 (hton_gives_network_order LittleEndian 2) 0x1234 H).
Defined.

(** X3. On either host, swapping twice gives the value back, for every
    value of the width. *)
Theorem endian_swap_twice (h : endianness) (x16 x32 x64 : Z) :
  0 <= x16 <= 65535 ->
  0 <= x32 <= 4294967295 ->
  0 <= x64 <= 18446744073709551615 ->
  tpm2_util_endian_swap_16 h (tpm2_util_endian_swap_16 h x16) = x16 /\
  tpm2_util_endian_swap_32 h (tpm2_util_endian_swap_32 h x32) = x32 /\
  tpm2_util_endian_swap_64 h (tpm2_util_endian_swap_64 h x64) = x64.
Proof.
  intros H16 H32 H64.
  unfold tpm2_util_endian_swap_16, tpm2_util_endian_swap_32,
    tpm2_util_endian_swap_64.
  repeat split; apply endian_swap_involutive.
  - change (256 ^ Z.of_nat 2) with 65536. lia.
  - change (256 ^ Z.of_nat 4) with 4294967296. lia.
  - change (256 ^ Z.of_nat 8) with 18446744073709551616. lia.
Qed.

Lemma endian_swap_twice_witness :
  (0 <= 0x1234 <= 65535 /\ 0 <= 0 <= 4294967295 /\
   0 <= 18446744073709551615 <= 18446744073709551615) /\
  tpm2_util_endian_swap_16 BigEndian
    (tpm2_util_endian_swap_16 BigEndian 0x1234) = 0x1234 /\
  tpm2_util_endian_swap_32 BigEndian
    (tpm2_util_endian_swap_32 BigEndian 0) = 0 /\
  tpm2_util_endian_swap_64 BigEndian
    (tpm2_util_endian_swap_64 BigEndian 18446744073709551615)
    = 18446744073709551615.
Proof.
  split; [lia|].
  apply (endian_swap_twice BigEndian 0x1234 0 18446744073709551615); lia.
Defined.

(** ** Population count *)

Lemma filter_seq_shift (n : nat) : forall (f : nat -> bool) (a : nat),
  length (filter f (seq a n)) =
  length (filter (fun k => f (a + k)%nat) (seq 0 n)).
Proof.
  induction n as [|n IH]; intros f a; [reflexivity|].
  cbn [seq filter]. rewrite Nat.add_0_r.
  assert (H : length (filter f (seq (S a) n)) =
              length (filter (fun k => f (a + k)%nat) (seq 1 n))).
  { rewrite (IH f (S a)), (IH (fun k => f (a + k)%nat) 1%nat).
    f_equal. apply filter_ext. intros k. f_equal. lia. }
  destruct (f a); cbn [length]; now rewrite H.
Qed.

Lemma bits_set_split (n : nat) (x : Z) :
  bits_set (8 + n) x = bits_set 8 (x mod 256) + bits_set n (x / 256).
Proof.
  unfold bits_set. rewrite seq_app, filter_app, length_app, Nat2Z.inj_add.
  f_equal.
  - f_equal. f_equal. apply filter_ext_in. intros k Hk.
    apply in_seq in Hk. change 256 with (2 ^ 8).
    rewrite Z.mod_pow2_bits_low by lia. reflexivity.
  - f_equal. rewrite filter_seq_shift. f_equal. apply filter_ext.
    intros k. change 256 with (2 ^ 8).
    rewrite Z.div_pow2_bits by lia. f_equal. lia.
Qed.

Lemma bits_set_range n x : 0 <= bits_set n x <= Z.of_nat n.
Proof.
  unfold bits_set. split; [lia|].
  apply Nat2Z.inj_le. etransitivity; [apply filter_length_le|].
  now rewrite length_seq.
Qed.

Lemma nibbles_count (b : BYTE) :
  0 <= nth (Z.to_nat (Z.land (Z_of_byte b) 0x0f)) bits_per_nibble 0 <= 4 /\
  nth (Z.to_nat (Z.land (Z_of_byte b) 0x0f)) bits_per_nibble 0 +
  nth (Z.to_nat (Z.shiftr (Z_of_byte b) 4)) bits_per_nibble 0 =
  bits_set 8 (Z_of_byte b).
Proof.
  destruct b; vm_compute; repeat split; discriminate.
Qed.

Lemma pop_count_step_value c b :
  0 <= c <= 247 ->
  pop_count_step c b = c + bits_set 8 (Z_of_byte b).
Proof.
  intros Hc. unfold pop_count_step. cbv zeta.
  destruct (nibbles_count b) as [Hlo Hsum].
  pose proof (bits_set_range 8 (Z_of_byte b)) as Hr.
  rewrite (Z.mod_small (c + _)) by lia.
  rewrite Z.mod_small; lia.
Qed.

(** The sum of the bit counts of the bytes. *)
Lemma pop_count_fold l : forall c,
  0 <= c -> c + 8 * Z.of_nat (length l) <= 255 ->
  fold_left pop_count_step l c =
  c + fold_right (fun b acc => bits_set 8 (Z_of_byte b) + acc) 0 l.
Proof.
  induction l as [|b l IH]; intros c Hc Hlen; cbn [fold_left fold_right].
  - lia.
  - cbn [length] in Hlen. pose proof (bits_set_range 8 (Z_of_byte b)).
    rewrite pop_count_step_value by lia.
    rewrite IH by lia. lia.
Qed.

Lemma bits_sum_rev (l : list BYTE) :
  fold_right (fun b acc => bits_set 8 (Z_of_byte b) + acc) 0 (rev l) =
  fold_right (fun b acc => bits_set 8 (Z_of_byte b) + acc) 0 l.
Proof.
  induction l as [|b l IH]; [reflexivity|].
  cbn [rev fold_right]. rewrite fold_right_app. cbn [fold_right].
  rewrite <- IH. generalize (rev l) as r. intros r.
  induction r as [|a r IHr]; cbn [fold_right]; lia.
Qed.

Lemma bits_sum_le_bytes n : forall v,
  fold_right (fun b acc => bits_set 8 (Z_of_byte b) + acc) 0 (le_bytes n v)
  = bits_set (8 * n) v.
Proof.
  induction n as [|n IH]; intros v; [reflexivity|].
  cbn [le_bytes fold_right].
  replace (8 * S n)%nat with (8 + 8 * n)%nat by lia.
  rewrite bits_set_split, IH, Z_of_byte_of_Z, Z.mod_mod by lia.
  reflexivity.
Qed.

(** X4. [tpm2_util_pop_count] returns the number of bits that are set among
    the 32 bits of its argument, on either host; its 8-bit counter never
    wraps, and the result is at most 32. *)
Theorem pop_count_counts_bits (h : endianness) (data : Z) :
  tpm2_util_pop_count h data = bits_set 32 data /\
  0 <= tpm2_util_pop_count h data <= 32.
Proof.
  assert (G : tpm2_util_pop_count h data = bits_set 32 data).
  { unfold tpm2_util_pop_count. cbv zeta.
    rewrite pop_count_fold
      by (rewrite ?bytes_of_uint_length; cbn; lia).
    destruct h; cbn [bytes_of_uint]; rewrite ?bits_sum_rev;
      rewrite bits_sum_le_bytes; reflexivity. }
  split; [exact G|]. rewrite G. apply (bits_set_range 32).
Qed.

(** ** Appending to a buffer *)

Lemma load_firstn data len :
  0 <= len <= Z.of_nat (length data) ->
  load data 0 len = firstn (Z.to_nat len) data.
Proof.
  intros Hlen. apply nth_ext with (d := x00) (d' := x00).
  - rewrite load_length, length_firstn. lia.
  - intros k Hk. rewrite load_length in Hk. unfold load.
    rewrite nth_map_seq by assumption.
    rewrite nth_firstn_lt by assumption. reflexivity.
Qed.

(** X5. [tpm2_util_concat_buffer] succeeds exactly when both pointers are
    set and the two sizes together do not exceed
    [TPM2_MAX_DIGEST_BUFFER]; the wrap-around test before that never
    fires.  On success the result holds its former bytes followed by the
    appended ones, its size is the sum, and its buffer has the length it
    had; on failure the result is as it was. *)
Theorem concat_buffer_appends (max : Z) (r a : TPM2B) :
  0 <= max <= UINT16_MAX ->
  well_sized r -> well_sized a ->
  Z.of_nat (length (buffer r)) = max ->
  let out := tpm2_util_concat_buffer max (Some r) (Some a) in
  (size r + size a <? size r) = false /\
  (fst out = true <-> size r + size a <= max) /\
  (fst out = false -> snd out = Some r) /\
  (fst out = true ->
   exists r', snd out = Some r' /\
     size r' = size r + size a /\
     content r' = content r ++ content a /\
     length (buffer r') = length (buffer r)).
Proof.
  intros Hmax [Hr Hrl] [Ha Hal] Hcap out. subst out.
  unfold tpm2_util_concat_buffer, UINT16_MAX in *.
  assert (E : (size r + size a <? size r) = false) by lia.
  rewrite E. split; [reflexivity|].
  destruct (size r + size a >? max) eqn:E2; cbn [fst snd].
  - repeat split; try discriminate; try reflexivity. lia.
  - split; [split; [lia | reflexivity]|]. split; [discriminate|].
    intros _. eexists. split; [reflexivity|]. cbn [size buffer].
    assert (Hll : length (load (buffer a) 0 (size a)) = Z.to_nat (size a))
      by apply load_length.
    split; [apply Z.mod_small; lia|]. split.
    + unfold content, write_at. cbn [size buffer].
      rewrite Z.mod_small by lia.
      rewrite load_firstn by lia.
      rewrite Z2Nat.inj_add by lia.
      rewrite app_assoc.
      rewrite firstn_app.
      rewrite length_app, !length_firstn.
      replace (Z.to_nat (size r) + Z.to_nat (size a)
               - (Init.Nat.min (Z.to_nat (size r)) (length (buffer r))
                  + Init.Nat.min (Z.to_nat (size a)) (length (buffer a))))%nat
        with 0%nat by lia.
      cbn [firstn]. rewrite app_nil_r.
      apply firstn_all2. rewrite length_app, !length_firstn. lia.
    + unfold write_at. rewrite !length_app, length_firstn, length_skipn.
      rewrite Hll. lia.
Qed.

Lemma concat_buffer_appends_witness :
  let r := mkTPM2B 2 [x01; x02; x00; x00] in
  let a := mkTPM2B 1 [xaa] in
  (0 <= 4 <= UINT16_MAX /\ well_sized r /\ well_sized a /\
   Z.of_nat (length (buffer r)) = 4) /\
  (fst (tpm2_util_concat_buffer 4 (Some r) (Some a)) = true
   <-> size r + size a <= 4).
Proof.
  intros r a.
  assert (H1 : 0 <= 4 <= UINT16_MAX) by (vm_compute; split; discriminate).
  assert (H2 : well_sized r) by (vm_compute; repeat split; discriminate).
  assert (H3 : well_sized a) by (vm_compute; repeat split; discriminate).
  assert (H4 : Z.of_nat (length (buffer r)) = 4) by reflexivity.
  refine (conj (conj H1 (conj H2 (conj H3 H4))) _).
  exact (proj1 (proj2 (concat_buffer_appends 4 r a H1 H2 H3 H4))).
Defined.

(** X6. Appending twice: after a successful append of [a], appending [b]
    succeeds exactly when the three sizes together fit, and the result
    then holds the bytes of the three in order, in a buffer of the same
    length. *)
Theorem concat_buffer_twice (max : Z) (r a b : TPM2B) :
  0 <= max <= UINT16_MAX ->
  well_sized r -> well_sized a -> well_sized b ->
  Z.of_nat (length (buffer r)) = max ->
  let out1 := tpm2_util_concat_buffer max (Some r) (Some a) in
  let out2 := tpm2_util_concat_buffer max (snd out1) (Some b) in
  fst out1 = true ->
  (fst out2 = true <-> size r + size a + size b <= max) /\
  (fst out2 = true ->
   exists r', snd out2 = Some r' /\
     size r' = size r + size a + size b /\
     content r' = content r ++ content a ++ content b /\
     length (buffer r') = length (buffer r)).
Proof.
  intros Hmax Hr Ha Hb Hcap out1 out2 Hok1.
  destruct (concat_buffer_appends max r a Hmax Hr Ha Hcap)
    as (_ & Hiff1 & _ & Hres1).
  fold out1 in Hiff1, Hres1.
  destruct (Hres1 Hok1) as (r1 & Hr1 & Hs1 & Hc1 & Hl1).
  apply Hiff1 in Hok1.
  assert (Hr1w : well_sized r1).
  { destruct Hr as [Hr _], Ha as [Ha _]. unfold well_sized, UINT16_MAX in *.
    rewrite Hl1. lia. }
  assert (Hcap1 : Z.of_nat (length (buffer r1)) = max) by now rewrite Hl1.
  destruct (concat_buffer_appends max r1 b Hmax Hr1w Hb Hcap1)
    as (_ & Hiff2 & _ & Hres2).
  subst out2. rewrite Hr1. rewrite Hs1 in *. split; [exact Hiff2|].
  intros Hok2. destruct (Hres2 Hok2) as (r2 & Hr2 & Hs2 & Hc2 & Hl2).
  exists r2. repeat split; try assumption.
  - now rewrite Hc2, Hc1, <- app_assoc.
  - now rewrite Hl2.
Qed.

Lemma concat_buffer_twice_witness :
  let r := mkTPM2B 1 [x01; x00; x00; x00] in
  let a := mkTPM2B 1 [xaa] in
  let b := mkTPM2B 2 [xbb; xcc] in
  (0 <= 4 <= UINT16_MAX /\ well_sized r /\ well_sized a /\ well_sized b /\
   Z.of_nat (length (buffer r)) = 4 /\
   fst (tpm2_util_concat_buffer 4 (Some r) (Some a)) = true) /\
  (fst (tpm2_util_concat_buffer 4
          (snd (tpm2_util_concat_buffer 4 (Some r) (Some a))) (Some b))
   = true <-> size r + size a + size b <= 4).
Proof.
  intros r a b.
  assert (H1 : 0 <= 4 <= UINT16_MAX) by (vm_compute; split; discriminate).
  assert (H2 : well_sized r) by (vm_compute; repeat split; discriminate).
  assert (H3 : well_sized a) by (vm_compute; repeat split; discriminate).
  assert (H4 : well_sized b) by (vm_compute; repeat split; discriminate).
  assert (H5 : Z.of_nat (length (buffer r)) = 4) by reflexivity.
  assert (H6 : fst (tpm2_util_concat_buffer 4 (Some r) (Some a)) = true)
    by reflexivity.
  refine (conj (conj H1 (conj H2 (conj H3 (conj H4 (conj H5 H6))))) _).
  exact (proj1 (concat_buffer_twice 4 r a b H1 H2 H3 H4 H5 H6)).
Defined.

(** ** Hexadecimal strings *)

Module HexFacts.

Import Hex.

Lemma all_xdigits_forallb s : forall pre,
  all_xdigits (pre ++ s) (length pre) (length s) = forallb isxdigit s.
Proof.
  induction s as [|c s IH]; intros pre; [reflexivity|].
  cbn [length all_xdigits forallb].
  rewrite app_nth2, Nat.sub_diag by lia. cbn [nth].
  destruct (isxdigit c); cbn [negb andb]; [|reflexivity].
  specialize (IH (pre ++ [c])).
  rewrite <- app_assoc, length_app in IH. cbn [app length] in IH.
  rewrite Nat.add_1_r in IH. exact IH.
Qed.

Lemma hex_value_range c : 0 <= hex_value c <= 15.
Proof.
  destruct c as [[] [] [] [] [] [] [] []]; vm_compute; split; discriminate.
Qed.

Lemma strtol16_two_digits c1 c2 :
  isxdigit c1 = true -> isxdigit c2 = true ->
  byte_of_Z (strtol16 0 [c1; c2]) = byte_of_digits c1 c2.
Proof.
  intros H1 H2. cbn [strtol16]. rewrite H1, H2. unfold byte_of_digits.
  f_equal; lia.
Qed.

Lemma bytes_of_hex_length n : forall s,
  length s = (2 * n)%nat -> length (bytes_of_hex s) = n.
Proof.
  induction n as [|n IH]; intros s Hs.
  - now destruct s.
  - destruct s as [|c1 [|c2 s]]; cbn [length] in Hs; try lia.
    cbn [bytes_of_hex length]. rewrite IH; lia.
Qed.

Lemma store_firstn buf i v :
  (i < length buf)%nat -> firstn (S i) (store buf i v) = firstn i buf ++ [v].
Proof.
  intros Hi. unfold store. rewrite firstn_app, length_firstn.
  replace (S i - Init.Nat.min i (length buf))%nat with 1%nat by lia.
  rewrite firstn_all2 by (rewrite length_firstn; lia).
  reflexivity.
Qed.

Lemma store_skipn buf i v k :
  (i < length buf)%nat -> (i < k)%nat ->
  skipn k (store buf i v) = skipn k buf.
Proof.
  intros Hi Hk. unfold store. rewrite skipn_app, length_firstn.
  rewrite (skipn_all2 (firstn i buf)) by (rewrite length_firstn; lia).
  replace (k - Init.Nat.min i (length buf))%nat with (S (k - S i)) by lia.
  cbn [app]. rewrite skipn_cons, skipn_skipn. f_equal. lia.
Qed.

Lemma store_length buf i v :
  (i < length buf)%nat -> length (store buf i v) = length buf.
Proof.
  intros Hi. unfold store.
  rewrite !length_app, length_firstn, length_skipn. cbn [length]. lia.
Qed.

(** The second loop writes the bytes of the digits and nothing else. *)
Lemma convert_bytes n : forall rest pre buf i,
  length pre = (i * 2)%nat ->
  length rest = (2 * n)%nat ->
  forallb isxdigit rest = true ->
  (i + n <= length buf)%nat ->
  convert (pre ++ rest) buf i n =
  firstn i buf ++ bytes_of_hex rest ++ skipn (i + n) buf.
Proof.
  induction n as [|n IH]; intros rest pre buf i Hpre Hrest Hx Hbuf.
  - destruct rest; [|discriminate]. cbn [convert bytes_of_hex app].
    rewrite Nat.add_0_r. symmetry. apply firstn_skipn.
  - destruct rest as [|c1 [|c2 rest]]; cbn [length] in Hrest; try lia.
    cbn [forallb] in Hx.
    apply andb_prop in Hx. destruct Hx as [Hx1 Hx].
    apply andb_prop in Hx. destruct Hx as [Hx2 Hx].
    cbn [convert]. cbv zeta.
    rewrite (app_nth2 pre), <- Hpre, Nat.sub_diag by lia.
    rewrite (app_nth2 pre) by lia.
    replace (length pre + 1 - length pre)%nat with 1%nat by lia.
    cbn [nth]. rewrite strtol16_two_digits by assumption.
    replace (pre ++ c1 :: c2 :: rest) with ((pre ++ [c1; c2]) ++ rest)
      by (now rewrite <- app_assoc).
    rewrite IH; try assumption.
    + rewrite store_firstn by lia.
      rewrite store_skipn by lia.
      cbn [bytes_of_hex]. rewrite <- !app_assoc. cbn [app].
      replace (S i + n)%nat with (i + S n)%nat by lia. reflexivity.
    + rewrite length_app. cbn [length]. lia.
    + lia.
    + rewrite store_length by lia. lia.
Qed.

Lemma hexdump2_loop_flat_map d : forall pre post f,
  hexdump2_loop f (pre ++ d ++ post) (length pre) (length d) =
  f ++ flat_map fprintf_02x d.
Proof.
  induction d as [|b d IH]; intros pre post f.
  - cbn. now rewrite app_nil_r.
  - cbn [length hexdump2_loop flat_map].
    rewrite app_nth2, Nat.sub_diag by lia. cbn [app nth].
    specialize (IH (pre ++ [b]) post (f ++ fprintf_02x b)).
    rewrite <- (app_assoc pre), length_app in IH. cbn [app length] in IH.
    rewrite Nat.add_1_r in IH. rewrite IH. now rewrite <- app_assoc.
Qed.

Lemma fprintf_02x_parses b :
  forallb isxdigit (fprintf_02x b) = true /\
  bytes_of_hex (fprintf_02x b) = [b].
Proof. destruct b; vm_compute; split; reflexivity. Qed.

Lemma hexdump_parses data :
  length (flat_map fprintf_02x data) = (2 * length data)%nat /\
  forallb isxdigit (flat_map fprintf_02x data) = true /\
  bytes_of_hex (flat_map fprintf_02x data) = data.
Proof.
  induction data as [|b data (IH1 & IH2 & IH3)]; [now cbn|].
  cbn [flat_map]. destruct (fprintf_02x_parses b) as [Hx Hb].
  assert (E : exists x y, fprintf_02x b = [x; y]) by (now do 2 eexists).
  destruct E as (x & y & E). rewrite E in *.
  cbn [app length forallb bytes_of_hex] in *.
  rewrite IH1, IH2, IH3.
  repeat split; try lia.
  - apply andb_prop in Hx. destruct Hx as [-> Hx].
    apply andb_prop in Hx. destruct Hx as [-> _]. reflexivity.
  - now injection Hb as ->.
Qed.

Lemma hex_digit_of_value c :
  isxdigit c = true ->
  nth (Z.to_nat (hex_value c)) hex_digits Ascii.zero = tolower c.
Proof.
  destruct c as [[] [] [] [] [] [] [] []]; vm_compute;
    intros H; try discriminate H; reflexivity.
Qed.

Lemma fprintf_02x_of_digits c1 c2 :
  isxdigit c1 = true -> isxdigit c2 = true ->
  fprintf_02x (byte_of_digits c1 c2) = [tolower c1; tolower c2].
Proof.
  intros H1 H2. unfold fprintf_02x, byte_of_digits.
  pose proof (hex_value_range c1). pose proof (hex_value_range c2).
  rewrite Z_of_byte_of_Z, (Z.mod_small _ 256) by lia.
  replace ((16 * hex_value c1 + hex_value c2) / 16) with (hex_value c1)
    by (Z.div_mod_to_equations; lia).
  replace ((16 * hex_value c1 + hex_value c2) mod 16) with (hex_value c2)
    by (Z.div_mod_to_equations; lia).
  now rewrite !hex_digit_of_value.
Qed.

Lemma hexdump_of_parsed n : forall s,
  length s = (2 * n)%nat -> forallb isxdigit s = true ->
  flat_map fprintf_02x (bytes_of_hex s) = map tolower s.
Proof.
  induction n as [|n IH]; intros s Hs Hx.
  - now destruct s.
  - destruct s as [|c1 [|c2 s]]; cbn [length] in Hs; try lia.
    cbn [forallb] in Hx.
    apply andb_prop in Hx. destruct Hx as [Hx1 Hx].
    apply andb_prop in Hx. destruct Hx as [Hx2 Hx].
    cbn [bytes_of_hex flat_map map].
    rewrite fprintf_02x_of_digits by assumption.
    cbn [app]. rewrite IH by (assumption || lia). reflexivity.
Qed.

Lemma all_xdigits_whole s :
  all_xdigits s 0 (length s) = forallb isxdigit s.
Proof. exact (all_xdigits_forallb s []). Qed.

Lemma convert_whole n s buf :
  length s = (2 * n)%nat -> forallb isxdigit s = true ->
  (n <= length buf)%nat ->
  convert s buf 0 n = bytes_of_hex s ++ skipn n buf.
Proof.
  intros Hs Hx Hbuf.
  exact (convert_bytes n s [] buf 0 eq_refl Hs Hx Hbuf).
Qed.

Lemma hexdump2_whole data :
  hexdump2_loop [] data 0 (length data) = flat_map fprintf_02x data.
Proof.
  pose proof (hexdump2_loop_flat_map data [] [] []) as H.
  now rewrite app_nil_r in H.
Qed.

Lemma hex_to_byte_success_core (n : nat) (s : cstring) (len : Z)
    (buf : list BYTE) :
  length s = (2 * n)%nat -> forallb isxdigit s = true ->
  Z.of_nat n <= len <= UINT16_MAX -> (n <= length buf)%nat ->
  tpm2_util_hex_to_byte_structure (Some s) (Some len) (Some buf) =
  (0, Some (Z.of_nat n), Some (bytes_of_hex s ++ skipn n buf)).
Proof.
  intros Hs Hx Hlen Hbuf.
  unfold tpm2_util_hex_to_byte_structure, UINT16_MAX in *.
  cbv zeta. rewrite Hs.
  replace (Z.of_nat (2 * n)) with (Z.of_nat n * 2) by lia.
  rewrite Z.mod_mul, Z.div_mul by lia. cbn [Z.eqb negb].
  replace (Z.to_nat (Z.of_nat n * 2)) with (length s) by lia.
  rewrite all_xdigits_whole, Hx. cbn [negb].
  destruct (len <? Z.of_nat n) eqn:E; [lia|].
  rewrite Z.mod_small by lia. rewrite Nat2Z.id.
  rewrite (convert_whole n) by assumption.
  reflexivity.
Qed.

(** X7. The return code of [tpm2_util_hex_to_byte_structure] on non-null
    arguments: -2 for a string of odd length, else -3 for a string with a
    character that is not a hexadecimal digit, else -4 when the capacity
    given in [*byteLength] is less than half the length, else 0; and
    whenever the code is not 0, [*byteLength] and the buffer are as they
    were. *)
Theorem hex_to_byte_return_code (s : cstring) (len : Z) (buf : list BYTE) :
  let out := tpm2_util_hex_to_byte_structure (Some s) (Some len) (Some buf) in
  fst (fst out) =
    (if Z.odd (Z.of_nat (length s)) then -2
     else if negb (forallb isxdigit s) then -3
     else if len <? Z.of_nat (length s) / 2 then -4
     else 0) /\
  (fst (fst out) <> 0 -> snd (fst out) = Some len /\ snd out = Some buf).
Proof.
  unfold tpm2_util_hex_to_byte_structure. cbv zeta.
  rewrite Nat2Z.id, all_xdigits_whole.
  rewrite Zmod_odd.
  destruct (Z.odd (Z.of_nat (length s))); cbn [Z.eqb negb fst snd];
    [split; [reflexivity | now split]|].
  destruct (forallb isxdigit s); cbn [negb fst snd];
    [|split; [reflexivity | now split]].
  destruct (len <? Z.of_nat (length s) / 2); cbn [fst snd];
    split; try reflexivity; try (now split).
Qed.

Lemma hex_to_byte_return_code_witness :
  let out := tpm2_util_hex_to_byte_structure
               (Some (list_ascii_of_string "a1b")) (Some 8)
               (Some (repeat x00 8)) in
  fst (fst out) <> 0 /\
  snd (fst out) = Some 8 /\ snd out = Some (repeat x00 8).
Proof.
  intros out.
  assert (H : fst (fst out) <> 0) by (vm_compute; discriminate).
  refine (conj H _).
  exact (proj2 (hex_to_byte_return_code (list_ascii_of_string "a1b") 8
                  (repeat x00 8)) H).
Defined.

(** X8. When the function returns 0, given a [UINT16] capacity that the
    buffer really has, [*byteLength] is half the length of the string, the
    buffer starts with the bytes that the pairs of digits stand for (upper
    or lower case), and its other bytes are as they were. *)
Theorem hex_to_byte_success (s : cstring) (len : Z) (buf : list BYTE) :
  0 <= len <= UINT16_MAX -> len <= Z.of_nat (length buf) ->
  let out := tpm2_util_hex_to_byte_structure (Some s) (Some len) (Some buf) in
  fst (fst out) = 0 ->
  snd (fst out) = Some (Z.of_nat (length s) / 2) /\
  snd out =
    Some (bytes_of_hex s ++ skipn (Z.to_nat (Z.of_nat (length s) / 2)) buf) /\
  length (bytes_of_hex s) = Z.to_nat (Z.of_nat (length s) / 2).
Proof.
  intros Hlen Hbuf out Hrc.
  destruct (hex_to_byte_return_code s len buf) as [Hcode _].
  fold out in Hcode. rewrite Hrc in Hcode.
  destruct (Z.odd (Z.of_nat (length s))) eqn:Hodd; [discriminate|].
  destruct (forallb isxdigit s) eqn:Hx; [|discriminate].
  cbn [negb] in Hcode.
  destruct (len <? Z.of_nat (length s) / 2) eqn:Hcap; [discriminate|].
  assert (Hev : Z.of_nat (length s) mod 2 = 0)
    by (rewrite Zmod_odd, Hodd; reflexivity).
  set (n := Z.to_nat (Z.of_nat (length s) / 2)).
  assert (Hn : length s = (2 * n)%nat)
    by (subst n; Z.div_mod_to_equations; lia).
  assert (Hn' : Z.of_nat (length s) / 2 = Z.of_nat n)
    by (subst n; Z.div_mod_to_equations; lia).
  subst out.
  rewrite (hex_to_byte_success_core n s len buf) by (assumption || lia).
  cbn [fst snd]. rewrite Hn'.
  repeat split. now apply bytes_of_hex_length.
Qed.

Lemma hex_to_byte_success_witness :
  let s := list_ascii_of_string "dEadBeef" in
  let out := tpm2_util_hex_to_byte_structure (Some s) (Some 8)
               (Some (repeat x00 8)) in
  (0 <= 8 <= UINT16_MAX /\ 8 <= Z.of_nat (length (repeat x00 8)) /\
   fst (fst out) = 0) /\
  snd (fst out) = Some (Z.of_nat (length s) / 2).
Proof.
  intros s out.
  assert (H1 : 0 <= 8 <= UINT16_MAX) by (vm_compute; split; discriminate).
  assert (H2 : 8 <= Z.of_nat (length (repeat x00 8)))
    by (vm_compute; discriminate).
  assert (H3 : fst (fst out) = 0) by reflexivity.
  refine (conj (conj H1 (conj H2 H3)) _).
  exact (proj1 (hex_to_byte_success s 8 (repeat x00 8) H1 H2 H3)).
Defined.

(** X9. Round trip: what [tpm2_util_hexdump2] prints for [data] is read
    back by [tpm2_util_hex_to_byte_structure] as [data], whenever the
    capacity is enough. *)
Theorem hexdump_then_parse (data : list BYTE) (len : Z) (buf : list BYTE) :
  Z.of_nat (length data) <= len <= UINT16_MAX ->
  len <= Z.of_nat (length buf) ->
  tpm2_util_hex_to_byte_structure
    (Some (tpm2_util_hexdump2 [] data (length data))) (Some len) (Some buf) =
  (0, Some (Z.of_nat (length data)),
   Some (data ++ skipn (length data) buf)).
Proof.
  intros Hlen Hbuf. unfold tpm2_util_hexdump2.
  rewrite hexdump2_whole.
  destruct (hexdump_parses data) as (Hl & Hx & Hb).
  rewrite (hex_to_byte_success_core (length data)) by (assumption || lia).
  now rewrite Hb.
Qed.

Lemma hexdump_then_parse_witness :
  (Z.of_nat (length [xde; xad]) <= 4 <= UINT16_MAX /\
   4 <= Z.of_nat (length (repeat xff 4))) /\
  tpm2_util_hex_to_byte_structure
    (Some (tpm2_util_hexdump2 [] [xde; xad] 2)) (Some 4)
    (Some (repeat xff 4)) =
  (0, Some 2, Some [xde; xad; xff; xff]).
Proof.
  assert (H1 : Z.of_nat (length [xde; xad]) <= 4 <= UINT16_MAX)
    by (vm_compute; split; discriminate).
  assert (H2 : 4 <= Z.of_nat (length (repeat xff 4)))
    by (vm_compute; discriminate).
  refine (conj (conj H1 H2) _).
  exact (hexdump_then_parse [xde; xad] 4 (repeat xff 4) H1 H2).
Defined.

(** X10. The other way round: when a string is accepted, printing the
    bytes read with [tpm2_util_hexdump2] gives the string back in lower
    case. *)
Theorem parse_then_hexdump (s : cstring) (len : Z) (buf : list BYTE) :
  0 <= len <= UINT16_MAX -> len <= Z.of_nat (length buf) ->
  forall len' buf',
    tpm2_util_hex_to_byte_structure (Some s) (Some len) (Some buf) =
    (0, Some len', Some buf') ->
    tpm2_util_hexdump2 [] buf' (Z.to_nat len') = map tolower s.
Proof.
  intros Hlen Hbuf len' buf' Hrun.
  pose proof (hex_to_byte_success s len buf Hlen Hbuf) as H.
  cbv zeta in H. rewrite Hrun in H. cbn [fst snd] in H.
  destruct (H eq_refl) as (Hl' & Hb' & Hbl).
  injection Hl' as ->. injection Hb' as ->.
  destruct (hex_to_byte_return_code s len buf) as [Hcode _].
  cbv zeta in Hcode. rewrite Hrun in Hcode. cbn [fst] in Hcode.
  destruct (Z.odd (Z.of_nat (length s))) eqn:Hodd; [discriminate|].
  destruct (forallb isxdigit s) eqn:Hx; [|discriminate].
  assert (Hev : Z.of_nat (length s) mod 2 = 0)
    by (rewrite Zmod_odd, Hodd; reflexivity).
  unfold tpm2_util_hexdump2.
  pose proof (hexdump2_loop_flat_map (bytes_of_hex s) []
                (skipn (Z.to_nat (Z.of_nat (length s) / 2)) buf) []) as Hd.
  cbn [app length] in Hd. rewrite Hbl in Hd. rewrite Hd.
  apply (hexdump_of_parsed (Z.to_nat (Z.of_nat (length s) / 2)));
    [Z.div_mod_to_equations; lia | exact Hx].
Qed.

Lemma parse_then_hexdump_witness :
  let s := list_ascii_of_string "dEadBeef" in
  (0 <= 8 <= UINT16_MAX /\ 8 <= Z.of_nat (length (repeat x00 8)) /\
   tpm2_util_hex_to_byte_structure (Some s) (Some 8)
     (Some (repeat x00 8)) =
   (0, Some 4, Some ([xde; xad; xbe; xef] ++ repeat x00 4))) /\
  tpm2_util_hexdump2 [] ([xde; xad; xbe; xef] ++ repeat x00 4)
    (Z.to_nat 4) = map tolower s.
Proof.
  intros s.
  assert (H1 : 0 <= 8 <= UINT16_MAX) by (vm_compute; split; discriminate).
  assert (H2 : 8 <= Z.of_nat (length (repeat x00 8)))
    by (vm_compute; discriminate).
  assert (H3 : tpm2_util_hex_to_byte_structure (Some s) (Some 8)
                 (Some (repeat x00 8)) =
               (0, Some 4, Some ([xde; xad; xbe; xef] ++ repeat x00 4)))
    by reflexivity.
  refine (conj (conj H1 (conj H2 H3)) _).
  exact (parse_then_hexdump s 8 (repeat x00 8) H1 H2 _ _ H3).
Defined.

End HexFacts.

(** ** Numbers on the command line *)

Section StringToUintFacts.

Variable strtoul : Hex.cstring -> Z -> N * Hex.cstring * Z.

Lemma string_to_uint32_range str v :
  tpm2_util_string_to_uint32 strtoul str = Some v -> 0 <= v <= UINT32_MAX.
Proof.
  unfold tpm2_util_string_to_uint32, UINT32_MAX, UINT32_MOD.
  destruct str as [[|c s]|]; try discriminate.
  destruct (strtoul (c :: s) 0) as [[tmp endptr] errno].
  destruct (negb (errno =? 0) || (Z.of_N tmp >? 4294967295)) eqn:E;
    [discriminate|].
  destruct endptr; [|discriminate]. intros [= <-].
  apply orb_false_elim in E. destruct E as [_ E].
  rewrite Z.mod_small; lia.
Qed.

(** X11. The three conversions agree and never truncate: the 8-bit (16-bit)
    conversion succeeds exactly when the 32-bit one succeeds with a value
    of at most 255 (65535), and returns that value; a value is accepted
    only when [strtoul] set no error, consumed the whole string and
    returned at most [UINT32_MAX]; a null or empty string is rejected. *)
Theorem string_to_uint_agree (str : option Hex.cstring) (v : Z) :
  (tpm2_util_string_to_uint8 strtoul str = Some v <->
   tpm2_util_string_to_uint32 strtoul str = Some v /\ v <= UINT8_MAX) /\
  (tpm2_util_string_to_uint16 strtoul str = Some v <->
   tpm2_util_string_to_uint32 strtoul str = Some v /\ v <= UINT16_MAX) /\
  (tpm2_util_string_to_uint32 strtoul str = Some v ->
   exists s, str = Some s /\ s <> [] /\
     strtoul s 0 = (Z.to_N v, [], 0) /\ 0 <= v <= UINT32_MAX) /\
  tpm2_util_string_to_uint32 strtoul None = None /\
  tpm2_util_string_to_uint32 strtoul (Some []) = None.
Proof.
  unfold tpm2_util_string_to_uint8, tpm2_util_string_to_uint16.
  pose proof (string_to_uint32_range str) as Hr.
  unfold UINT8_MAX, UINT16_MAX, UINT32_MAX in *.
  split; [|split; [|split; [|split; reflexivity]]].
  - destruct (tpm2_util_string_to_uint32 strtoul str) as [tmp|];
      [|split; [discriminate | intros [H _]; discriminate]].
    specialize (Hr tmp eq_refl).
    destruct (tmp >? 255) eqn:E; split.
    + discriminate.
    + intros [[= ->] H]. lia.
    + intros [= <-]. rewrite Z.mod_small by lia. split; [reflexivity|lia].
    + intros [[= ->] H]. now rewrite Z.mod_small by lia.
  - destruct (tpm2_util_string_to_uint32 strtoul str) as [tmp|];
      [|split; [discriminate | intros [H _]; discriminate]].
    specialize (Hr tmp eq_refl).
    destruct (tmp >? 65535) eqn:E; split.
    + discriminate.
    + intros [[= ->] H]. lia.
    + intros [= <-]. rewrite Z.mod_small by lia. split; [reflexivity|lia].
    + intros [[= ->] H]. now rewrite Z.mod_small by lia.
  - intros H. specialize (Hr v H).
    unfold tpm2_util_string_to_uint32, UINT32_MAX, UINT32_MOD in H.
    destruct str as [[|c s]|]; try discriminate.
    exists (c :: s). split; [reflexivity|]. split; [discriminate|].
    destruct (strtoul (c :: s) 0) as [[tmp endptr] errno].
    destruct (negb (errno =? 0) || (Z.of_N tmp >? 4294967295)) eqn:E;
      [discriminate|].
    destruct endptr; [|discriminate]. injection H as <-.
    apply orb_false_elim in E. destruct E as [E1 E2].
    apply negb_false_iff, Z.eqb_eq in E1. subst errno.
    rewrite Z.mod_small by lia. rewrite N2Z.id. split; [reflexivity|lia].
Qed.

(** X12. The argument of [tpm2_clearcontrol]: it is accepted only when it
    is alone, and then [disable_clear] is 1 for "s", 0 for "c", and
    otherwise the number 0 or 1 that the string converts to; when it is
    rejected, [disable_clear] is as it was. *)
Theorem clearcontrol_on_arg_result (argv : list Hex.cstring) (old : Z) :
  let out := clearcontrol_on_arg strtoul argv old in
  (fst out = false -> snd out = old) /\
  (fst out = true ->
   exists arg, argv = [arg] /\ (snd out = 0 \/ snd out = 1) /\
     (arg = list_ascii_of_string "s" -> snd out = 1) /\
     (arg = list_ascii_of_string "c" -> snd out = 0) /\
     (arg <> list_ascii_of_string "s" ->
      arg <> list_ascii_of_string "c" ->
      tpm2_util_string_to_uint32 strtoul (Some arg) = Some (snd out))).
Proof.
  unfold clearcontrol_on_arg, streq. cbv zeta.
  destruct argv as [|arg [|arg2 argv]]; cbn [length nth].
  - cbn. split; [reflexivity | discriminate].
  - cbn [Z.of_nat Pos.of_succ_nat Z.gtb Z.compare Pos.compare
         Pos.compare_cont Z.eqb].
    destruct (list_eq_dec Ascii.ascii_dec arg (list_ascii_of_string "s"))
      as [->|Hs].
    { cbn [fst snd]. split; [discriminate|]. intros _.
      eexists. split; [reflexivity|]. repeat split; auto.
      - discriminate.
      - intros H. now elim H. }
    destruct (list_eq_dec Ascii.ascii_dec arg (list_ascii_of_string "c"))
      as [->|Hc].
    { cbn [fst snd]. split; [discriminate|]. intros _.
      eexists. split; [reflexivity|]. repeat split; auto.
      - discriminate.
      - intros _ H. now elim H. }
    destruct (tpm2_util_string_to_uint32 strtoul (Some arg)) as [value|]
      eqn:Hconv; [|cbn; split; [reflexivity | discriminate]].
    destruct (negb (value =? 0) && negb (value =? 1)) eqn:E; cbn [fst snd];
      [split; [reflexivity | discriminate]|].
    split; [discriminate|]. intros _.
    assert (Hv : value = 0 \/ value = 1) by lia.
    assert (Hm : value mod 256 = value)
      by (destruct Hv as [-> | ->]; reflexivity).
    rewrite Hm.
    exists arg. split; [reflexivity|]. split; [exact Hv|].
    split; [intros H; contradiction|].
    split; [intros H; contradiction|]. intros _ _. exact Hconv.
  - assert (Hgt : (Z.of_nat (S (S (length argv))) >? 1) = true)
      by (apply Z.gtb_lt; lia).
    rewrite Hgt. cbn [fst snd]. split; [reflexivity | discriminate].
Qed.

End StringToUintFacts.

Lemma clearcontrol_on_arg_result_witness :
  let strtoul := fun (_ : Hex.cstring) (_ : Z) => (1%N, @nil Ascii.ascii, 0) in
  let out := clearcontrol_on_arg strtoul [list_ascii_of_string "1"] 0 in
  fst out = true /\
  exists arg, [list_ascii_of_string "1"] = [arg] /\
              (snd out = 0 \/ snd out = 1).
Proof.
  intros strtoul out.
  assert (H : fst out = true) by reflexivity.
  refine (conj H _).
  destruct (proj2 (clearcontrol_on_arg_result strtoul
                     [list_ascii_of_string "1"] 0) H)
    as (arg & Harg & Hv & _).
  exists arg. exact (conj Harg Hv).
Defined.

(** ** More on the decoder *)

Lemma bind_success (m k : Decoder.M unit) s s' :
  (m ;; k) s = (Some tt, s') ->
  exists s1, m s = (Some tt, s1) /\ k s1 = (Some tt, s').
Proof.
  unfold bind. destruct (m s) as [[[]|] s1]; [|discriminate].
  intros H. now exists s1.
Qed.

Lemma header_success q s s' :
  Reference.header q s = (Some tt, s') ->
  6 <= size q /\ Decoder.i s' = Decoder.i s + 4 + 2 /\ same_outputs s s' /\
  Reference.field q (Decoder.i s + 4) 2 = TPM2_ST_ATTEST_QUOTE.
Proof.
  unfold Reference.header, Reference.err. cbv zeta.
  destruct (size q <? 6) eqn:E; [discriminate|].
  destruct (negb (Reference.field q (Decoder.i s) 4 =? TPM2_GENERATED_VALUE));
    [discriminate|].
  destruct (negb (Reference.field q (Decoder.i s + 4) 2
                  =? TPM2_ST_ATTEST_QUOTE)) eqn:E2; [discriminate|].
  apply negb_false_iff, Z.eqb_eq in E2.
  intros [= <-]. unfold same_outputs.
  cbn [Decoder.i Decoder.digest Decoder.extraData Decoder.trace Decoder.log].
  repeat split; try reflexivity; lia.
Qed.

Lemma qualified_signer_name_success q s s' :
  Reference.qualified_signer_name q s = (Some tt, s') ->
  Decoder.i s + 2 < size q /\
  Decoder.i s' = Decoder.i s + 2 + Reference.field q (Decoder.i s) 2 /\
  same_outputs s s'.
Proof.
  unfold Reference.qualified_signer_name.
  destruct (Decoder.i s + 2 >=? size q) eqn:E; [discriminate|].
  intros [= <-]. unfold same_outputs.
  cbn [Decoder.i Decoder.digest Decoder.extraData Decoder.trace Decoder.log].
  repeat split; try reflexivity; lia.
Qed.

Lemma extra_data_success q s s' :
  Reference.extra_data q s = (Some tt, s') ->
  let n := Reference.field q (Decoder.i s) 2 in
  Decoder.i s + 2 < size q /\ Decoder.i s + 2 + n <= size q /\
  Decoder.i s' = Decoder.i s + 2 + n /\
  Decoder.digest s' = Decoder.digest s /\ Decoder.log s' = Decoder.log s /\
  Decoder.extraData s' =
    mkTPM2B n (overwrite (load (attestationData q) (Decoder.i s + 2) n)
                 (buffer (Decoder.extraData s))).
Proof.
  unfold Reference.extra_data. cbv zeta.
  destruct (Decoder.i s + 2 >=? size q) eqn:E; [discriminate|].
  destruct (Reference.field q (Decoder.i s) 2 + (Decoder.i s + 2) >? size q)
    eqn:E'; [discriminate|].
  intros [= <-].
  cbn [Decoder.i Decoder.digest Decoder.extraData Decoder.trace Decoder.log].
  repeat split; try reflexivity; lia.
Qed.

Lemma skip_success q k msg s s' :
  Reference.skip q k msg s = (Some tt, s') ->
  Decoder.i s' = Decoder.i s + k /\ Decoder.i s' < size q /\
  same_outputs s s'.
Proof.
  unfold Reference.skip. cbv zeta.
  destruct (Decoder.i s + k >=? size q) eqn:E; [discriminate|].
  intros [= <-]. unfold same_outputs.
  cbn [Decoder.i Decoder.digest Decoder.extraData Decoder.trace Decoder.log].
  repeat split; try reflexivity; lia.
Qed.

Lemma skip_selections_lower q n : forall off,
  off + 3 * Z.of_nat n <= skip_selections q n off.
Proof.
  induction n as [|n IH]; intros off; cbn [skip_selections]; [lia|].
  pose proof (field_range8 q (off + 2)).
  specialize (IH (off + 2 + 1 + Reference.field q (off + 2) 1)). lia.
Qed.

Lemma pcr_select_loop_success q n : forall s s',
  Reference.pcr_select_loop q n s = (Some tt, s') ->
  Decoder.i s' = skip_selections q n (Decoder.i s) /\ same_outputs s s'.
Proof.
  induction n as [|n IH]; intros s s';
    cbn [Reference.pcr_select_loop skip_selections].
  - intros [= <-]. unfold same_outputs. repeat split.
  - cbv zeta.
    destruct (Decoder.i s + 2 >=? size q) eqn:E1; [discriminate|].
    destruct (Decoder.i s + 2 + 1 >=? size q) eqn:E2; [discriminate|].
    destruct (Decoder.i s + 2 + 1
              + Reference.field q (Decoder.i s + 2) 1 >=? size q) eqn:E3;
      [discriminate|].
    intros Hrun. apply IH in Hrun. cbn [Decoder.i] in Hrun.
    unfold same_outputs in *.
    cbn [Decoder.i Decoder.digest Decoder.extraData Decoder.trace Decoder.log]
      in Hrun.
    exact Hrun.
Qed.

Lemma pcr_select_info_success q s s' :
  Reference.pcr_select_info q s = (Some tt, s') ->
  Decoder.i s + 4 < size q /\
  Decoder.i s' =
    skip_selections q (Z.to_nat (Reference.field q (Decoder.i s) 4))
      (Decoder.i s + 4) /\
  Decoder.i s' < size q /\ same_outputs s s'.
Proof.
  unfold Reference.pcr_select_info.
  destruct (Decoder.i s + 4 >=? size q) eqn:E; [discriminate|].
  intros Hrun. pose proof Hrun as Hc.
  apply pcr_select_loop_cursor in Hc; [|cbn [Decoder.i]; lia].
  apply pcr_select_loop_success in Hrun. cbn [Decoder.i] in *.
  unfold same_outputs in *.
  cbn [Decoder.i Decoder.digest Decoder.extraData Decoder.trace Decoder.log]
    in Hrun.
  destruct Hrun as (Hi & Ho). repeat split; try tauto; lia.
Qed.

Lemma digest_field_success q s s' :
  Reference.digest_field q s = (Some tt, s') ->
  let n := Reference.field q (Decoder.i s) 2 in
  Decoder.i s + 2 < size q /\ Decoder.i s + 2 + n <= size q /\
  Decoder.i s' = Decoder.i s + 2 /\
  Decoder.extraData s' = Decoder.extraData s /\
  Decoder.log s' = Decoder.log s /\
  Decoder.digest s' =
    mkTPM2B n (overwrite (load (attestationData q) (Decoder.i s + 2) n)
                 (buffer (Decoder.digest s))).
Proof.
  unfold Reference.digest_field. cbv zeta.
  destruct (Decoder.i s + 2 >=? size q) eqn:E; [discriminate|].
  destruct (Reference.field q (Decoder.i s) 2 + (Decoder.i s + 2) >? size q)
    eqn:E'; [discriminate|].
  intros [= <-].
  cbn [Decoder.i Decoder.digest Decoder.extraData Decoder.trace Decoder.log].
  repeat split; try reflexivity; lia.
Qed.

(** What a run of the reference decoder that goes on to the end has
    read and written. *)
Lemma reference_success q d e s :
  Reference.get_digest_from_quote q (mkState 0 d e [] []) = (Some tt, s) ->
  Reference.field q 4 2 = TPM2_ST_ATTEST_QUOTE /\
  extra_offset q + 2 + extra_size q <= size q /\
  digest_offset q + 2 < size q /\
  digest_offset q + 2 + digest_size q <= size q /\
  Decoder.i s = digest_offset q + 2 /\
  Decoder.log s = [] /\
  Decoder.extraData s =
    mkTPM2B (extra_size q)
      (overwrite (load (attestationData q) (extra_offset q + 2)
                    (extra_size q)) (buffer e)) /\
  Decoder.digest s =
    mkTPM2B (digest_size q)
      (overwrite (load (attestationData q) (digest_offset q + 2)
                    (digest_size q)) (buffer d)).
Proof.
  unfold Reference.get_digest_from_quote. intros H.
  apply bind_success in H. destruct H as (s1 & H1 & H).
  apply bind_success in H. destruct H as (s2 & H2 & H).
  apply bind_success in H. destruct H as (s3 & H3 & H).
  apply bind_success in H. destruct H as (s4 & H4 & H).
  apply bind_success in H. destruct H as (s5 & H5 & H).
  apply bind_success in H. destruct H as (s6 & H6 & H7).
  apply header_success in H1. cbn [Decoder.i] in H1.
  destruct H1 as (Hsz & Hi1 & (Hd1 & He1 & Hl1) & Hty).
  apply qualified_signer_name_success in H2.
  destruct H2 as (Hb2 & Hi2 & (Hd2 & He2 & Hl2)).
  apply extra_data_success in H3. cbv zeta in H3.
  destruct H3 as (Hb3 & Hb3' & Hi3 & Hd3 & Hl3 & He3).
  apply skip_success in H4. destruct H4 as (Hi4 & Hb4 & (Hd4 & He4 & Hl4)).
  apply skip_success in H5. destruct H5 as (Hi5 & Hb5 & (Hd5 & He5 & Hl5)).
  apply pcr_select_info_success in H6.
  destruct H6 as (Hb6 & Hi6 & Hb6' & (Hd6 & He6 & Hl6)).
  apply digest_field_success in H7. cbv zeta in H7.
  destruct H7 as (Hb7 & Hb7' & Hi7 & He7 & Hl7 & Hd7).
  cbn [Decoder.digest Decoder.extraData Decoder.log] in *.
  assert (E1 : Decoder.i s1 = 6) by lia.
  assert (E2 : Decoder.i s2 = extra_offset q)
    by (unfold extra_offset, name_size; rewrite Hi2, E1; reflexivity).
  assert (E3 : Decoder.i s3 = extra_offset q + 2 + extra_size q)
    by (unfold extra_size; rewrite Hi3, E2; reflexivity).
  assert (E5 : Decoder.i s5 = count_offset q)
    by (unfold count_offset; lia).
  assert (E6 : Decoder.i s6 = digest_offset q)
    by (unfold digest_offset, selection_count; rewrite Hi6, E5; reflexivity).
  rewrite E6 in *. rewrite E2 in *.
  replace (0 + 4) with 4 in Hty by reflexivity.
  fold (extra_size q) in *. fold (digest_size q) in *.
  repeat split; try assumption; try lia.
  - congruence.
  - rewrite He7, He6, He5, He4, He3, He2, He1. reflexivity.
  - rewrite Hd7, Hd6, Hd5, Hd4, Hd3, Hd2, Hd1. reflexivity.
Qed.



(** X16. A blob of at least 6 bytes that starts with the magic but whose
    type is not that of a quote is rejected with the message of the type,
    after the copies of the magic and the type and with the outputs
    untouched; and a blob that decodes has the type of a quote. *)
Theorem bad_type_rejected (h : endianness) (q : TPM2B_ATTEST)
    (d : TPM2B_DIGEST) (e : TPM2B_DATA) :
  6 <= size q <= UINT16_MAX ->
  (be_uint (load (attestationData q) 0 4) = TPM2_GENERATED_VALUE ->
   be_uint (load (attestationData q) 4 2) <> TPM2_ST_ATTEST_QUOTE ->
   tpm2_util_get_digest_from_quote h q d e =
   (false,
    mkState 6 d e [Memcpy Dmagic 0 4; Memcpy Dtype 4 2]
      ["Malformed TPMI_ST_ATTEST quote value"%string])) /\
  (fst (tpm2_util_get_digest_from_quote h q d e) = true ->
   be_uint (load (attestationData q) 4 2) = TPM2_ST_ATTEST_QUOTE).
Proof.
  intros Hq. split.
  - intros Hmagic Htype. rewrite run_refines by lia.
    unfold Reference.get_digest_from_quote, bind, Reference.header,
      Reference.err, Reference.field.
    cbn [Decoder.i Decoder.digest Decoder.extraData Decoder.trace
         Decoder.log].
    destruct (size q <? 6) eqn:E; [lia|].
    apply Z.eqb_eq in Hmagic. rewrite Hmagic.
    apply Z.eqb_neq in Htype.
    replace (0 + 4) with 4 by reflexivity. rewrite Htype.
    reflexivity.
  - rewrite run_refines by lia.
    destruct (Reference.get_digest_from_quote q (mkState 0 d e [] []))
      as [[[]|] s] eqn:Hrun; [|discriminate].
    intros _. apply reference_success in Hrun. apply Hrun.
Qed.

Lemma bad_type_rejected_witness :
  let q := Scenario.blob
             (Scenario.bytes [0xFF; 0x54; 0x43; 0x47; 0x80; 0x17; 0; 0]) in
  6 <= size q <= UINT16_MAX /\
  be_uint (load (attestationData q) 0 4) = TPM2_GENERATED_VALUE /\
  be_uint (load (attestationData q) 4 2) <> TPM2_ST_ATTEST_QUOTE /\
  tpm2_util_get_digest_from_quote LittleEndian q Scenario.quoteHash_init
    Scenario.quoteExtraData_init =
  (false,
   mkState 6 Scenario.quoteHash_init Scenario.quoteExtraData_init
     [Memcpy Dmagic 0 4; Memcpy Dtype 4 2]
     ["Malformed TPMI_ST_ATTEST quote value"%string]).
Proof.
  intros q.
  assert (H1 : 6 <= size q <= UINT16_MAX)
    by (vm_compute; split; discriminate).
  assert (H2 : be_uint (load (attestationData q) 0 4) = TPM2_GENERATED_VALUE)
    by (vm_compute; reflexivity).
  assert (H3 : be_uint (load (attestationData q) 4 2) <> TPM2_ST_ATTEST_QUOTE)
    by (vm_compute; discriminate).
  refine (conj H1 (conj H2 (conj H3 _))).
  exact (proj1 (bad_type_rejected LittleEndian q Scenario.quoteHash_init
                  Scenario.quoteExtraData_init H1) H2 H3).
Defined.



(** X18. A blob that decodes is long enough for everything it declares:
    the name, the nonce, the 25 bytes of clock and firmware, three bytes
    at least for each of the PCR selections it counts, and the digest or,
    if the digest is empty, one more byte.  So no blob of fewer than 42
    bytes decodes, the number of selections is at most a third of the
    size, and both output sizes are below the size of the blob; and there
    is a blob of 42 bytes that decodes. *)
Theorem decoded_layout (h : endianness) (q : TPM2B_ATTEST)
    (d : TPM2B_DIGEST) (e : TPM2B_DATA) :
  0 <= size q <= UINT16_MAX ->
  (fst (tpm2_util_get_digest_from_quote h q d e) = true ->
   41 + name_size q + extra_size q + 3 * selection_count q
      + Z.max 1 (digest_size q) <= size q /\
   42 <= size q /\
   3 * selection_count q <= size q - 42 /\
   extra_size q <= size q - 42 /\
   digest_size q <= size q - 41) /\
  size smallest_quote = 42 /\
  fst (tpm2_util_get_digest_from_quote h smallest_quote d e) = true.
Proof.
  intros Hq. split.
  - rewrite run_refines by exact Hq.
    destruct (Reference.get_digest_from_quote q (mkState 0 d e [] []))
      as [[[]|] s] eqn:Hrun; [|discriminate].
    intros _. apply reference_success in Hrun.
    destruct Hrun as (_ & _ & Hb1 & Hb2 & _).
    pose proof (skip_selections_lower q (Z.to_nat (selection_count q))
                  (count_offset q + 4)) as Hsk.
    fold (digest_offset q) in Hsk.
    assert (Hc : 0 <= selection_count q)
      by (unfold selection_count; pose proof (field_range32 q (count_offset q));
          lia).
    rewrite Z2Nat.id in Hsk by exact Hc.
    assert (Hn : 0 <= name_size q)
      by (unfold name_size; pose proof (field_range16 q 6); lia).
    assert (Hx : 0 <= extra_size q)
      by (unfold extra_size; pose proof (field_range16 q (extra_offset q));
          lia).
    assert (Hd : 0 <= digest_size q)
      by (unfold digest_size; pose proof (field_range16 q (digest_offset q));
          lia).
    unfold count_offset, extra_offset in Hsk. lia.
  - split; [reflexivity|].
    rewrite run_refines by (vm_compute; split; discriminate).
    vm_compute. reflexivity.
Qed.

Lemma decoded_layout_witness :
  0 <= size Scenario.quote1 <= UINT16_MAX /\
  fst (tpm2_util_get_digest_from_quote BigEndian Scenario.quote1
         Scenario.quoteHash_init Scenario.quoteExtraData_init) = true /\
  42 <= size Scenario.quote1.
Proof.
  assert (H1 : 0 <= size Scenario.quote1 <= UINT16_MAX)
    by (vm_compute; split; discriminate).
  assert (H2 : fst (tpm2_util_get_digest_from_quote BigEndian Scenario.quote1
                 Scenario.quoteHash_init Scenario.quoteExtraData_init) = true)
    by (vm_compute; reflexivity).
  refine (conj H1 (conj H2 _)).
  exact (proj1 (proj2 (proj1 (decoded_layout BigEndian Scenario.quote1
           Scenario.quoteHash_init Scenario.quoteExtraData_init H1) H2))).
Defined.

(** ** Decoding a quote that was laid out field by field *)

















(** ** Acceptance and cleanup of [verify_signature] *)

Lemma Z_of_byte_inj a b : Z_of_byte a = Z_of_byte b -> a = b.
Proof.
  intros H. rewrite <- (byte_of_Z_of_byte a), <- (byte_of_Z_of_byte b).
  now rewrite H.
Qed.

Lemma memcmp_zero n : forall s1 s2,
  memcmp s1 s2 n = 0 <->
  forall k, (k < n)%nat -> nth k s1 x00 = nth k s2 x00.
Proof.
  induction n as [|n IH]; intros s1 s2; cbn [memcmp].
  - split; [intros _ k Hk; lia | reflexivity].
  - destruct (Byte.eqb (hd x00 s1) (hd x00 s2)) eqn:E.
    + apply Byte.byte_dec_bl in E. rewrite IH. split.
      * intros H [|k] Hk.
        -- destruct s1, s2; exact E.
        -- specialize (H k ltac:(lia)).
           destruct s1, s2; cbn [tl nth] in *; try exact H;
             destruct k; exact H.
      * intros H k Hk. specialize (H (S k) ltac:(lia)).
        destruct s1, s2; cbn [tl nth] in *; try exact H;
          destruct k; exact H.
    + split.
      * intros H. exfalso.
        assert (Heq : hd x00 s1 = hd x00 s2)
          by (apply Z_of_byte_inj; lia).
        apply Byte.byte_dec_lb in Heq. congruence.
      * intros H. exfalso. specialize (H 0%nat ltac:(lia)).
        assert (Heq : hd x00 s1 = hd x00 s2)
          by (destruct s1, s2; exact H).
        apply Byte.byte_dec_lb in Heq. congruence.
Qed.

Section VerifySignatureFacts.

Variables FILE RSA : Type.
Variable fopen : string -> option FILE.
Variable tpm2_openssl_get_public_RSA_from_pem : FILE -> string -> option RSA.
Variable tpm2_openssl_halgid_from_tpmhalg : Z -> Z.
Variable RSA_verify : Z -> list BYTE -> Z -> list BYTE -> Z -> RSA -> Z.
Variable TPM2_ALG_RSASSA : Z.

#[local] Abbreviation verify_signature :=
  (CheckQuote.verify_signature FILE RSA fopen
     tpm2_openssl_get_public_RSA_from_pem tpm2_openssl_halgid_from_tpmhalg
     RSA_verify TPM2_ALG_RSASSA).

Ltac vsf_unfold :=
  unfold CheckQuote.verify_signature, verify_signature_checks;
  cbv beta iota zeta delta [bind ret exit emit];
  cbn [app fst snd].

Ltac vsf_case :=
  match goal with
  | |- context [match fopen ?p with _ => _ end] =>
    destruct (fopen p) eqn:?
  | |- context [match tpm2_openssl_get_public_RSA_from_pem ?f ?p with
                | _ => _ end] =>
    destruct (tpm2_openssl_get_public_RSA_from_pem f p) eqn:?
  | |- context [if ?c then _ else _] => destruct c eqn:?
  end;
  cbv beta iota zeta; cbn [app fst snd].

Lemma verify_signature_true_inv (ctx : tpm2_verifysig_ctx) :
  fst (verify_signature ctx) = true ->
  exists pubkey_input pubKey,
    fopen (pubkey_file_path ctx) = Some pubkey_input /\
    tpm2_openssl_get_public_RSA_from_pem pubkey_input (pubkey_file_path ctx)
      = Some pubKey /\
    sigAlg (signature ctx) = TPM2_ALG_RSASSA /\
    RSA_verify
      (tpm2_openssl_halgid_from_tpmhalg (rsassa_hash (signature ctx)))
      (buffer (msgHash ctx)) (size (msgHash ctx))
      (buffer (rsassa_sig (signature ctx)))
      (size (rsassa_sig (signature ctx))) pubKey <> 0 /\
    (flag_extra (flags ctx) = true ->
     size (quoteExtraData ctx) = size (CheckQuote.extraData ctx) /\
     forall k, (k < Z.to_nat (size (CheckQuote.extraData ctx)))%nat ->
       nth k (buffer (quoteExtraData ctx)) x00 =
       nth k (buffer (CheckQuote.extraData ctx)) x00) /\
    (flag_pcr (flags ctx) = true ->
     tpm2_util_verify_digests (quoteHash ctx) (pcrHash ctx) = true).
Proof.
  vsf_unfold.
  repeat vsf_case; try discriminate; intros _;
    repeat match goal with
    | H : negb _ = false |- _ => apply negb_false_iff in H
    | H : (_ =? _) = true |- _ => apply Z.eqb_eq in H
    | H : (_ =? _) = false |- _ => apply Z.eqb_neq in H
    end;
    eexists; eexists;
    (split; [reflexivity|]); (split; [eassumption|]);
    (split; [assumption|]); (split; [assumption|]);
    (split; [intros Hf;
             first [discriminate
                   | split; [assumption | now apply memcmp_zero]]
            | intros Hf; first [discriminate | assumption]]).
Qed.

(** X13. [verify_signature] returns true exactly when the key file opens,
    a key is read from it, the signature's scheme is RSASSA, [RSA_verify]
    accepts the signature over [msgHash] under that key, the nonce of the
    quote has the size and the bytes of the expected one if one was
    given, and the digest of the quote passes [tpm2_util_verify_digests]
    against the PCR digest if PCR values were given. *)
Theorem verify_signature_accepts_iff (ctx : tpm2_verifysig_ctx) :
  fst (verify_signature ctx) = true <->
  exists pubkey_input pubKey,
    fopen (pubkey_file_path ctx) = Some pubkey_input /\
    tpm2_openssl_get_public_RSA_from_pem pubkey_input (pubkey_file_path ctx)
      = Some pubKey /\
    sigAlg (signature ctx) = TPM2_ALG_RSASSA /\
    RSA_verify
      (tpm2_openssl_halgid_from_tpmhalg (rsassa_hash (signature ctx)))
      (buffer (msgHash ctx)) (size (msgHash ctx))
      (buffer (rsassa_sig (signature ctx)))
      (size (rsassa_sig (signature ctx))) pubKey <> 0 /\
    (flag_extra (flags ctx) = true ->
     size (quoteExtraData ctx) = size (CheckQuote.extraData ctx) /\
     forall k, (k < Z.to_nat (size (CheckQuote.extraData ctx)))%nat ->
       nth k (buffer (quoteExtraData ctx)) x00 =
       nth k (buffer (CheckQuote.extraData ctx)) x00) /\
    (flag_pcr (flags ctx) = true ->
     tpm2_util_verify_digests (quoteHash ctx) (pcrHash ctx) = true).
Proof.
  split; [apply verify_signature_true_inv|].
  vsf_unfold.
  intros (f & k & Hf & Hk & Halg & Hv & Hextra & Hpcr).
  rewrite Hf. cbv beta iota zeta. cbn [app fst snd].
  rewrite Hk. cbv beta iota zeta.
  apply Z.eqb_eq in Halg. rewrite Halg. cbn [negb].
  apply Z.eqb_neq in Hv. rewrite Hv.
  destruct (flag_extra (flags ctx)).
  - destruct (Hextra eq_refl) as [Hs Hb].
    apply Z.eqb_eq in Hs. rewrite Hs. cbn [negb].
    apply memcmp_zero in Hb. rewrite Hb. cbn [Z.eqb negb].
    destruct (flag_pcr (flags ctx)).
    + rewrite (Hpcr eq_refl). reflexivity.
    + reflexivity.
  - destruct (flag_pcr (flags ctx)).
    + rewrite (Hpcr eq_refl). reflexivity.
    + reflexivity.
Qed.


End VerifySignatureFacts.


(** ** Handles on the command line *)

Lemma char_code_zero c : char_code c = 0 -> c = Ascii.zero.
Proof.
  unfold char_code. intros H.
  rewrite <- (Ascii.ascii_nat_embedding c).
  replace (Ascii.nat_of_ascii c) with 0%nat by lia. reflexivity.
Qed.

Lemma char_code_inj c1 c2 : char_code c1 = char_code c2 -> c1 = c2.
Proof.
  unfold char_code. intros H.
  rewrite <- (Ascii.ascii_nat_embedding c1),
          <- (Ascii.ascii_nat_embedding c2).
  f_equal. lia.
Qed.

Lemma strncmp_prefix s : forall t,
  no_nul s -> (strncmp s t (strlen s) = 0 <-> is_prefix s t).
Proof.
  unfold strlen, is_prefix.
  induction s as [|c s IH]; intros t Hs; cbn [length strncmp].
  - split; [intros _; now exists t | reflexivity].
  - inversion Hs as [|? ? Hc Hs']; subst.
    destruct t as [|c2 t].
    + split.
      * intros H. apply char_code_zero in H. contradiction.
      * intros [r Hr]. discriminate.
    + destruct (Ascii.eqb c c2) eqn:E.
      * apply Ascii.eqb_eq in E. subst c2. rewrite (IH t Hs'). split.
        -- intros [r ->]. now exists r.
        -- intros [r [= Hr]]. now exists r.
      * apply Ascii.eqb_neq in E. split.
        -- intros H. exfalso. apply E. apply char_code_inj. lia.
        -- intros [r [= Hr _]]. congruence.
Qed.

Lemma land_range_mask x :
  0 <= x < 2 ^ 32 -> Z.land x 0xFF000000 = x / 2 ^ 24 * 2 ^ 24.
Proof.
  intros Hx. change 0xFF000000 with (Z.shiftl (Z.ones 8) 24).
  apply Z.bits_inj'. intros k Hk. rewrite Z.land_spec.
  destruct (Z.lt_ge_cases k 24) as [Hlo|Hhi].
  - rewrite Z.shiftl_spec_low by lia.
    rewrite Z.mul_pow2_bits_low by lia. apply andb_false_r.
  - rewrite Z.shiftl_spec by lia.
    rewrite Z.mul_pow2_bits by lia.
    rewrite Z.div_pow2_bits by lia.
    replace (k - 24 + 24) with k by lia.
    destruct (Z.lt_ge_cases k 32) as [Hlo'|Hhi'].
    + rewrite Z.ones_spec_low by lia. apply andb_true_r.
    + rewrite Z.ones_spec_high by lia. rewrite andb_false_r.
      symmetry. destruct (Z.eq_dec x 0) as [->|Hnz];
        [apply Z.bits_0|].
      apply Z.bits_above_log2; [lia|].
      apply Z.log2_lt_pow2; [lia|].
      apply Z.lt_le_trans with (2 ^ 32); [lia|].
      apply Z.pow_le_mono_r; lia.
Qed.

Section HandleFacts.

Import Handles.

Variables TPM2_RH_OWNER TPM2_RH_PLATFORM TPM2_RH_ENDORSEMENT TPM2_RH_NULL
  TPM2_RH_LOCKOUT : Z.
Variables TPM2_HR_RANGE_MASK TPM2_HR_NV_INDEX TPM2_HR_PCR TPM2_HR_TRANSIENT
  TPM2_HR_PERMANENT TPM2_HR_PERSISTENT : Z.
Variables TPM2_NV_INDEX_FIRST TPM2_NV_INDEX_LAST TPM2_PCR_LAST
  TPM2_PERSISTENT_FIRST TPM2_PERSISTENT_LAST : Z.
Variable strtoul : Hex.cstring -> Z -> N * Hex.cstring * Z.

#[local] Abbreviation handle_from_optarg :=
  (tpm2_util_handle_from_optarg TPM2_RH_OWNER TPM2_RH_PLATFORM
     TPM2_RH_ENDORSEMENT TPM2_RH_NULL TPM2_RH_LOCKOUT TPM2_HR_RANGE_MASK
     TPM2_HR_NV_INDEX TPM2_HR_PCR TPM2_HR_TRANSIENT TPM2_HR_PERMANENT
     TPM2_HR_PERSISTENT TPM2_NV_INDEX_FIRST TPM2_NV_INDEX_LAST TPM2_PCR_LAST
     TPM2_PERSISTENT_FIRST TPM2_PERSISTENT_LAST strtoul).

#[local] Abbreviation name_hierarchy :=
  (hierarchy_of_name TPM2_RH_OWNER TPM2_RH_PLATFORM TPM2_RH_ENDORSEMENT
     TPM2_RH_NULL TPM2_RH_LOCKOUT).

#[local] Abbreviation constants_ok :=
  (hierarchies_permanent TPM2_RH_OWNER TPM2_RH_PLATFORM TPM2_RH_ENDORSEMENT
     TPM2_RH_NULL TPM2_RH_LOCKOUT TPM2_HR_RANGE_MASK TPM2_HR_NV_INDEX
     TPM2_HR_PCR TPM2_HR_TRANSIENT TPM2_HR_PERMANENT).

Lemma abbreviates_spec value name :
  no_nul value ->
  abbreviates value name = true <->
  is_prefix value (list_ascii_of_string name).
Proof.
  intros Hv. unfold abbreviates. rewrite Z.eqb_eq.
  now apply strncmp_prefix.
Qed.

Lemma abbreviates_other value name name' :
  no_nul value -> value <> [] ->
  is_prefix value (list_ascii_of_string name) ->
  hd Ascii.zero (list_ascii_of_string name)
    <> hd Ascii.zero (list_ascii_of_string name') ->
  abbreviates value name' = false.
Proof.
  intros Hv Hne [r Hr] Hhd.
  destruct (abbreviates value name') eqn:E; [|reflexivity].
  apply abbreviates_spec in E; [|exact Hv]. destruct E as [r' Hr'].
  destruct value as [|c v]; [congruence|].
  rewrite Hr, Hr' in Hhd. cbn in Hhd. congruence.
Qed.

(** The result for a hierarchy [rh] that a name stands for. *)
Lemma filter_handles_hierarchy rh flags flag :
  rh <> 0 -> Z.land rh TPM2_HR_RANGE_MASK = TPM2_HR_PERMANENT ->
  TPM2_HR_PERMANENT <> 0 -> TPM2_HR_PERMANENT <> TPM2_HR_NV_INDEX ->
  TPM2_HR_PERMANENT <> TPM2_HR_PCR -> TPM2_HR_PERMANENT <> TPM2_HR_TRANSIENT ->
  filter_hierarchy_handles TPM2_RH_OWNER TPM2_RH_PLATFORM
    TPM2_RH_ENDORSEMENT TPM2_RH_NULL TPM2_RH_LOCKOUT rh flags
    = has flags flag ->
  filter_handles TPM2_RH_OWNER TPM2_RH_PLATFORM TPM2_RH_ENDORSEMENT
    TPM2_RH_NULL TPM2_RH_LOCKOUT TPM2_HR_RANGE_MASK TPM2_HR_NV_INDEX
    TPM2_HR_PCR TPM2_HR_TRANSIENT TPM2_HR_PERMANENT TPM2_HR_PERSISTENT
    TPM2_NV_INDEX_FIRST TPM2_NV_INDEX_LAST TPM2_PCR_LAST
    TPM2_PERSISTENT_FIRST TPM2_PERSISTENT_LAST rh flags
    = (has flags flag, rh).
Proof.
  intros Hnz Hrange H0 Hnv Hpcr Htr Hf.
  unfold filter_handles, check_range. cbv zeta. rewrite Hrange.
  apply Z.eqb_neq in H0, Hnv, Hpcr, Htr.
  rewrite H0, Hnv, Hpcr, Htr, Z.eqb_refl, Hf. reflexivity.
Qed.

Ltac name_case value Hv Hne Hp :=
  repeat match goal with
  | |- context [abbreviates value ?n] =>
    first
      [ rewrite (proj2 (abbreviates_spec value n Hv) Hp)
      | rewrite (abbreviates_other value _ n Hv Hne Hp)
          by (cbn; discriminate) ]
  end.

(** X20. A hierarchy can be named by any beginning of [owner],
    [platform], [endorsement], [null] or [lockout], down to the first
    letter; the handle is then the hierarchy of that name, whatever else
    is allowed, and it is accepted exactly when the flag of that
    hierarchy is among the flags of the tool. *)
Theorem handle_from_optarg_names (value : Hex.cstring) (h0 flags : Z) :
  constants_ok ->
  value <> [] -> no_nul value ->
  has flags TPM2_HANDLE_FLAGS_NV && has flags TPM2_HANDLE_FLAGS_PCR = false ->
  (is_prefix value (list_ascii_of_string "owner") ->
   handle_from_optarg (Some value) h0 flags
   = (has flags TPM2_HANDLE_FLAGS_O, TPM2_RH_OWNER)) /\
  (is_prefix value (list_ascii_of_string "platform") ->
   handle_from_optarg (Some value) h0 flags
   = (has flags TPM2_HANDLE_FLAGS_P, TPM2_RH_PLATFORM)) /\
  (is_prefix value (list_ascii_of_string "endorsement") ->
   handle_from_optarg (Some value) h0 flags
   = (has flags TPM2_HANDLE_FLAGS_E, TPM2_RH_ENDORSEMENT)) /\
  (is_prefix value (list_ascii_of_string "null") ->
   handle_from_optarg (Some value) h0 flags
   = (has flags TPM2_HANDLE_FLAGS_N, TPM2_RH_NULL)) /\
  (is_prefix value (list_ascii_of_string "lockout") ->
   handle_from_optarg (Some value) h0 flags
   = (has flags TPM2_HANDLE_FLAGS_L, TPM2_RH_LOCKOUT)).
Proof.
  intros (Hnd & Hall & H0 & Hnv & Hpcr & Htr) Hne Hv Hflags.
  repeat match goal with
  | H : Forall _ (_ :: _) |- _ => inversion H; clear H; subst
  | H : NoDup (_ :: _) |- _ => inversion H; clear H; subst
  end.
  cbn [In] in *.
  repeat match goal with H : _ /\ _ |- _ => destruct H end.
  assert (D : forall a b : Z, a <> b -> (b =? a) = false)
    by (intros a b Hab; apply Z.eqb_neq; congruence).
  assert (D' : forall a b : Z, a <> b -> (a =? b) = false)
    by (intros a b Hab; apply Z.eqb_neq; congruence).
  repeat split; intros Hp; unfold tpm2_util_handle_from_optarg;
    (destruct value as [|c v]; [congruence|]);
    rewrite Hflags; unfold hierarchy_of_name; cbv zeta;
    name_case (c :: v) Hv Hne Hp;
    match goal with
    | |- context [if ?rh =? 0 then _ else _] =>
      replace (rh =? 0) with false by (symmetry; apply Z.eqb_neq; assumption)
    end;
    cbn [negb];
    apply filter_handles_hierarchy; try assumption;
    unfold filter_hierarchy_handles;
    rewrite ?Z.eqb_refl;
    repeat match goal with
    | |- context [?a =? ?b] =>
      first [ rewrite (D b a) by tauto | rewrite (D' a b) by tauto ]
    end;
    rewrite ?Z.eqb_refl; reflexivity.
Qed.

(** X21. [tpm2_util_handle_from_optarg] accepts nothing when the flags
    allow both NV indices and PCRs, and leaves the handle alone when the
    string is null or empty or the flags are such.  A handle that it
    accepts is in one of five ranges, which the flags allow: an NV index
    or a persistent handle within the bounds of its range, a PCR up to
    the last one, a transient handle, or a permanent handle that
    [filter_hierarchy_handles] lets through. *)
Theorem handle_from_optarg_filters (value : option Hex.cstring)
    (h0 flags : Z) :
  let out := handle_from_optarg value h0 flags in
  let h := snd out in
  let range := Z.land h TPM2_HR_RANGE_MASK in
  (has flags TPM2_HANDLE_FLAGS_NV = true ->
   has flags TPM2_HANDLE_FLAGS_PCR = true -> out = (false, h0)) /\
  (value = None \/ value = Some [] -> out = (false, h0)) /\
  (fst out = true ->
   (range = TPM2_HR_NV_INDEX /\ has flags TPM2_HANDLE_FLAGS_NV = true /\
    TPM2_NV_INDEX_FIRST <= h <= TPM2_NV_INDEX_LAST) \/
   (range = TPM2_HR_PCR /\ has flags TPM2_HANDLE_FLAGS_PCR = true /\
    h <= TPM2_PCR_LAST) \/
   (range = TPM2_HR_TRANSIENT /\
    has flags TPM2_HANDLES_FLAGS_TRANSIENT = true) \/
   (range = TPM2_HR_PERMANENT /\
    filter_hierarchy_handles TPM2_RH_OWNER TPM2_RH_PLATFORM
      TPM2_RH_ENDORSEMENT TPM2_RH_NULL TPM2_RH_LOCKOUT h flags = true) \/
   (range = TPM2_HR_PERSISTENT /\
    has flags TPM2_HANDLES_FLAGS_PERSISTENT = true /\
    TPM2_PERSISTENT_FIRST <= h <= TPM2_PERSISTENT_LAST)).
Proof.
  cbv zeta. split; [|split].
  - intros Hnv Hpcr. unfold tpm2_util_handle_from_optarg.
    destruct value as [[|c v]|]; try reflexivity.
    now rewrite Hnv, Hpcr.
  - intros [-> | ->]; reflexivity.
  - assert (C : forall h,
      check_range TPM2_RH_OWNER TPM2_RH_PLATFORM TPM2_RH_ENDORSEMENT
        TPM2_RH_NULL TPM2_RH_LOCKOUT TPM2_HR_NV_INDEX TPM2_HR_PCR
        TPM2_HR_TRANSIENT TPM2_HR_PERMANENT TPM2_HR_PERSISTENT
        TPM2_NV_INDEX_FIRST TPM2_NV_INDEX_LAST TPM2_PCR_LAST
        TPM2_PERSISTENT_FIRST TPM2_PERSISTENT_LAST
        h (Z.land h TPM2_HR_RANGE_MASK) flags = true ->
      (Z.land h TPM2_HR_RANGE_MASK = TPM2_HR_NV_INDEX /\
       has flags TPM2_HANDLE_FLAGS_NV = true /\
       TPM2_NV_INDEX_FIRST <= h <= TPM2_NV_INDEX_LAST) \/
      (Z.land h TPM2_HR_RANGE_MASK = TPM2_HR_PCR /\
       has flags TPM2_HANDLE_FLAGS_PCR = true /\ h <= TPM2_PCR_LAST) \/
      (Z.land h TPM2_HR_RANGE_MASK = TPM2_HR_TRANSIENT /\
       has flags TPM2_HANDLES_FLAGS_TRANSIENT = true) \/
      (Z.land h TPM2_HR_RANGE_MASK = TPM2_HR_PERMANENT /\
       filter_hierarchy_handles TPM2_RH_OWNER TPM2_RH_PLATFORM
         TPM2_RH_ENDORSEMENT TPM2_RH_NULL TPM2_RH_LOCKOUT h flags = true) \/
      (Z.land h TPM2_HR_RANGE_MASK = TPM2_HR_PERSISTENT /\
       has flags TPM2_HANDLES_FLAGS_PERSISTENT = true /\
       TPM2_PERSISTENT_FIRST <= h <= TPM2_PERSISTENT_LAST)).
    { intros h. unfold check_range.
      destruct (Z.land h TPM2_HR_RANGE_MASK =? TPM2_HR_NV_INDEX) eqn:E1.
      { apply Z.eqb_eq in E1.
        destruct (has flags TPM2_HANDLE_FLAGS_NV); cbn [negb];
          [|discriminate].
        destruct ((h <? TPM2_NV_INDEX_FIRST) || (h >? TPM2_NV_INDEX_LAST))
          eqn:B; [discriminate|].
        apply orb_false_elim in B. intros _. left. lia. }
      destruct (Z.land h TPM2_HR_RANGE_MASK =? TPM2_HR_PCR) eqn:E2.
      { apply Z.eqb_eq in E2.
        destruct (has flags TPM2_HANDLE_FLAGS_PCR); cbn [negb];
          [|discriminate].
        destruct (h >? TPM2_PCR_LAST) eqn:B; [discriminate|].
        intros _. right. left. lia. }
      destruct (Z.land h TPM2_HR_RANGE_MASK =? TPM2_HR_TRANSIENT) eqn:E3.
      { apply Z.eqb_eq in E3.
        destruct (has flags TPM2_HANDLES_FLAGS_TRANSIENT); cbn [negb];
          [|discriminate].
        intros _. right. right. left. tauto. }
      destruct (Z.land h TPM2_HR_RANGE_MASK =? TPM2_HR_PERMANENT) eqn:E4.
      { apply Z.eqb_eq in E4. intros Hf. right. right. right. left. tauto. }
      destruct (Z.land h TPM2_HR_RANGE_MASK =? TPM2_HR_PERSISTENT) eqn:E5;
        [|discriminate].
      apply Z.eqb_eq in E5.
      destruct (has flags TPM2_HANDLES_FLAGS_PERSISTENT); cbn [negb];
        [|discriminate].
      destruct ((h <? TPM2_PERSISTENT_FIRST) || (h >? TPM2_PERSISTENT_LAST))
        eqn:B; [discriminate|].
      apply orb_false_elim in B. intros _. right. right. right. right. lia. }
    unfold tpm2_util_handle_from_optarg.
    destruct value as [[|c v]|]; try discriminate.
    destruct (has flags TPM2_HANDLE_FLAGS_NV
              && has flags TPM2_HANDLE_FLAGS_PCR);
      [discriminate|].
    set (hn := hierarchy_of_name _ _ _ _ _ _).
    assert (F : forall h,
      fst (filter_handles TPM2_RH_OWNER TPM2_RH_PLATFORM TPM2_RH_ENDORSEMENT
             TPM2_RH_NULL TPM2_RH_LOCKOUT TPM2_HR_RANGE_MASK TPM2_HR_NV_INDEX
             TPM2_HR_PCR TPM2_HR_TRANSIENT TPM2_HR_PERMANENT
             TPM2_HR_PERSISTENT TPM2_NV_INDEX_FIRST TPM2_NV_INDEX_LAST
             TPM2_PCR_LAST TPM2_PERSISTENT_FIRST TPM2_PERSISTENT_LAST
             h flags) = true ->
      check_range TPM2_RH_OWNER TPM2_RH_PLATFORM TPM2_RH_ENDORSEMENT
        TPM2_RH_NULL TPM2_RH_LOCKOUT TPM2_HR_NV_INDEX TPM2_HR_PCR
        TPM2_HR_TRANSIENT TPM2_HR_PERMANENT TPM2_HR_PERSISTENT
        TPM2_NV_INDEX_FIRST TPM2_NV_INDEX_LAST TPM2_PCR_LAST
        TPM2_PERSISTENT_FIRST TPM2_PERSISTENT_LAST
        (snd (filter_handles TPM2_RH_OWNER TPM2_RH_PLATFORM
                TPM2_RH_ENDORSEMENT TPM2_RH_NULL TPM2_RH_LOCKOUT
                TPM2_HR_RANGE_MASK TPM2_HR_NV_INDEX TPM2_HR_PCR
                TPM2_HR_TRANSIENT TPM2_HR_PERMANENT TPM2_HR_PERSISTENT
                TPM2_NV_INDEX_FIRST TPM2_NV_INDEX_LAST TPM2_PCR_LAST
                TPM2_PERSISTENT_FIRST TPM2_PERSISTENT_LAST h flags))
        (Z.land
           (snd (filter_handles TPM2_RH_OWNER TPM2_RH_PLATFORM
                   TPM2_RH_ENDORSEMENT TPM2_RH_NULL TPM2_RH_LOCKOUT
                   TPM2_HR_RANGE_MASK TPM2_HR_NV_INDEX TPM2_HR_PCR
                   TPM2_HR_TRANSIENT TPM2_HR_PERMANENT TPM2_HR_PERSISTENT
                   TPM2_NV_INDEX_FIRST TPM2_NV_INDEX_LAST TPM2_PCR_LAST
                   TPM2_PERSISTENT_FIRST TPM2_PERSISTENT_LAST h flags))
           TPM2_HR_RANGE_MASK) flags = true).
    { intros h. unfold filter_handles. cbv zeta.
      destruct (Z.land h TPM2_HR_RANGE_MASK =? 0);
        [destruct (has flags TPM2_HANDLE_FLAGS_NV);
         [|destruct (has flags TPM2_HANDLE_FLAGS_PCR)]|];
        cbn [fst snd]; try discriminate; tauto. }
    destruct (hn =? 0).
    + match goal with
      | |- context [tpm2_util_string_to_uint32 ?f ?a] =>
        destruct (tpm2_util_string_to_uint32 f a) as [n|]
      end; cbv beta iota; cbn [negb fst snd]; [|discriminate].
      intros Hacc. apply C, F, Hacc.
    + cbv beta iota. cbn [negb]. intros Hacc. apply C, F, Hacc.
Qed.

End HandleFacts.

Lemma handle_from_optarg_names_witness :
  let value := list_ascii_of_string "pl" in
  let strtoul := fun (_ : Hex.cstring) (_ : Z) =>
                   (0%N, @nil Ascii.ascii, 1) in
  value <> [] /\ no_nul value /\
  Handles.has Handles.TPM2_HANDLE_FLAGS_P Handles.TPM2_HANDLE_FLAGS_NV
    && Handles.has Handles.TPM2_HANDLE_FLAGS_P Handles.TPM2_HANDLE_FLAGS_PCR
    = false /\
  is_prefix value (list_ascii_of_string "platform") /\
  Handles.TSS2.tpm2_util_handle_from_optarg strtoul (Some value) 0
    Handles.TPM2_HANDLE_FLAGS_P
  = (Handles.has Handles.TPM2_HANDLE_FLAGS_P Handles.TPM2_HANDLE_FLAGS_P,
     Handles.TSS2.TPM2_RH_PLATFORM).
Proof.
  intros value strtoul.
  assert (H0 : Handles.hierarchies_permanent Handles.TSS2.TPM2_RH_OWNER
                 Handles.TSS2.TPM2_RH_PLATFORM
                 Handles.TSS2.TPM2_RH_ENDORSEMENT Handles.TSS2.TPM2_RH_NULL
                 Handles.TSS2.TPM2_RH_LOCKOUT Handles.TSS2.TPM2_HR_RANGE_MASK
                 Handles.TSS2.TPM2_HR_NV_INDEX Handles.TSS2.TPM2_HR_PCR
                 Handles.TSS2.TPM2_HR_TRANSIENT
                 Handles.TSS2.TPM2_HR_PERMANENT).
  { split; [|split].
    - repeat constructor; cbn [In]; vm_compute; intuition discriminate.
    - repeat constructor; vm_compute; congruence.
    - vm_compute. repeat split; discriminate. }
  assert (H1 : value <> []) by discriminate.
  assert (H2 : no_nul value) by (repeat constructor; discriminate).
  assert (H3 : Handles.has Handles.TPM2_HANDLE_FLAGS_P
                 Handles.TPM2_HANDLE_FLAGS_NV
               && Handles.has Handles.TPM2_HANDLE_FLAGS_P
                    Handles.TPM2_HANDLE_FLAGS_PCR = false)
    by reflexivity.
  assert (H4 : is_prefix value (list_ascii_of_string "platform"))
    by (exists (list_ascii_of_string "atform"); reflexivity).
  refine (conj H1 (conj H2 (conj H3 (conj H4 _)))).
  exact (proj1 (proj2 (handle_from_optarg_names _ _ _ _ _ _ _ _ _ _ _ _ _ _
                         _ _ strtoul value 0 Handles.TPM2_HANDLE_FLAGS_P
                         H0 H1 H2 H3)) H4).
Defined.

Section NumericHandles.

Import Handles.

Variable strtoul : Hex.cstring -> Z -> N * Hex.cstring * Z.

Lemma range_of_small n : 0 <= n < 2 ^ 24 -> Z.land n 0xFF000000 = 0.
Proof.
  intros Hn. rewrite land_range_mask by lia.
  rewrite Z.div_small by lia. reflexivity.
Qed.

Lemma range_of_nv n :
  0 <= n < 2 ^ 24 -> Z.land (n + 0x01000000) 0xFF000000 = 0x01000000.
Proof.
  intros Hn. rewrite land_range_mask by lia.
  replace ((n + 0x01000000) / 2 ^ 24) with 1; [reflexivity|].
  apply Z.div_unique with (r := n); lia.
Qed.

(** X22. With the constants of the TSS2 headers, a number below 2^24
    that names no hierarchy is taken as an offset: where NV indices are
    allowed it becomes the NV index [0x01000000 + n] and is accepted;
    where PCRs are allowed it is accepted as a PCR if it is at most 31
    and rejected otherwise; where neither is allowed it is rejected. *)
Theorem handle_from_optarg_offsets (value : Hex.cstring) (n h0 flags : Z) :
  TSS2.hierarchy_of_name value = 0 ->
  tpm2_util_string_to_uint32 strtoul (Some value) = Some n ->
  n < 2 ^ 24 ->
  let out := TSS2.tpm2_util_handle_from_optarg strtoul (Some value) h0
               flags in
  (has flags TPM2_HANDLE_FLAGS_NV = true ->
   has flags TPM2_HANDLE_FLAGS_PCR = false ->
   out = (true, 0x01000000 + n)) /\
  (has flags TPM2_HANDLE_FLAGS_NV = false ->
   has flags TPM2_HANDLE_FLAGS_PCR = true ->
   out = (n <=? 0x1F, n)) /\
  (has flags TPM2_HANDLE_FLAGS_NV = false ->
   has flags TPM2_HANDLE_FLAGS_PCR = false ->
   out = (false, n)).
Proof.
  intros Hname Hconv Hn out. subst out.
  pose proof (string_to_uint32_range strtoul _ _ Hconv) as Hr.
  unfold UINT32_MAX in Hr.
  assert (Hne : value <> [])
    by (intros ->; discriminate).
  unfold TSS2.tpm2_util_handle_from_optarg, tpm2_util_handle_from_optarg.
  destruct value as [|c v]; [congruence|].
  fold TSS2.hierarchy_of_name. rewrite Hname, Hconv.
  cbv beta iota. rewrite Z.eqb_refl. cbv beta iota. cbn [negb].
  unfold filter_handles. cbv zeta.
  fold TSS2.TPM2_HR_RANGE_MASK.
  unfold TSS2.TPM2_HR_RANGE_MASK, TSS2.TPM2_HR_NV_INDEX, TSS2.TPM2_HR_PCR.
  rewrite (range_of_small n) by lia. rewrite Z.eqb_refl.
  repeat split; intros Hnv Hpcr; rewrite Hnv, ?Hpcr; cbn [andb].
  - rewrite add32_small by (unfold UINT32_MOD; lia).
    rewrite (range_of_nv n) by lia.
    unfold check_range. rewrite Z.eqb_refl, Hnv. cbn [negb].
    unfold TSS2.TPM2_NV_INDEX_FIRST, TSS2.TPM2_NV_INDEX_LAST.
    replace (n + 0x01000000 <? 0x01000000) with false by lia.
    replace (n + 0x01000000 >? 0x01FFFFFF) with false by lia.
    cbn [orb]. f_equal. lia.
  - rewrite add32_small by (unfold UINT32_MOD; lia).
    rewrite Z.add_0_r, (range_of_small n) by lia.
    unfold check_range.
    change (0 =? 0x01000000) with false. cbv iota.
    rewrite Z.eqb_refl, Hpcr. cbn [negb].
    unfold TSS2.TPM2_PCR_LAST.
    destruct (n >? 0x1F) eqn:E.
    + replace (n <=? 0x1F) with false by lia. reflexivity.
    + replace (n <=? 0x1F) with true by lia. reflexivity.
  - reflexivity.
Qed.

End NumericHandles.

Lemma handle_from_optarg_offsets_witness :
  let value := list_ascii_of_string "0x10" in
  let strtoul := fun (_ : Hex.cstring) (_ : Z) =>
                   (16%N, @nil Ascii.ascii, 0) in
  Handles.TSS2.hierarchy_of_name value = 0 /\
  tpm2_util_string_to_uint32 strtoul (Some value) = Some 16 /\
  16 < 2 ^ 24 /\
  Handles.TSS2.tpm2_util_handle_from_optarg strtoul (Some value) 0
    Handles.TPM2_HANDLE_FLAGS_NV = (true, 0x01000000 + 16).
Proof.
  intros value strtoul.
  assert (H1 : Handles.TSS2.hierarchy_of_name value = 0) by reflexivity.
  assert (H2 : tpm2_util_string_to_uint32 strtoul (Some value) = Some 16)
    by reflexivity.
  assert (H3 : 16 < 2 ^ 24) by reflexivity.
  refine (conj H1 (conj H2 (conj H3 _))).
  exact (proj1 (handle_from_optarg_offsets strtoul value 16 0
                  Handles.TPM2_HANDLE_FLAGS_NV H1 H2 H3)
           eq_refl eq_refl).
Defined.

(** ** The tool [tpm2_checkquote] *)

Section CheckQuoteRun.

Import CheckQuoteTool.

Variable h : endianness.
Variable files_get_file_size_path : option string -> option Z.
Variable sizeof_TPM2B_ATTEST : Z.
Variable calloc : Z -> Z -> bool.
Variable files_load_bytes_from_path :
  option string -> Z -> bool * list BYTE.
Variable tpm2_convert_sig_load :
  option string -> bool -> Z -> Z -> TPMT_SIGNATURE -> bool * TPMT_SIGNATURE.
Variables TPML_PCR_SELECTION tpm2_pcrs : Type.
Variable pcrs_from_file :
  option string -> option (TPML_PCR_SELECTION * tpm2_pcrs).
Variable tpm2_openssl_hash_pcr_banks :
  Z -> TPML_PCR_SELECTION -> tpm2_pcrs -> TPM2B_DIGEST
  -> bool * TPM2B_DIGEST.
Variable pcr_print_pcr_struct : TPML_PCR_SELECTION -> tpm2_pcrs -> bool.
Variable tpm2_openssl_hash_compute_data :
  Z -> list BYTE -> Z -> TPM2B_DIGEST -> bool * TPM2B_DIGEST.
Variables FILE RSA : Type.
Variable fopen : string -> option FILE.
Variable tpm2_openssl_get_public_RSA_from_pem : FILE -> string -> option RSA.
Variable tpm2_openssl_halgid_from_tpmhalg : Z -> Z.
Variable RSA_verify : Z -> list BYTE -> Z -> list BYTE -> Z -> RSA -> Z.
Variable TPM2_ALG_RSASSA : Z.

#[local] Abbreviation message_from_file :=
  (CheckQuoteTool.message_from_file files_get_file_size_path
     sizeof_TPM2B_ATTEST calloc files_load_bytes_from_path).

#[local] Abbreviation init :=
  (CheckQuoteTool.init h files_get_file_size_path sizeof_TPM2B_ATTEST calloc
     files_load_bytes_from_path tpm2_convert_sig_load TPML_PCR_SELECTION
     tpm2_pcrs pcrs_from_file tpm2_openssl_hash_pcr_banks
     pcr_print_pcr_struct tpm2_openssl_hash_compute_data).

#[local] Abbreviation tpm2_tool_onrun :=
  (CheckQuoteTool.tpm2_tool_onrun h files_get_file_size_path
     sizeof_TPM2B_ATTEST calloc files_load_bytes_from_path
     tpm2_convert_sig_load TPML_PCR_SELECTION tpm2_pcrs pcrs_from_file
     tpm2_openssl_hash_pcr_banks pcr_print_pcr_struct
     tpm2_openssl_hash_compute_data FILE RSA fopen
     tpm2_openssl_get_public_RSA_from_pem tpm2_openssl_halgid_from_tpmhalg
     RSA_verify TPM2_ALG_RSASSA).





End CheckQuoteRun.


Section OnOptionFacts.

Import Stdlib.Strings.Ascii.
Import CheckQuoteTool.

Variable tpm2_alg_util_from_optarg : string -> Z -> Z.
Variable TPM2_ALG_ERROR : Z.

#[local] Abbreviation on_option :=
  (CheckQuoteTool.on_option tpm2_alg_util_from_optarg TPM2_ALG_ERROR).

(** X24. The option [-q] of [tpm2_checkquote] is accepted exactly when its
    value is an even number of hexadecimal digits, at most twice the
    capacity of the nonce; the nonce then has half that many bytes, which
    are the bytes that the digits stand for, and the flag of the nonce is
    set.  When it is refused the flag and the bytes of the nonce are as
    they were, and its size is left at the capacity.  Nothing else of the
    context changes. *)
Theorem on_option_qualification (value : string) (c : tool_ctx) :
  length (buffer (CheckQuote.extraData (verifysig c)))
    = Z.to_nat extraData_capacity ->
  let s := list_ascii_of_string value in
  let n := Z.of_nat (length s) / 2 in
  let out := on_option "q"%char value c in
  let v := verifysig c in
  let v' := verifysig (snd out) in
  (fst out = true <->
   Z.even (Z.of_nat (length s)) = true /\ forallb Hex.isxdigit s = true /\
   n <= extraData_capacity) /\
  (fst out = true ->
   CheckQuote.extraData v' =
     mkTPM2B n
       (Hex.bytes_of_hex s
          ++ skipn (Z.to_nat n) (buffer (CheckQuote.extraData v))) /\
   length (Hex.bytes_of_hex s) = Z.to_nat n /\
   flag_extra (flags v') = true) /\
  (fst out = false ->
   CheckQuote.extraData v' =
     mkTPM2B extraData_capacity (buffer (CheckQuote.extraData v)) /\
   flag_extra (flags v') = flag_extra (flags v)) /\
  set_flags (flags v) (set_extraData (CheckQuote.extraData v) v') = v /\
  mkTool v (pubkey_given (snd out)) (msg_file_path (snd out))
    (sig_file_path (snd out)) (pcr_file_path (snd out)) = c /\
  (flag_halg (flags v'), flag_msg (flags v'), flag_sig (flags v'),
   flag_pcr (flags v'), flag_key_context (flags v'), flag_fmt (flags v'))
  = (flag_halg (flags v), flag_msg (flags v), flag_sig (flags v),
     flag_pcr (flags v), flag_key_context (flags v), flag_fmt (flags v)).
Proof.
  intros Hbuf s n out v v'. subst out v v'.
  unfold CheckQuoteTool.on_option. cbv zeta.
  change (Ascii.eqb "q" "u") with false.
  change (Ascii.eqb "q" "g") with false.
  change (Ascii.eqb "q" "m") with false.
  change (Ascii.eqb "q" "F") with false.
  change (Ascii.eqb "q" "q") with true.
  cbv iota. fold s.
  pose proof (HexFacts.all_xdigits_whole s) as Hall.
  assert (Hcap : extraData_capacity = 66) by reflexivity.
  destruct c as [v pk mp sp pp]. destruct v as [f fm ha mh ph qh qe ed sg pf].
  destruct f as [f1 f2 f3 f4 f5 f6 f7]. destruct ed as [esz ebuf].
  cbn [verifysig CheckQuote.extraData buffer size flags flag_halg flag_msg
       flag_sig flag_pcr flag_extra flag_key_context flag_fmt
       pubkey_given msg_file_path sig_file_path pcr_file_path] in *.
  unfold Hex.tpm2_util_hex_to_byte_structure. cbv zeta.
  rewrite Nat2Z.id, Hall. rewrite Zmod_odd, <- Z.negb_even.
  destruct (Z.even (Z.of_nat (length s))) eqn:Heven; cbn [negb Z.eqb].
  2:{ cbn. repeat split; try discriminate; try reflexivity.
      intros (H & _). discriminate. }
  destruct (forallb Hex.isxdigit s) eqn:Hx; cbn [negb].
  2:{ cbn. repeat split; try discriminate; try reflexivity.
      intros (_ & H & _). discriminate. }
  fold n.
  destruct (extraData_capacity <? n) eqn:Hlen.
  { cbn. repeat split; try discriminate; try reflexivity.
    intros (_ & _ & H). lia. }
  assert (Hn : 0 <= n) by (unfold n; apply Z.div_pos; lia).
  rewrite Z.mod_small by lia.
  assert (Hs : length s = (2 * Z.to_nat n)%nat).
  { apply Z.even_spec in Heven. destruct Heven as [k Hk].
    unfold n. rewrite Hk.
    replace (2 * k) with (k * 2) by lia. rewrite Z.div_mul by lia. lia. }
  rewrite (HexFacts.convert_whole (Z.to_nat n)) by (try assumption; lia).
  cbn. repeat split; try discriminate; try reflexivity; try lia.
  apply HexFacts.bytes_of_hex_length. exact Hs.
Qed.

End OnOptionFacts.

Section OnOptionScenario.

Import Stdlib.Strings.Ascii.

Lemma on_option_qualification_witness :
  let out := CheckQuoteTool.on_option (fun _ _ => 0) 0 "q"%char "cafe"
               ToolScenario.ctx0 in
  length (buffer (CheckQuote.extraData
                    (CheckQuoteTool.verifysig ToolScenario.ctx0)))
    = Z.to_nat CheckQuoteTool.extraData_capacity /\
  fst out = true /\
  CheckQuote.extraData (CheckQuoteTool.verifysig (snd out)) =
    mkTPM2B 2 (Scenario.bytes [0xCA; 0xFE; 0xBE; 0xEF] ++ repeat x00 62).
Proof.
  intros out.
  assert (H : length (buffer (CheckQuote.extraData
                        (CheckQuoteTool.verifysig ToolScenario.ctx0)))
              = Z.to_nat CheckQuoteTool.extraData_capacity)
    by reflexivity.
  assert (H1 : fst out = true) by reflexivity.
  refine (conj H (conj H1 _)).
  exact (proj1 (proj1 (proj2 (on_option_qualification (fun _ _ => 0) 0
                                "cafe" ToolScenario.ctx0 H)) H1)).
Defined.

End OnOptionScenario.

(** ** The unique field of a public area *)

Lemma write_at_length dst off src :
  0 <= off <= Z.of_nat (length dst) ->
  length (write_at dst off src)
  = Nat.max (length dst) (Z.to_nat off + length src).
Proof.
  intros Hoff. unfold write_at.
  rewrite !length_app, length_firstn, length_skipn. lia.
Qed.

Lemma write_at_firstn dst off src :
  0 <= off <= Z.of_nat (length dst) ->
  firstn (Z.to_nat off + length src) (write_at dst off src)
  = firstn (Z.to_nat off) dst ++ src.
Proof.
  intros Hoff. unfold write_at. rewrite app_assoc.
  rewrite firstn_app.
  rewrite length_app, length_firstn.
  replace (Z.to_nat off + length src
           - (Init.Nat.min (Z.to_nat off) (length dst) + length src))%nat
    with 0%nat by lia.
  cbn [firstn]. rewrite app_nil_r.
  apply firstn_all2. rewrite length_app, length_firstn. lia.
Qed.

Section CalcUniqueFacts.

Variable TPM2_MAX_DIGEST_BUFFER : Z.
Variable tpm2_openssl_halg_to_digester : Z -> option (list BYTE -> list BYTE).
Variable tpm2_alg_util_get_hash_size : Z -> Z.

#[local] Abbreviation calc_unique :=
  (tpm2_util_calc_unique TPM2_MAX_DIGEST_BUFFER
     tpm2_openssl_halg_to_digester tpm2_alg_util_get_hash_size).

(** X25. When the two sizes together fit in 16 bits,
    [tpm2_util_calc_unique] succeeds exactly when they do not exceed the
    capacity of its buffer and the algorithm has a digester; the unique
    field is then the hash of the bytes of the seed followed by the bytes
    of the key, with the size of that hash, and the copies have stayed
    inside the buffer.  When it fails [unique_data] is as it was. *)
Theorem calc_unique_hashes_seed_then_key (name_alg : Z) (key seed u : TPM2B) :
  well_sized key -> well_sized seed ->
  size key + size seed <= UINT16_MAX ->
  0 <= TPM2_MAX_DIGEST_BUFFER ->
  let out := calc_unique name_alg key seed u in
  (fst (fst out) = true <->
   size key + size seed <= TPM2_MAX_DIGEST_BUFFER /\
   tpm2_openssl_halg_to_digester name_alg <> None) /\
  (fst (fst out) = false -> snd (fst out) = u) /\
  (fst (fst out) = true ->
   exists d, tpm2_openssl_halg_to_digester name_alg = Some d /\
     snd (fst out) =
       mkTPM2B (tpm2_alg_util_get_hash_size name_alg)
         (overwrite (d (content seed ++ content key)) (buffer u)) /\
     length (snd out) = Z.to_nat TPM2_MAX_DIGEST_BUFFER).
Proof.
  intros [Hk Hkl] [Hs Hsl] Hsum Hcap out. subst out.
  unfold tpm2_util_calc_unique, UINT16_MAX in *. cbv zeta.
  rewrite Z.mod_small by lia.
  destruct (size key + size seed >? TPM2_MAX_DIGEST_BUFFER) eqn:E;
    cbn [fst snd].
  { repeat split; try discriminate. intros [H _]. lia. }
  destruct (tpm2_openssl_halg_to_digester name_alg) as [d|] eqn:Hd;
    cbn [fst snd].
  2:{ repeat split; try discriminate. intros [_ H]. congruence. }
  split; [split; [intros _; split; [lia | discriminate] | reflexivity]|].
  split; [discriminate|]. intros _. exists d. split; [reflexivity|].
  set (zeros := repeat x00 (Z.to_nat TPM2_MAX_DIGEST_BUFFER)).
  assert (Hz : @length BYTE zeros = Z.to_nat TPM2_MAX_DIGEST_BUFFER)
    by apply repeat_length.
  set (sb := load (buffer seed) 0 (size seed)).
  set (kb := load (buffer key) 0 (size key)).
  assert (Hsb : length sb = Z.to_nat (size seed)) by apply load_length.
  assert (Hkb : length kb = Z.to_nat (size key)) by apply load_length.
  set (b1 := write_at zeros 0 sb).
  assert (Hb1 : length b1 = Z.to_nat TPM2_MAX_DIGEST_BUFFER).
  { unfold b1. rewrite write_at_length by lia.
    lia. }
  assert (Hb1f : firstn (Z.to_nat (size seed)) b1 = sb).
  { unfold b1. pose proof (write_at_firstn zeros 0 sb ltac:(lia)) as H.
    cbn [Z.to_nat Nat.add firstn app] in H. rewrite Hsb in H. exact H. }
  set (b2 := write_at b1 (size seed) kb).
  assert (Hb2 : length b2 = Z.to_nat TPM2_MAX_DIGEST_BUFFER).
  { unfold b2. rewrite write_at_length by lia. lia. }
  split; [|exact Hb2].
  f_equal. f_equal. f_equal.
  rewrite load_firstn by lia.
  rewrite Z2Nat.inj_add by lia.
  rewrite (Nat.add_comm (Z.to_nat (size key))).
  rewrite <- Hkb. unfold b2.
  rewrite write_at_firstn by lia. rewrite Hb1f.
  unfold content, sb, kb. now rewrite !load_firstn by lia.
Qed.

(** X26. The size of the buffer of [tpm2_util_calc_unique] is the sum of
    the two sizes cut to 16 bits, and it is that size which is checked:
    when the sum of the sizes is 65536 or more and what is left of it is
    within the capacity, the function goes on, and the two copies write
    as many bytes as the sizes say, past the end of the buffer. *)
Theorem calc_unique_size_wraps (name_alg : Z) (key seed u : TPM2B) :
  0 <= size key <= UINT16_MAX -> 0 <= size seed <= UINT16_MAX ->
  0 <= TPM2_MAX_DIGEST_BUFFER <= UINT16_MAX ->
  65536 <= size key + size seed ->
  size key + size seed - 65536 <= TPM2_MAX_DIGEST_BUFFER ->
  let out := calc_unique name_alg key seed u in
  (fst (fst out) = true <-> tpm2_openssl_halg_to_digester name_alg <> None) /\
  Z.of_nat (length (snd out)) = size key + size seed /\
  TPM2_MAX_DIGEST_BUFFER < Z.of_nat (length (snd out)).
Proof.
  intros Hk Hs Hcap Hsum Hrest out. subst out.
  unfold tpm2_util_calc_unique, UINT16_MAX in *. cbv zeta.
  replace ((size key + size seed) mod 65536)
    with (size key + size seed - 65536)
    by (apply Z.mod_unique_pos with (q := 1); lia).
  destruct (size key + size seed - 65536 >? TPM2_MAX_DIGEST_BUFFER) eqn:E;
    [lia|].
  set (zeros := repeat x00 (Z.to_nat TPM2_MAX_DIGEST_BUFFER)).
  assert (Hz : @length BYTE zeros = Z.to_nat TPM2_MAX_DIGEST_BUFFER)
    by apply repeat_length.
  set (sb := load (buffer seed) 0 (size seed)).
  set (kb := load (buffer key) 0 (size key)).
  assert (Hsb : length sb = Z.to_nat (size seed)) by apply load_length.
  assert (Hkb : length kb = Z.to_nat (size key)) by apply load_length.
  set (b1 := write_at zeros 0 sb).
  assert (Hb1 : length b1
                = Nat.max (Z.to_nat TPM2_MAX_DIGEST_BUFFER)
                    (Z.to_nat (size seed))).
  { unfold b1. rewrite write_at_length by lia. lia. }
  set (b2 := write_at b1 (size seed) kb).
  assert (Hb2 : Z.of_nat (length b2) = size key + size seed).
  { unfold b2. rewrite write_at_length by lia. lia. }
  destruct (tpm2_openssl_halg_to_digester name_alg) as [d|]; cbn [fst snd].
  - split; [split; [discriminate | reflexivity]|]. lia.
  - split; [split; [discriminate | congruence]|]. lia.
Qed.

End CalcUniqueFacts.

Lemma calc_unique_hashes_seed_then_key_witness :
  let key := mkTPM2B 2 [x01; x02] in
  let seed := mkTPM2B 1 [x03] in
  let u := mkTPM2B 0 [x00; x00; x00; x00] in
  let out := tpm2_util_calc_unique 1024 (fun _ => Some (fun bs => rev bs))
               (fun _ => 3) 0x0B key seed u in
  well_sized key /\ well_sized seed /\
  size key + size seed <= UINT16_MAX /\ 0 <= 1024 /\
  fst (fst out) = true /\
  snd (fst out) = mkTPM2B 3 [x02; x01; x03; x00].
Proof.
  intros key seed u out.
  assert (H1 : well_sized key) by (vm_compute; intuition discriminate).
  assert (H2 : well_sized seed) by (vm_compute; intuition discriminate).
  assert (H3 : size key + size seed <= UINT16_MAX)
    by (vm_compute; discriminate).
  assert (H4 : 0 <= 1024) by lia.
  assert (H5 : fst (fst out) = true) by reflexivity.
  refine (conj H1 (conj H2 (conj H3 (conj H4 (conj H5 _))))).
  destruct (proj2 (proj2 (calc_unique_hashes_seed_then_key 1024
              (fun _ => Some (fun bs => rev bs)) (fun _ => 3) 0x0B
              key seed u H1 H2 H3 H4)) H5) as (d & Hd & Hout & _).
  injection Hd as <-. exact Hout.
Defined.

Lemma calc_unique_size_wraps_witness :
  let key := mkTPM2B 65535 [] in
  let seed := mkTPM2B 2 [x03; x04] in
  let u := mkTPM2B 0 [] in
  let out := tpm2_util_calc_unique 1024 (fun _ => Some (fun bs => rev bs))
               (fun _ => 1) 0x0B key seed u in
  0 <= size key <= UINT16_MAX /\ 0 <= size seed <= UINT16_MAX /\
  0 <= 1024 <= UINT16_MAX /\ 65536 <= size key + size seed /\
  size key + size seed - 65536 <= 1024 /\
  1024 < Z.of_nat (length (snd out)).
Proof.
  intros key seed u out.
  assert (H1 : 0 <= size key <= UINT16_MAX)
    by (vm_compute; intuition discriminate).
  assert (H2 : 0 <= size seed <= UINT16_MAX)
    by (vm_compute; intuition discriminate).
  assert (H3 : 0 <= 1024 <= UINT16_MAX)
    by (vm_compute; intuition discriminate).
  assert (H4 : 65536 <= size key + size seed)
    by (vm_compute; discriminate).
  assert (H5 : size key + size seed - 65536 <= 1024)
    by (vm_compute; discriminate).
  refine (conj H1 (conj H2 (conj H3 (conj H4 (conj H5 _))))).
  exact (proj2 (proj2 (calc_unique_size_wraps 1024
           (fun _ => Some (fun bs => rev bs)) (fun _ => 1) 0x0B
           key seed u H1 H2 H3 H4 H5))).
Defined.

(** ** PCR selections *)





(** ** Labels *)

Section GetLabelFacts.

Variable FILE : Type.
Variable fopen : Hex.cstring -> option FILE.
Variable fread : FILE -> Z -> list BYTE * bool * bool.

#[local] Abbreviation get_label := (tpm2_util_get_label FILE fopen fread).

(** X28. [tpm2_util_get_label] takes its argument for a file name first:
    if a file of that name opens, the label is what was read from it,
    provided the end of the file was reached before [sizeof(buffer) - 1]
    bytes had been read and no error occurred; otherwise the label is
    the argument itself, provided it has at most [sizeof(buffer) - 1]
    characters.  In both cases a NUL byte is added and counted in the
    size, the label fits in the buffer, and the buffer keeps its length.
    A refused argument leaves the label as it was; a null argument gives
    the empty label. *)
Theorem get_label_result (value : Hex.cstring) (label : TPM2B_DATA) :
  length (buffer label) = Z.to_nat sizeof_TPMT_HA ->
  (forall f n, length (fst (fst (fread f n))) <= Z.to_nat n)%nat ->
  let out := get_label (Some value) label in
  (forall f data feof ferror,
     fopen value = Some f ->
     fread f (sizeof_TPMT_HA - 1) = (data, feof, ferror) ->
     (fst out = true <-> feof = true /\ ferror = false) /\
     (fst out = true ->
      content (snd out) = data ++ [x00] /\
      size (snd out) = Z.of_nat (length data) + 1)) /\
  (fopen value = None ->
   (fst out = true <-> Z.of_nat (strlen value) <= sizeof_TPMT_HA - 1) /\
   (fst out = false -> snd out = label) /\
   (fst out = true ->
    content (snd out) = bytes_of_cstring value ++ [x00] /\
    size (snd out) = Z.of_nat (strlen value) + 1)) /\
  (fst out = true -> size (snd out) <= sizeof_TPMT_HA) /\
  length (buffer (snd out)) = length (buffer label) /\
  get_label None label = (true, mkTPM2B 0 (buffer label)).
Proof.
  intros Hbuf Hread out. subst out.
  assert (Hcap : sizeof_TPMT_HA = 66) by reflexivity.
  unfold tpm2_util_get_label. cbv zeta.
  assert (W : forall (pre : list BYTE) (n : Z),
            Z.of_nat (length pre) = n -> n <= 65 ->
            let buf := write_at (overwrite pre (buffer label)) n [x00] in
            length buf = length (buffer label) /\
            firstn (Z.to_nat (n + 1)) buf = pre ++ [x00]).
  { intros pre n Hn Hle buf. subst buf.
    assert (Ho : length (overwrite pre (buffer label))
                 = length (buffer label)).
    { unfold overwrite. rewrite length_app, length_skipn. lia. }
    split.
    - rewrite write_at_length by lia. cbn [length]. lia.
    - replace (Z.to_nat (n + 1)) with (Z.to_nat n + length [x00])%nat
        by (cbn [length]; lia).
      rewrite write_at_firstn by lia. f_equal.
      unfold overwrite. rewrite firstn_app.
      replace (Z.to_nat n - length pre)%nat with 0%nat by lia.
      cbn [firstn]. rewrite app_nil_r. apply firstn_all2. lia. }
  destruct (fopen value) as [f|] eqn:Hopen.
  - specialize (Hread f (sizeof_TPMT_HA - 1)).
    destruct (fread f (sizeof_TPMT_HA - 1)) as [[data feof] ferror] eqn:Hfr.
    cbn [fst] in Hread.
    destruct (W data (Z.of_nat (length data)) eq_refl ltac:(lia))
      as [Wl Wf].
    assert (Hol : length (overwrite data (buffer label))
                  = length (buffer label)).
    { unfold overwrite. rewrite length_app, length_skipn. lia. }
    assert (Hsz : (Z.of_nat (length data) + 1) mod 65536
                  = Z.of_nat (length data) + 1)
      by (apply Z.mod_small; lia).
    destruct feof, ferror; cbv beta iota; cbn [negb fst snd size buffer].
    all: split;
      [intros f' data' feof' ferror' [= <-] Hfr';
       rewrite Hfr in Hfr'; injection Hfr' as <- <- <-;
       split;
       [split; [intros H | intros [H1 H2]];
        first [discriminate | reflexivity | now split]
       |intros H;
        first [discriminate
              | unfold content; cbn [size buffer]; rewrite Hsz;
                split; [exact Wf | reflexivity]]]
      |].
    all: split; [discriminate|].
    all: split; [intros H; first [discriminate | rewrite Hsz; lia]|].
    all: split; [first [exact Wl | exact Hol] | reflexivity].
  - assert (Hb : length (bytes_of_cstring value) = strlen value)
      by apply length_map.
    replace (write_at (buffer label) 0 (bytes_of_cstring value))
      with (overwrite (bytes_of_cstring value) (buffer label))
      by (unfold write_at, overwrite; reflexivity).
    destruct (Z.of_nat (strlen value) >? sizeof_TPMT_HA - 1) eqn:E;
      cbn [fst snd size buffer].
    + split; [discriminate|].
      split; [split; [split; [discriminate | lia]|];
              split; [reflexivity | discriminate]|].
      split; [discriminate|]. split; reflexivity.
    + destruct (W (bytes_of_cstring value) (Z.of_nat (strlen value))
                  ltac:(lia) ltac:(lia)) as [Wl Wf].
      split; [discriminate|].
      split; [intros _; split; [split; [lia | reflexivity]|];
              split; [discriminate|]; intros _;
              unfold content; cbn [size buffer];
              rewrite Z.mod_small by lia;
              split; [exact Wf | reflexivity]|].
      split; [intros _; rewrite Z.mod_small by lia; lia|].
      split; [exact Wl | reflexivity].
Qed.

End GetLabelFacts.

Lemma get_label_result_witness :
  let label := Scenario.quoteExtraData_init in
  let fread := fun (_ : unit) (_ : Z) => (@nil BYTE, true, false) in
  let out := tpm2_util_get_label unit (fun _ => None) fread
               (Some (list_ascii_of_string "ab")) label in
  length (buffer label) = Z.to_nat sizeof_TPMT_HA /\
  (forall f n, length (fst (fst (fread f n))) <= Z.to_nat n)%nat /\
  fst out = true /\
  content (snd out) = bytes_of_cstring (list_ascii_of_string "ab") ++ [x00].
Proof.
  intros label fread out.
  assert (H1 : length (buffer label) = Z.to_nat sizeof_TPMT_HA)
    by reflexivity.
  assert (H2 : forall f n,
             (length (fst (fst (fread f n))) <= Z.to_nat n)%nat)
    by (intros f n; cbn; lia).
  assert (H3 : fst out = true) by reflexivity.
  refine (conj H1 (conj H2 (conj H3 _))).
  exact (proj1 (proj2 (proj2 (proj1 (proj2
           (get_label_result unit (fun _ => None) fread
              (list_ascii_of_string "ab") label H1 H2)) eq_refl)) H3)).
Defined.

(** ** The tool [tpm2_clearcontrol] *)

Section ClearControlFacts.

Variable strtoul : Hex.cstring -> Z -> N * Hex.cstring * Z.
Variables tool_rc_success tool_rc_general_error : Z.
Variable ESYS_TR_RH_LOCKOUT : Z.
Variable tpm2_util_object_load_auth : string -> option string -> Z * Z.
Variable tpm2_clearcontrol : Z -> Z -> Z.

#[local] Abbreviation onrun :=
  (clearcontrol_onrun tool_rc_success tool_rc_general_error
     ESYS_TR_RH_LOCKOUT tpm2_util_object_load_auth tpm2_clearcontrol).

(** X29. [tpm2_clearcontrol] sends its command only with a handle that
    was loaded with success, and never to clear [disableClear] under the
    lockout handle; what it returns is then what the command returned.
    After an argument that [on_arg] has accepted, the value sent is the
    one that the argument stands for, 0 or 1. *)
Theorem clearcontrol_sends (argv : list Hex.cstring) (ctx_path : string)
    (auth_str : option string) (handle value : Z) :
  let arg := clearcontrol_on_arg strtoul argv 0 in
  let out := onrun ctx_path auth_str (snd arg) in
  fst arg = true ->
  snd out = Some (handle, value) ->
  tpm2_util_object_load_auth ctx_path auth_str = (tool_rc_success, handle) /\
  value = snd arg /\ (value = 0 \/ value = 1) /\
  (value = 0 -> handle <> ESYS_TR_RH_LOCKOUT) /\
  fst out = tpm2_clearcontrol handle value.
Proof.
  intros arg out Harg. subst out.
  assert (Hv : snd arg = 0 \/ snd arg = 1).
  { subst arg. revert Harg.
    unfold clearcontrol_on_arg, streq. cbv zeta.
    destruct argv as [|a [|a2 l]]; cbn [length nth].
    - cbn. discriminate.
    - cbn [Z.of_nat Pos.of_succ_nat Z.gtb Z.compare Pos.compare
           Pos.compare_cont Z.eqb].
      destruct (list_eq_dec Ascii.ascii_dec a (list_ascii_of_string "s"));
        [intros _; now right|].
      destruct (list_eq_dec Ascii.ascii_dec a (list_ascii_of_string "c"));
        [intros _; now left|].
      destruct (tpm2_util_string_to_uint32 strtoul (Some a)) as [num|];
        [|discriminate].
      destruct (negb (num =? 0) && negb (num =? 1)) eqn:E; [discriminate|].
      intros _. cbn [snd].
      assert (Hn : num = 0 \/ num = 1) by lia.
      destruct Hn as [-> | ->]; [now left | now right].
    - assert (Hgt : (Z.of_nat (S (S (length l))) >? 1) = true)
        by (apply Z.gtb_lt; lia).
      rewrite Hgt. discriminate. }
  unfold clearcontrol_onrun.
  destruct (tpm2_util_object_load_auth ctx_path auth_str) as [rc h].
  destruct (rc =? tool_rc_success) eqn:Erc; cbn [negb]; [|discriminate].
  apply Z.eqb_eq in Erc. subst rc.
  destruct ((snd arg =? 0) && (h =? ESYS_TR_RH_LOCKOUT)) eqn:E;
    [discriminate|].
  cbn [fst snd]. intros [= <- <-].
  repeat split; try assumption.
  intros H0. rewrite H0 in E. cbn [Z.eqb andb] in E.
  now apply Z.eqb_neq.
Qed.

End ClearControlFacts.

Lemma clearcontrol_sends_witness :
  let strtoul := fun (_ : Hex.cstring) (_ : Z) =>
                   (0%N, @nil Ascii.ascii, 1) in
  let arg := clearcontrol_on_arg strtoul [list_ascii_of_string "s"] 0 in
  let out := clearcontrol_onrun 0 1 0x10A (fun _ _ => (0, 0x10C))
               (fun _ _ => 0) "p" None (snd arg) in
  fst arg = true /\ snd out = Some (0x10C, 1) /\
  fst out = 0.
Proof.
  intros strtoul arg out.
  assert (H1 : fst arg = true) by reflexivity.
  assert (H2 : snd out = Some (0x10C, 1)) by reflexivity.
  refine (conj H1 (conj H2 _)).
  exact (proj2 (proj2 (proj2 (proj2
           (clearcontrol_sends strtoul 0 1 0x10A (fun _ _ => (0, 0x10C))
              (fun _ _ => 0) [list_ascii_of_string "s"] "p" None
              0x10C 1 H1 H2))))).
Defined.
